(** * Nivaran front-end: the report form, the dashboard and the live route tracker

    A shallow embedding of the React components of the repository:

    - [ReportPage] (src/frontend/src/app/(main)/report/page.tsx): the submit
      handler of the report form, its coordinate pattern, and the page
      around it: the image, the debounced suggestions, the detected
      location;
    - [RescueCard] (src/frontend/src/components/RescueCard.tsx): which
      buttons a card shows;
    - [Dashboard] (the dashboard page in report/page.tsx): the counters, the
      filtered list, Track and Take Action, and the loading of the cases;
    - [TrackingPage] (RescueCard.tsx, after the [RescueCard] component): the
      tracking screen, its three effects, the [watchPosition] handlers,
      [computeRouteFrom], the directions callback and the buttons beside the
      map.

    The models come first, the proofs after them.

    A component is modelled as a record of its React state, its refs, the
    bookkeeping React keeps for its effects, and the part of the browser it
    talks to.  Every handler is a function on that record; calls of browser
    and Google Maps APIs are appended to a log.  Numbers that hold
    coordinates and distances are IEEE-754 doubles ([PrimFloat.float]),
    whose arithmetic is specified by [FloatAxioms]; timestamps
    ([Date.now()]) are integers; strings are held in UTF-8. *)

From Stdlib Require Import ZArith List Bool Ascii String Lia.
From Stdlib Require Import Floats.PrimFloat.
From Stdlib Require Floats.SpecFloat Floats.FloatOps Floats.FloatAxioms.
Import ListNotations.

Local Open Scope string_scope.
Local Open Scope list_scope.
Local Open Scope Z_scope.


(** * The report form: [handleSubmit] *)

Module ReportPage.

(** ** Data *)

(** [formData] *)
Record FormData := {
  description : string;
  severity : string;
  contactName : string;
  contactPhone : string;
  location : string
}.

(** A [File] chosen by the user, as far as the handler uses it: what a
    [FileReader] gives for [readAsDataURL], [None] when reading fails. *)
Record File := { readAsDataURL : option string }.

(** The JSON body of the backend's answer, as far as the handler reads it. *)
Record ResponseData := {
  data_error : option string;
  data_message : option string;
  data_status : option string
}.

(** The body posted to [/report-case]. *)
Record Payload := {
  image_base64 : string;
  p_description : string;
  p_severity : string;
  contact_name : string;
  contact_phone : string;
  p_location : string;
  latitude : option float;
  longitude : option float
}.

Record State := {
  imageFile : option File;
  formData : FormData;
  isSubmitting : bool;
  submitted : bool;
  isAnalyzing : bool;
  detectionResult : option ResponseData
}.

Inductive Action :=
| PreventDefault
| ToastError (msg : string)
| ToastInfo (msg : string)
| ToastSuccess (msg : string)
| FetchGeocode (address : string)            (* GET maps.googleapis.com/.../geocode *)
| FetchBackend (api : string) (body : Payload)   (* POST <api>/report-case *)
| PushLater (path : string) (ms : Z).        (* setTimeout(() => router.push(path), ms) *)

(** What the awaited calls answer, should the handler make them. *)
Inductive GeoOutcome :=
| GeoFailed                                  (* fetch or json() threw *)
| GeoAnswer (loc : option (float * float)).  (* results[0].geometry.location, if any *)

Inductive BackendOutcome :=
| NetworkError                               (* fetch threw *)
| Response (ok : bool) (status : string) (data : ResponseData).
    (* [status]: the text of the number [res.status] *)

(** ** The handler *)

(** [!x] on a string. *)
Definition falsy (x : string) : bool :=
  match x with EmptyString => true | String _ _ => false end.

(** [x || y] where [x] may be [undefined]. *)
Definition orElse (x : option string) (y : string) : string :=
  match x with
  | Some v => if falsy v then y else v
  | None => y
  end.

(** [s.split(c)]: the first part and the parts after it. *)
Fixpoint splitOn (c : Ascii.ascii) (s : string) : string * list string :=
  match s with
  | EmptyString => (EmptyString, [])
  | String a rest =>
      let (h, t) := splitOn c rest in
      if Ascii.eqb a c then (EmptyString, h :: t) else (String a h, t)
  end.

(** [toBase64]: the data URL without its prefix. *)
Definition toBase64 (file : File) : option string :=
  match readAsDataURL file with
  | Some result =>
      let (first, others) := splitOn ","%char result in
      Some match others with second :: _ => second | [] => first end
  | None => None
  end.

Definition set_flags (submitting analyzing done : bool) (det : option ResponseData)
    (s : State) : State :=
  {| imageFile := imageFile s; formData := formData s;
     isSubmitting := submitting; submitted := done;
     isAnalyzing := analyzing; detectionResult := det |}.

Section WithEnv.

(** Whether [NEXT_PUBLIC_GOOGLE_MAPS_API_KEY] is set and not empty;
    [NEXT_PUBLIC_BACKEND_API], [None] when it is not set; and the regular
    expression match on the location followed by [parseFloat] of its two
    groups. *)
Variable GOOGLE_MAPS_API_KEY : bool.
Variable BACKEND_API : option string.
Variable coordMatch : string -> option (float * float).

Definition handleSubmit (s : State) (geo : GeoOutcome) (backend : BackendOutcome)
  : State * list Action :=
  let acts := [PreventDefault] in
  match imageFile s with
  | None => (s, acts ++ [ToastError "Please upload an image"])
  | Some file =>
  if falsy (location (formData s)) then
    (s, acts ++ [ToastError "Please provide a location"])
  else if falsy (contactPhone (formData s)) then
    (s, acts ++ [ToastError "Please provide a contact phone number"])
  else if falsy (severity (formData s)) then
    (s, acts ++ [ToastError "Please select severity level"])
  else
    let acts := acts ++ [ToastInfo "Submitting report..."] in
    let s := set_flags true true (submitted s) None s in
    let '(coords, acts) :=
      match coordMatch (location (formData s)) with
      | Some (la, lo) => ((Some la, Some lo), acts)
      | None =>
          if GOOGLE_MAPS_API_KEY then
            (match geo with
             | GeoAnswer (Some (la, lo)) => (Some la, Some lo)
             | _ => (None, None)
             end,
             acts ++ [FetchGeocode (location (formData s))])
          else ((None, None), acts)
      end in
    match toBase64 file with
    | None => (s, acts ++ [ToastError "Failed to read image file"])
    | Some imageBase64 =>
        let payload :=
          {| image_base64 := imageBase64;
             p_description := description (formData s);
             p_severity := severity (formData s);
             contact_name := contactName (formData s);
             contact_phone := contactPhone (formData s);
             p_location := location (formData s);
             latitude := fst coords;
             longitude := snd coords |} in
        match BACKEND_API with
        | None | Some EmptyString =>
            (s, acts ++ [ToastError "Backend API not configured (NEXT_PUBLIC_BACKEND_API)"])
        | Some api =>
            let acts := acts ++ [FetchBackend api payload] in
            match backend with
            | NetworkError =>
                (set_flags false false (submitted s) (detectionResult s) s,
                 acts ++ [ToastError "Network error: failed to submit report"])
            | Response ok status data =>
                let s := set_flags (isSubmitting s) false (submitted s) (detectionResult s) s in
                if negb ok then
                  (set_flags false (isAnalyzing s) (submitted s) (detectionResult s) s,
                   acts ++ [ToastError
                              ("Failed to submit report: "
                               ++ orElse (data_error data) (orElse (data_message data) status))%string])
                else
                  let s := set_flags (isSubmitting s) (isAnalyzing s) (submitted s) (Some data) s in
                  if match data_status data with
                     | Some st => String.eqb st "invalid_image"
                     | None => false
                     end
                  then
                    (set_flags false (isAnalyzing s) (submitted s) (detectionResult s) s,
                     acts ++ [ToastError
                                (orElse (data_message data) "This does not appear to be an animal")])
                  else
                    (set_flags false (isAnalyzing s) true (detectionResult s) s,
                     acts ++ [ToastSuccess "Animal detected — case submitted";
                              PushLater "/" 5000])
            end
        end
    end
  end.

End WithEnv.

(** ** Reading what [handleSubmit] did *)

(** The four checks [handleSubmit] makes before it does anything else. *)
Definition guardsPass (s : State) : bool :=
  match imageFile s with Some _ => true | None => false end
  && negb (falsy (location (formData s)))
  && negb (falsy (contactPhone (formData s)))
  && negb (falsy (severity (formData s))).

Definition isFetchBackend (a : Action) : bool :=
  match a with FetchBackend _ _ => true | _ => false end.

Definition isFetchGeocode (a : Action) : bool :=
  match a with FetchGeocode _ => true | _ => false end.

(** [s.includes(c)] for a character. *)
Fixpoint hasChar (c : Ascii.ascii) (s : string) : bool :=
  match s with
  | EmptyString => false
  | String a rest => Ascii.eqb a c || hasChar c rest
  end.


(** ** The coordinate pattern of [handleSubmit]

    [/(-?\d+\.\d+)\s*,\s*(-?\d+\.\d+)/] and [String.prototype.match]: a
    backtracking matcher for the operators the pattern uses, on strings in
    UTF-8. *)

Inductive Regex :=
| Chr (c : Ascii.ascii)        (* a character *)
| Digit                        (* \d *)
| Space                        (* \s *)
| Seq (r1 r2 : Regex)
| Opt (r : Regex)              (* r? *)
| Star (r : Regex)             (* r* *)
| Plus (r : Regex)             (* r+ *)
| Group (n : nat) (r : Regex). (* the n-th pair of parentheses *)

(** The text each group matched, latest first. *)
Definition Captures := list (nat * string).

(** What is done with the rest of the string once a part has matched. *)
Definition Cont := string -> Captures -> option Captures.

Definition code (a : Ascii.ascii) : N := N_of_ascii a.

Definition isDigit (a : Ascii.ascii) : bool := (48 <=? code a)%N && (code a <=? 57)%N.

(** [\s]: the rest of the string after one white space or line terminator
    (U+0009 to U+000D, U+0020, U+00A0, U+1680, U+2000 to U+200A, U+2028,
    U+2029, U+202F, U+205F, U+3000, U+FEFF). *)
Definition spaceRest (s : string) : option string :=
  match s with
  | String a rest =>
      if ((9 <=? code a) && (code a <=? 13) || (code a =? 32))%N then Some rest
      else
        match rest with
        | String b rest =>
            if ((code a =? 194) && (code b =? 160))%N then Some rest
            else
              match rest with
              | String c rest =>
                  if ((code a =? 225) && (code b =? 154) && (code c =? 128)
                      || (code a =? 226) && (code b =? 128)
                         && ((128 <=? code c) && (code c <=? 138)
                             || (code c =? 168) || (code c =? 169) || (code c =? 175))
                      || (code a =? 226) && (code b =? 129) && (code c =? 159)
                      || (code a =? 227) && (code b =? 128) && (code c =? 128)
                      || (code a =? 239) && (code b =? 187) && (code c =? 191))%N
                  then Some rest else None
              | EmptyString => None
              end
        | EmptyString => None
        end
  | EmptyString => None
  end.

(** A greedy loop: as many rounds of [step] as possible, each taking at
    least one character, then [k]; fewer rounds when [k] fails. *)
Fixpoint starLoop (step : string -> Captures -> Cont -> option Captures)
    (fuel : nat) (s : string) (caps : Captures) (k : Cont) : option Captures :=
  match fuel with
  | O => k s caps
  | S fuel =>
      match step s caps
              (fun s' caps' =>
                 if (String.length s' <? String.length s)%nat
                 then starLoop step fuel s' caps' k else None) with
      | Some r => Some r
      | None => k s caps
      end
  end.

Fixpoint matchFrom (r : Regex) (s : string) (caps : Captures) (k : Cont)
  : option Captures :=
  match r with
  | Chr c =>
      match s with
      | String a rest => if Ascii.eqb a c then k rest caps else None
      | EmptyString => None
      end
  | Digit =>
      match s with
      | String a rest => if isDigit a then k rest caps else None
      | EmptyString => None
      end
  | Space =>
      match spaceRest s with
      | Some rest => k rest caps
      | None => None
      end
  | Seq r1 r2 => matchFrom r1 s caps (fun s' caps' => matchFrom r2 s' caps' k)
  | Opt r =>
      match matchFrom r s caps k with
      | Some x => Some x
      | None => k s caps
      end
  | Star r => starLoop (matchFrom r) (String.length s) s caps k
  | Plus r =>
      matchFrom r s caps
        (fun s' caps' => starLoop (matchFrom r) (String.length s') s' caps' k)
  | Group n r =>
      matchFrom r s caps
        (fun s' caps' =>
           k s' ((n, substring 0 (String.length s - String.length s') s) :: caps'))
  end.

(** The leftmost match. *)
Fixpoint exec (r : Regex) (s : string) : option Captures :=
  match matchFrom r s [] (fun _ caps => Some caps) with
  | Some caps => Some caps
  | None =>
      match s with
      | String _ rest => exec r rest
      | EmptyString => None
      end
  end.

Fixpoint group (n : nat) (caps : Captures) : option string :=
  match caps with
  | [] => None
  | (m, text) :: rest => if Nat.eqb m n then Some text else group n rest
  end.

(** [-?\d+\.\d+] *)
Definition number : Regex :=
  Seq (Opt (Chr "-")) (Seq (Plus Digit) (Seq (Chr ".") (Plus Digit))).

Definition coordPattern : Regex :=
  Seq (Group 1 number)
      (Seq (Star Space) (Seq (Chr ",") (Seq (Star Space) (Group 2 number)))).

(** [coordMatch[1]] and [coordMatch[2]], when the pattern matches. *)
Definition coordGroups (s : string) : option (string * string) :=
  match exec coordPattern s with
  | Some caps =>
      match group 1 caps, group 2 caps with
      | Some g1, Some g2 => Some (g1, g2)
      | _, _ => None
      end
  | None => None
  end.

(** The [coordMatch] of [handleSubmit], with the host's [parseFloat]. *)
Definition coordMatch (parseFloat : string -> float) (s : string) : option (float * float) :=
  match coordGroups s with
  | Some (g1, g2) => Some (parseFloat g1, parseFloat g2)
  | None => None
  end.

(** Texts of the form [-?\d+\.\d+]. *)
Fixpoint allDigits (s : string) : bool :=
  match s with
  | EmptyString => true
  | String a rest => isDigit a && allDigits rest
  end.

Definition digits (s : string) : bool := negb (falsy s) && allDigits s.

(** The text starts with a digit. *)
Definition digitStart (s : string) : bool :=
  match s with String a _ => isDigit a | EmptyString => false end.

Definition Decimal (n : string) : Prop :=
  exists (negative : bool) (whole fraction : string),
    n = ((if negative then "-" else "") ++ whole ++ "." ++ fraction)%string /\
    digits whole = true /\ digits fraction = true.


(** ** The rest of the page: image, suggestions, detected location *)

(** [s.length]: the UTF-16 code units of a string held in UTF-8 (a byte
    that continues a character counts 0, the first byte of a four-byte
    character 2, any other byte 1). *)
Definition codeUnits (a : Ascii.ascii) : nat :=
  if (code a <? 128)%N then 1
  else if (code a <? 192)%N then 0
  else if (code a <? 240)%N then 1
  else 2.

Fixpoint jsLength (s : string) : nat :=
  match s with
  | EmptyString => O
  | String a rest => (codeUnits a + jsLength rest)%nat
  end.

(** What the reverse geocoding request of [getLocation] answers. *)
Inductive ReverseOutcome :=
| ReverseFailed                                (* fetch or json() threw *)
| ReverseAnswer (address : option string).
    (* [data.results[0].formatted_address], [None] without a first result *)

Inductive PageAction :=
| Did (a : Action)                             (* a toast, as in [handleSubmit], or what it did *)
| GetCurrentPosition                           (* navigator.geolocation.getCurrentPosition *)
| FetchReverseGeocode (la lo : float)          (* GET .../geocode/json?latlng=la,lo *)
| FetchSuggestions (id : nat) (input : string).
    (* GET /api/location-autocomplete?input=..., numbered *)

(** The [useState] cells [handleSubmit] does not use. *)
Record Ui := {
  imagePreview : option string;
  locationSuggestions : list string;
  showSuggestions : bool;
  isGettingLocation : bool;
  debouncedLocation : string
}.

(** The browser side: the timeout of the first debounce effect with the
    location it captured, the requests in flight, the [formData] captured by
    the callbacks of the position reads in flight, and the log. *)
Record Browser := {
  timer : option string;
  pendingSuggestions : list nat;
  nextSuggestion : nat;
  pendingPosition : list FormData;
  log : list PageAction
}.

Record Page := {
  fields :> State;
  ui :> Ui;
  browser :> Browser
}.

Definition upd_fields (f : State -> State) (p : Page) : Page :=
  {| fields := f (fields p); ui := ui p; browser := browser p |}.
Definition upd_ui (f : Ui -> Ui) (p : Page) : Page :=
  {| fields := fields p; ui := f (ui p); browser := browser p |}.
Definition upd_browser (f : Browser -> Browser) (p : Page) : Page :=
  {| fields := fields p; ui := ui p; browser := f (browser p) |}.

Definition setFormData (v : FormData) : Page -> Page :=
  upd_fields (fun s => {| imageFile := imageFile s; formData := v;
                          isSubmitting := isSubmitting s; submitted := submitted s;
                          isAnalyzing := isAnalyzing s; detectionResult := detectionResult s |}).
Definition setImageFile (v : option File) : Page -> Page :=
  upd_fields (fun s => {| imageFile := v; formData := formData s;
                          isSubmitting := isSubmitting s; submitted := submitted s;
                          isAnalyzing := isAnalyzing s; detectionResult := detectionResult s |}).

Definition setImagePreview (v : option string) : Page -> Page :=
  upd_ui (fun u => {| imagePreview := v; locationSuggestions := locationSuggestions u;
                      showSuggestions := showSuggestions u;
                      isGettingLocation := isGettingLocation u;
                      debouncedLocation := debouncedLocation u |}).
Definition setLocationSuggestions (v : list string) : Page -> Page :=
  upd_ui (fun u => {| imagePreview := imagePreview u; locationSuggestions := v;
                      showSuggestions := showSuggestions u;
                      isGettingLocation := isGettingLocation u;
                      debouncedLocation := debouncedLocation u |}).
Definition setShowSuggestions (v : bool) : Page -> Page :=
  upd_ui (fun u => {| imagePreview := imagePreview u;
                      locationSuggestions := locationSuggestions u;
                      showSuggestions := v;
                      isGettingLocation := isGettingLocation u;
                      debouncedLocation := debouncedLocation u |}).
Definition setIsGettingLocation (v : bool) : Page -> Page :=
  upd_ui (fun u => {| imagePreview := imagePreview u;
                      locationSuggestions := locationSuggestions u;
                      showSuggestions := showSuggestions u;
                      isGettingLocation := v;
                      debouncedLocation := debouncedLocation u |}).
Definition setDebouncedLocation (v : string) : Page -> Page :=
  upd_ui (fun u => {| imagePreview := imagePreview u;
                      locationSuggestions := locationSuggestions u;
                      showSuggestions := showSuggestions u;
                      isGettingLocation := isGettingLocation u;
                      debouncedLocation := v |}).

Definition set_timer (v : option string) : Page -> Page :=
  upd_browser (fun b => {| timer := v; pendingSuggestions := pendingSuggestions b;
                           nextSuggestion := nextSuggestion b;
                           pendingPosition := pendingPosition b; log := log b |}).
Definition set_suggestions (pending : list nat) (next : nat) : Page -> Page :=
  upd_browser (fun b => {| timer := timer b; pendingSuggestions := pending;
                           nextSuggestion := next;
                           pendingPosition := pendingPosition b; log := log b |}).
Definition set_pendingPosition (v : list FormData) : Page -> Page :=
  upd_browser (fun b => {| timer := timer b; pendingSuggestions := pendingSuggestions b;
                           nextSuggestion := nextSuggestion b;
                           pendingPosition := v; log := log b |}).
Definition emit (a : PageAction) : Page -> Page :=
  upd_browser (fun b => {| timer := timer b; pendingSuggestions := pendingSuggestions b;
                           nextSuggestion := nextSuggestion b;
                           pendingPosition := pendingPosition b; log := log b ++ [a] |}).

(** [{ ...formData, field: value }] *)
Definition with_description (v : string) (f : FormData) : FormData :=
  {| description := v; severity := severity f; contactName := contactName f;
     contactPhone := contactPhone f; location := location f |}.
Definition with_severity (v : string) (f : FormData) : FormData :=
  {| description := description f; severity := v; contactName := contactName f;
     contactPhone := contactPhone f; location := location f |}.
Definition with_contactName (v : string) (f : FormData) : FormData :=
  {| description := description f; severity := severity f; contactName := v;
     contactPhone := contactPhone f; location := location f |}.
Definition with_contactPhone (v : string) (f : FormData) : FormData :=
  {| description := description f; severity := severity f; contactName := contactName f;
     contactPhone := v; location := location f |}.
Definition with_location (v : string) (f : FormData) : FormData :=
  {| description := description f; severity := severity f; contactName := contactName f;
     contactPhone := contactPhone f; location := v |}.

Section WithBrowser.

(** ["geolocation" in navigator], [Number.prototype.toFixed(6)] and
    [parseFloat]; and the configuration of [handleSubmit]. *)
Variable geolocation : bool.
Variable toFixed6 : float -> string.
Variable parseFloat : string -> float.
Variable GOOGLE_MAPS_API_KEY : bool.
Variable BACKEND_API : option string.

(** *** [handleImageUpload] and "Change Image" *)

(** The reader's [onloadend] for the file chosen. *)
Definition handleImageUpload (file : File) (p : Page) : Page :=
  setImageFile (Some file) (setImagePreview (readAsDataURL file) p).

Definition changeImage (p : Page) : Page := setImagePreview None p.

(** *** The suggestions *)

(** [getLocationSuggestions] up to its request. *)
Definition getLocationSuggestions (input : string) (p : Page) : Page :=
  if (jsLength input <? 3)%nat then
    setShowSuggestions false (setLocationSuggestions [] p)
  else
    let id := nextSuggestion p in
    emit (FetchSuggestions id input)
         (set_suggestions (pendingSuggestions p ++ [id]) (S id) p).

(** ... and once the request has answered: [predictions] is
    [data.predictions], with the description of each prediction. *)
Definition suggestionsAnswer (predictions : option (list string)) (p : Page) : Page :=
  match predictions with
  | Some suggestions => setShowSuggestions true (setLocationSuggestions suggestions p)
  | None => p
  end.

Definition handleLocationInputChange (value : string) (p : Page) : Page :=
  setFormData (with_location value (formData p)) p.

Definition handleSuggestionClick (suggestion : string) (p : Page) : Page :=
  setLocationSuggestions []
    (setShowSuggestions false (setFormData (with_location suggestion (formData p)) p)).

(** The dropdown is rendered. *)
Definition dropdown (p : Page) : bool :=
  showSuggestions p && negb (Nat.eqb (List.length (locationSuggestions p)) 0).

(** *** [getLocation] *)

(** The text for a position without address. *)
Definition coordinateText (la lo : float) : string :=
  (toFixed6 la ++ ", " ++ toFixed6 lo)%string.

(** The handler up to the position read; the callbacks keep the
    [formData] of the render the handler belongs to. *)
Definition getLocation (p : Page) : Page :=
  if geolocation then
    let captured := formData p in
    let p := setIsGettingLocation true p in
    let p := emit (Did (ToastInfo "Fetching your location...")) p in
    emit GetCurrentPosition (set_pendingPosition (pendingPosition p ++ [captured]) p)
  else
    let p := emit (Did (ToastError "Geolocation not supported")) p in
    setIsGettingLocation false p.

(** The success callback; [formData] is the captured one. *)
Definition positionFound (formData : FormData) (la lo : float) (answer : ReverseOutcome)
    (p : Page) : Page :=
  let p := emit (FetchReverseGeocode la lo) p in
  let p :=
    match answer with
    | ReverseAnswer address =>
        let locationString :=
          match address with
          | Some formatted_address => formatted_address
          | None => coordinateText la lo
          end in
        let p := setFormData (with_location locationString formData) p in
        emit (Did (ToastSuccess "Location detected with Google Maps")) p
    | ReverseFailed =>
        let p := setFormData (with_location (coordinateText la lo) formData) p in
        emit (Did (ToastSuccess "Location detected")) p
    end in
  setIsGettingLocation false p.

(** The location the success callback stores. *)
Definition detectedText (la lo : float) (answer : ReverseOutcome) : string :=
  match answer with
  | ReverseAnswer (Some formatted_address) => formatted_address
  | _ => coordinateText la lo
  end.

(** The error callback. *)
Definition positionError (p : Page) : Page :=
  let p := emit (Did (ToastError "Unable to fetch location")) p in
  setIsGettingLocation false p.

(** *** The debounce effects *)

(** Effect 1 (deps: [formData.location]): the cleanup of the previous run
    clears its timeout, the body sets one that captures the location. *)
Definition debounceEffect (p : Page) : Page :=
  set_timer (Some (location (formData p))) p.

(** Effect 2 (deps: [debouncedLocation]). *)
Definition suggestEffect (p : Page) : Page :=
  if (3 <=? jsLength (debouncedLocation p))%nat
  then getLocationSuggestions (debouncedLocation p) p
  else setShowSuggestions false (setLocationSuggestions [] p).

(** The effects React runs after the render that follows a handler:
    those whose dependency differs from the render before. *)
Definition effects (before after : Page) : Page :=
  let p := after in
  let p := if String.eqb (location (formData after)) (location (formData before))
           then p else debounceEffect p in
  if String.eqb (debouncedLocation after) (debouncedLocation before)
  then p else suggestEffect p.

(** *** Events *)

Inductive Event :=
| ImageRead (file : File)              (* a file was chosen and read *)
| ChangeImage
| LocationInput (value : string)
| DescriptionInput (value : string)
| SeveritySelect (value : string)
| NameInput (value : string)
| PhoneInput (value : string)
| LocationFocus
| ClickOutside                         (* mousedown outside the input and the dropdown *)
| SuggestionClick (index : nat)
| DetectLocation
| PositionFound (la lo : float) (answer : ReverseOutcome)
| PositionError
| TimerFires                           (* the 100 ms timeout of effect 1 *)
| SuggestionsAnswer (id : nat) (predictions : option (list string))
| SuggestionsError (id : nat)
| Submit (geo : GeoOutcome) (backend : BackendOutcome).

Definition mem (id : nat) (l : list nat) : bool := existsb (Nat.eqb id) l.

(** The handler of an event.  A button that is disabled, and an element
    that is not rendered, give no event.  [Submit] carries the answers of
    the requests [handleSubmit] awaits and takes the handler to its end in
    one step: no other event is placed between its awaits. *)
Definition handle (p : Page) (e : Event) : Page :=
  match e with
  | ImageRead file => handleImageUpload file p
  | ChangeImage => changeImage p
  | LocationInput value => handleLocationInputChange value p
  | DescriptionInput value => setFormData (with_description value (formData p)) p
  | SeveritySelect value => setFormData (with_severity value (formData p)) p
  | NameInput value => setFormData (with_contactName value (formData p)) p
  | PhoneInput value => setFormData (with_contactPhone value (formData p)) p
  | LocationFocus =>
      if negb (Nat.eqb (List.length (locationSuggestions p)) 0)
      then setShowSuggestions true p else p
  | ClickOutside => if dropdown p then setShowSuggestions false p else p
  | SuggestionClick index =>
      if dropdown p then
        match nth_error (locationSuggestions p) index with
        | Some suggestion => handleSuggestionClick suggestion p
        | None => p
        end
      else p
  | DetectLocation => if isGettingLocation p then p else getLocation p
  | PositionFound la lo answer =>
      match pendingPosition p with
      | captured :: rest => positionFound captured la lo answer (set_pendingPosition rest p)
      | [] => p
      end
  | PositionError =>
      match pendingPosition p with
      | _ :: rest => positionError (set_pendingPosition rest p)
      | [] => p
      end
  | TimerFires =>
      match timer p with
      | Some captured => setDebouncedLocation captured (set_timer None p)
      | None => p
      end
  | SuggestionsAnswer id predictions =>
      if mem id (pendingSuggestions p) then
        suggestionsAnswer predictions
          (set_suggestions (remove Nat.eq_dec id (pendingSuggestions p)) (nextSuggestion p) p)
      else p
  | SuggestionsError id =>
      if mem id (pendingSuggestions p) then
        set_suggestions (remove Nat.eq_dec id (pendingSuggestions p)) (nextSuggestion p) p
      else p
  | Submit geo backend =>
      if isSubmitting p || submitted p then p
      else
        let (s, acts) :=
          handleSubmit GOOGLE_MAPS_API_KEY BACKEND_API (coordMatch parseFloat)
                       (fields p) geo backend in
        fold_left (fun q a => emit (Did a) q) acts (upd_fields (fun _ => s) p)
  end.

Definition step (p : Page) (e : Event) : Page := effects p (handle p e).

Definition run (p : Page) (evs : list Event) : Page := fold_left step evs p.

(** The page after its first render and the effects of the mount: the
    first debounce timeout is running, the second effect found nothing to
    suggest. *)
Definition init : Page :=
  {| fields := {| imageFile := None;
                  formData := {| description := EmptyString; severity := EmptyString;
                                 contactName := EmptyString; contactPhone := EmptyString;
                                 location := EmptyString |};
                  isSubmitting := false; submitted := false; isAnalyzing := false;
                  detectionResult := None |};
     ui := {| imagePreview := None; locationSuggestions := []; showSuggestions := false;
              isGettingLocation := false; debouncedLocation := EmptyString |};
     browser := {| timer := Some EmptyString; pendingSuggestions := [];
                   nextSuggestion := 0; pendingPosition := []; log := [] |} |}.

End WithBrowser.

(** The inputs of the autocomplete requests made. *)
Definition suggestionRequests (l : list PageAction) : list string :=
  flat_map (fun a => match a with FetchSuggestions _ input => [input] | _ => [] end) l.

Definition isTimerFires (e : Event) : bool :=
  match e with TimerFires => true | _ => false end.

(** The pending timeout carries the text of the location field. *)
Definition timerCurrent (p : Page) : Prop :=
  match timer p with
  | Some captured => captured = location (formData p)
  | None => True
  end.

(** Events that neither start nor end a position read. *)
Definition besidesDetection (e : Event) : bool :=
  match e with
  | DetectLocation | PositionFound _ _ _ | PositionError => false
  | _ => true
  end.

(** ** Example data *)

Definition pngUrlPrefix : string := "data:image/png;base64".
Definition pngPayload : string := "iVBORw0KGgoAAAANSUhEUg==".

(** A filled form whose image cannot be read. *)
Definition unreadable : State :=
  {| imageFile := Some {| readAsDataURL := None |};
     formData := {| description := "Injured dog near the gate"; severity := "High";
                    contactName := "Asha"; contactPhone := "+91 9278456790";
                    location := "MG Road, Bengaluru" |};
     isSubmitting := false; submitted := false; isAnalyzing := false;
     detectionResult := None |}.

(** A file that can be read. *)
Definition dogPhoto : File :=
  {| readAsDataURL := Some "data:image/png;base64,iVBORw0KGgoAAAANSUhEUg==" |}.

(** The same form with that file. *)
Definition filled : State :=
  {| imageFile := Some dogPhoto; formData := formData unreadable;
     isSubmitting := false; submitted := false; isAnalyzing := false;
     detectionResult := None |}.

(** A stand-in for [toFixed(6)] and one for [parseFloat], which knows the
    two texts the first one gives. *)
Definition toFixedDouble (x : float) : string :=
  if (x <? 50)%float then "12.968750" else "77.593750".
Definition parseFloatDouble (s : string) : float :=
  if String.eqb s "12.968750" then 12.96875%float
  else if String.eqb s "77.593750" then 77.59375%float
  else nan.


End ReportPage.

(** * The rescue card *)

Module RescueCard.

(** [RescueCase] *)
Record RescueCase := {
  id : string;
  title : string;
  description : string;
  location : string;
  severity : string;
  status : string;
  imageUrl : string;
  reportedAt : string;
  contactInfo : string;
  latitude : option float;
  longitude : option float
}.

(** [RescueCardProps]; a handler is modelled by whether it is passed. *)
Record Props := {
  rescue : RescueCase;
  onTakeAction : bool;
  onTrack : bool;
  showTrackButton : bool
}.

(** What the card shows below its text. *)
Record Footer := {
  takeAction : bool;     (* the "Take Action" button *)
  track : bool           (* the "Track" button *)
}.

Section WithHost.

(** [String.prototype.toLowerCase] *)
Variable toLowerCase : string -> string.

(** [String(rescue.status || "").toLowerCase()] *)
Definition statusNormalized (r : RescueCase) : string := toLowerCase (status r).

(** [array.includes(x)] on strings. *)
Definition includes (l : list string) (x : string) : bool :=
  existsb (String.eqb x) l.

Definition isActionable (r : RescueCase) : bool :=
  negb (includes ["resolved"; "in progress"; "completed"; "closed"] (statusNormalized r)).

(** The [CardFooter], [None] when the card has none. *)
Definition footer (p : Props) : option Footer :=
  if (onTakeAction p && isActionable (rescue p)) || (onTrack p && showTrackButton p)
  then Some {| takeAction := onTakeAction p && isActionable (rescue p);
               track := onTrack p && showTrackButton p |}
  else None.

End WithHost.

End RescueCard.

(** * The dashboard *)

Module Dashboard.

(** ** Data *)

(** A case object as the backend sends it, as far as the page reads it;
    [None] is a field that is absent. *)
Record Case := {
  case_id : option string;
  id : option string;
  description : option string;
  location : option string;
  severity : option string;
  status : option string;
  image_presigned_url : option string;
  s3_key : option string;
  imageUrl : option string;
  created_at : option string;
  reportedAt : option string;
  contact_phone : option string;
  contactInfo : option string;
  latitude : option float;
  longitude : option float
}.

(** [{ lat: number; lng: number }] *)
Record Coords := { lat : float; lng : float }.

(** [caseType] *)
Inductive CaseType := all | ongoing | completed.

(** An entry of [filteredRescues]: the card's case and the object it was
    made from ([_raw]). *)
Record Rescue := {
  card : RescueCard.RescueCase;
  _raw : Case
}.

Record Stats := { total : nat; new : nat; inProgress : nat; resolved : nat }.

Record State := {
  caseType : CaseType;
  filterStatus : string;
  filterSeverity : string;
  searchQuery : string;
  loading : bool;
  cases : list Case;
  ngoEmail : option string;
  editingNgoEmail : string;
  ngoCoords : option Coords
}.

Inductive Action :=
| ToastError (msg : string)
| ToastSuccess (msg : string)
| RouterPush (url : string)
| Fetch (url : string)                       (* fetch(url) *)
| Post (url : string) (email : string)       (* fetch(url, { method: "POST", body: { email } }) *)
| CallFetchNearbyCases (email : string)      (* fetchNearbyCases(email), not awaited *)
| CallFetchOngoingCases (email : string).    (* fetchOngoingCases(email), not awaited *)

(** ** JavaScript values *)

(** [!x] on a string. *)
Definition falsy (x : string) : bool :=
  match x with EmptyString => true | String _ _ => false end.

(** Whether a field that may be absent is truthy. *)
Definition truthy (x : option string) : bool :=
  match x with Some v => negb (falsy v) | None => false end.

(** [x || y] where both may be absent. *)
Definition or (x y : option string) : option string :=
  if truthy x then x else y.

(** [x || y] where [y] is a string. *)
Definition orElse (x : option string) (y : string) : string :=
  match x with
  | Some v => if falsy v then y else v
  | None => y
  end.

(** Whether a number that may be absent is truthy: not [0], [-0] or [NaN]. *)
Definition truthyNumber (x : option float) : bool :=
  match x with
  | Some f => negb (PrimFloat.eqb f 0) && PrimFloat.eqb f f
  | None => false
  end.

(** [x === y] where [x] may be absent. *)
Definition same (x : option string) (y : string) : bool :=
  match x with Some v => String.eqb v y | None => false end.

(** [s.includes(sub)] *)
Fixpoint includes (s sub : string) : bool :=
  String.prefix sub s
  || match s with
     | EmptyString => false
     | String _ rest => includes rest sub
     end.

(** [array.find(p)] *)
Definition find {A} (p : A -> bool) (l : list A) : option A := List.find p l.

Section WithHost.

(** What the JavaScript runtime provides: [toLowerCase], [slice(0, 60)],
    the text of a number in a template, [encodeURIComponent], and the
    seven characters drawn from [Math.random()] for the [k]-th case in the
    render at hand: every render draws again. *)
Variable toLowerCase : string -> string.
Variable slice_0_60 : string -> string.
Variable numberToString : float -> string.
Variable encodeURIComponent : string -> string.
Variable randomId : nat -> string.

(** [BACKEND_API], [S3_BUCKET] and [AWS_REGION] with their defaults. *)
Variable BACKEND_API : string.
Variable S3_BUCKET : string.
Variable AWS_REGION : string.

Definition s3UrlForKey (key : option string) : string :=
  match key with
  | Some k =>
      if falsy k then EmptyString
      else ("https://" ++ S3_BUCKET ++ ".s3." ++ AWS_REGION ++ ".amazonaws.com/"
            ++ encodeURIComponent k)%string
  | None => EmptyString
  end.

(** ** [stats] *)

Definition countStatus (st : string) (cs : list Case) : nat :=
  List.length (filter (fun c => String.eqb (orElse (status c) "New") st) cs).

Definition stats (s : State) : Stats :=
  {| total := List.length (cases s);
     new := countStatus "New" (cases s);
     inProgress := countStatus "In Progress" (cases s);
     resolved := countStatus "Resolved" (cases s) |}.

(** ** [filteredRescues] *)

(** The callback of [cases.map]; [k] is the position of the case. *)
Definition toRescue (k : nat) (caseItem : Case) : Rescue :=
  let id := orElse (or (case_id caseItem) (id caseItem)) (randomId k) in
  let imageUrl :=
    if truthy (image_presigned_url caseItem)
    then orElse (image_presigned_url caseItem) EmptyString
    else if truthy (s3_key caseItem) then s3UrlForKey (s3_key caseItem)
         else orElse (imageUrl caseItem) EmptyString in
  let location :=
    orElse (location caseItem)
      (if truthyNumber (latitude caseItem) && truthyNumber (longitude caseItem)
       then match latitude caseItem, longitude caseItem with
            | Some la, Some lo => (numberToString la ++ ", " ++ numberToString lo)%string
            | _, _ => "Unknown"
            end
       else "Unknown") in
  {| card :=
       {| RescueCard.id := id;
          RescueCard.title :=
            if truthy (description caseItem)
            then slice_0_60 (orElse (description caseItem) EmptyString)
            else ("Case " ++ id)%string;
          RescueCard.description := orElse (description caseItem) EmptyString;
          RescueCard.location := location;
          RescueCard.severity := orElse (severity caseItem) "Unknown";
          RescueCard.status := orElse (status caseItem) "New";
          RescueCard.imageUrl := imageUrl;
          RescueCard.reportedAt :=
            orElse (or (created_at caseItem) (reportedAt caseItem)) "recent";
          RescueCard.contactInfo :=
            orElse (or (contact_phone caseItem) (contactInfo caseItem)) "n/a";
          RescueCard.latitude := latitude caseItem;
          RescueCard.longitude := longitude caseItem |};
     _raw := caseItem |}.

(** [status === "completed" || status === "resolved" || status === "closed"]
    on the lower-cased status. *)
Definition closedStatus (r : Rescue) : bool :=
  let status := toLowerCase (RescueCard.status (card r)) in
  String.eqb status "completed" || String.eqb status "resolved" || String.eqb status "closed".

(** The callback of [.filter]. *)
Definition shown (s : State) (r : Rescue) : bool :=
  let rescue := card r in
  if match caseType s with
     | ongoing => closedStatus r
     | completed => negb (closedStatus r)
     | all => false
     end
  then false
  else
    let matchesStatus :=
      String.eqb (filterStatus s) "all"
      || String.eqb (RescueCard.status rescue) (filterStatus s) in
    let matchesSeverity :=
      String.eqb (filterSeverity s) "all"
      || String.eqb (RescueCard.severity rescue) (filterSeverity s) in
    let matchesSearch :=
      String.eqb (searchQuery s) EmptyString
      || includes (toLowerCase (RescueCard.title rescue)) (toLowerCase (searchQuery s))
      || includes (toLowerCase (RescueCard.location rescue)) (toLowerCase (searchQuery s)) in
    matchesStatus && matchesSeverity && matchesSearch.

(** [array.map(f)] with the index. *)
Fixpoint mapi {A B} (f : nat -> A -> B) (k : nat) (l : list A) : list B :=
  match l with
  | [] => []
  | x :: rest => f k x :: mapi f (S k) rest
  end.

Definition filteredRescues (s : State) : list Rescue :=
  filter (shown s) (mapi toRescue 0 (cases s)).

(** The props each card of the list gets. *)
Definition cardProps (s : State) (r : Rescue) : RescueCard.Props :=
  {| RescueCard.rescue := card r;
     RescueCard.onTakeAction := match caseType s with all => true | _ => false end;
     RescueCard.onTrack := match caseType s with ongoing => true | _ => false end;
     RescueCard.showTrackButton := match caseType s with ongoing => true | _ => false end |}.

(** ** [handleTrack] *)

Definition trackingUrl (id : string) (caseLat caseLng : float) (ngo : Coords) : string :=
  ("/tracking?case_id=" ++ encodeURIComponent id
   ++ "&lat=" ++ numberToString caseLat ++ "&lng=" ++ numberToString caseLng
   ++ "&ngo_lat=" ++ numberToString (lat ngo)
   ++ "&ngo_lng=" ++ numberToString (lng ngo))%string.

Definition handleTrack (s : State) (id : string) : list Action :=
  match find (fun it => same (or (case_id it) (Dashboard.id it)) id) (cases s) with
  | None => [ToastError "Case not found"]
  | Some c =>
      if negb (truthyNumber (latitude c)) || negb (truthyNumber (longitude c))
      then [ToastError "Case location not available"]
      else
        match latitude c, longitude c, ngoCoords s with
        | Some caseLat, Some caseLng, Some ngo => [RouterPush (trackingUrl id caseLat caseLng ngo)]
        | _, _, _ => [ToastError "NGO location not available"]
        end
  end.

(** ** [handleTakeAction] *)

(** What the awaited [fetch] answers. *)
Inductive PostAnswer :=
| PostThrows
| PostResponse (ok : bool) (status : string) (body : string).
    (* [status]: the text of [res.status]; [body]: [res.text()], [""] when it fails *)

Definition handleTakeAction (s : State) (id : string) (answer : PostAnswer) : list Action :=
  match find (fun it => same (or (case_id it) (Dashboard.id it)) id
                        || same (Dashboard.id it) id) (cases s) with
  | None => [ToastError "Case not found"]
  | Some c =>
      match ngoEmail s with
      | None => [ToastError "NGO email not set"]
      | Some email =>
          if falsy email then [ToastError "NGO email not set"]
          else
            let acts := [Post (BACKEND_API ++ "/cases/" ++ encodeURIComponent id
                               ++ "/take-action")%string email] in
            match answer with
            | PostThrows => acts ++ [ToastError "Network error while taking action"]
            | PostResponse false status body =>
                acts ++ [ToastError ("Failed to take action: " ++ status ++ " " ++ body)%string]
            | PostResponse true _ _ =>
                acts ++ [ToastSuccess ("Case #" ++ id ++ " assigned to you!")%string;
                         match caseType s with
                         | all => CallFetchNearbyCases email
                         | _ => CallFetchOngoingCases email
                         end]
            end
      end
  end.

Definition isPost (a : Action) : bool :=
  match a with Post _ _ => true | _ => false end.

(** ** [fetchPresignedForCase] and [fetchNearbyCases] *)

(** What the presign request answers. *)
Inductive PresignAnswer :=
| PresignThrows
| PresignNotOk
| PresignBody (url : option string).   (* [body.url], [None] without body or url *)

Definition fetchPresignedForCase (answer : PresignAnswer) : option string :=
  match answer with
  | PresignBody url => if truthy url then url else None
  | _ => None
  end.

Definition presignUrl (caseId : string) : string :=
  (BACKEND_API ++ "/cases/" ++ encodeURIComponent caseId ++ "/image-url")%string.

Definition set_image_presigned_url (v : option string) (c : Case) : Case :=
  {| case_id := case_id c; id := id c; description := description c;
     location := location c; severity := severity c; status := status c;
     image_presigned_url := v; s3_key := s3_key c; imageUrl := imageUrl c;
     created_at := created_at c; reportedAt := reportedAt c;
     contact_phone := contact_phone c; contactInfo := contactInfo c;
     latitude := latitude c; longitude := longitude c |}.

(** The callback of [batch.map]: the case as it comes back, and the request
    made for it. *)
Definition enrich (answer : PresignAnswer) (c : Case) : Case * list Action :=
  match case_id c with
  | Some caseId =>
      if falsy caseId then (c, [])
      else
        (match fetchPresignedForCase answer with
         | Some presigned => set_image_presigned_url (Some presigned) c
         | None => c
         end,
         [Fetch (presignUrl caseId)])
  | None => (c, [])
  end.

(** What the request for the cases answers. *)
Inductive CasesAnswer :=
| CasesThrows                                (* fetch or json() threw *)
| CasesNotOk (status body : string)
| CasesNotArray
| CasesArray (data : list Case).

Definition batchSize : nat := 6.

(** One batch: the callbacks run in order, each up to its request. *)
Fixpoint enrichBatch (presign : nat -> PresignAnswer) (i : nat) (batch : list Case)
  : list Case * list Action :=
  match batch with
  | [] => ([], [])
  | c :: rest =>
      let (c', a) := enrich (presign i) c in
      let (cs, acts) := enrichBatch presign (S i) rest in
      (c' :: cs, a ++ acts)
  end.

(** The [for] loop; [batches] collects the slices it takes.  [None]: the
    loop has not ended within [fuel] rounds. *)
Fixpoint batchLoop (fuel : nat) (presign : nat -> PresignAnswer) (data : list Case) (i : nat)
    (enriched : list Case) (acts : list Action) (batches : list (list Case))
  : option (list Case * list Action * list (list Case)) :=
  match fuel with
  | O => None
  | S fuel =>
      if (i <? List.length data)%nat then
        let batch := firstn batchSize (skipn i data) in
        let (results, a) := enrichBatch presign i batch in
        batchLoop fuel presign data (i + batchSize) (enriched ++ results) (acts ++ a)
                  (batches ++ [batch])
      else Some (enriched, acts, batches)
  end.

Definition setCaseType (v : CaseType) (s : State) : State :=
  {| caseType := v; filterStatus := filterStatus s;
     filterSeverity := filterSeverity s; searchQuery := searchQuery s;
     loading := loading s; cases := cases s; ngoEmail := ngoEmail s;
     editingNgoEmail := editingNgoEmail s; ngoCoords := ngoCoords s |}.

Definition set_cases (v : list Case) (l : bool) (s : State) : State :=
  {| caseType := caseType s; filterStatus := filterStatus s;
     filterSeverity := filterSeverity s; searchQuery := searchQuery s;
     loading := l; cases := v; ngoEmail := ngoEmail s;
     editingNgoEmail := editingNgoEmail s; ngoCoords := ngoCoords s |}.

(** [fetchNearbyCases]: the state when it is done, what it did, and the
    batches it took. *)
Definition fetchNearbyCases (s : State) (currentNgoEmail : string)
    (answer : CasesAnswer) (presign : nat -> PresignAnswer)
  : option (State * list Action * list (list Case)) :=
  let acts := [Fetch (BACKEND_API ++ "/cases-nearby?email="
                      ++ encodeURIComponent currentNgoEmail)%string] in
  match answer with
  | CasesThrows =>
      Some (set_cases [] false s,
            acts ++ [ToastError "Network error while loading nearby cases"], [])
  | CasesNotOk status body =>
      Some (set_cases [] false s,
            acts ++ [ToastError ("Failed to load nearby cases: " ++ status ++ " " ++ body)%string],
            [])
  | CasesNotArray =>
      Some (set_cases [] false s,
            acts ++ [ToastError "Unexpected response shape from backend"], [])
  | CasesArray data =>
      match batchLoop (S (List.length data)) presign data 0 [] acts [] with
      | Some (enriched, acts, batches) => Some (set_cases enriched false s, acts, batches)
      | None => None
      end
  end.

End WithHost.

(** ** Example data

    Stand-ins for the runtime that are exact on the texts of the examples:
    lower case for ASCII letters, the first 60 bytes, a fixed text for a
    number, no escaping, a fixed draw. *)
Definition lowerAscii (a : Ascii.ascii) : Ascii.ascii :=
  let n := N_of_ascii a in
  if ((65 <=? n) && (n <=? 90))%N then ascii_of_N (n + 32) else a.

Fixpoint lowerCaseDouble (s : string) : string :=
  match s with
  | EmptyString => EmptyString
  | String a rest => String (lowerAscii a) (lowerCaseDouble rest)
  end.

Definition take60 (s : string) : string := substring 0 60 s.
Definition numberDouble (x : float) : string := "12.9375".
Definition encodeDouble (s : string) : string := s.
Definition drawDouble (k : nat) : string := "k3x9q1z".

Definition dogCase : Case :=
  {| case_id := Some "c-17"; id := None;
     description := Some "Injured dog near the gate"; location := None;
     severity := Some "High"; status := Some "In Progress";
     image_presigned_url := None; s3_key := None; imageUrl := None;
     created_at := None; reportedAt := None; contact_phone := None; contactInfo := None;
     latitude := Some 12.9375%float; longitude := Some 77.625%float |}.

Definition catCase : Case :=
  {| case_id := Some "c-18"; id := None;
     description := None; location := Some "MG Road"; severity := None;
     status := Some "completed";
     image_presigned_url := None; s3_key := None; imageUrl := None;
     created_at := None; reportedAt := None; contact_phone := None; contactInfo := None;
     latitude := None; longitude := None |}.

(** The ongoing tab with two cases, one of them closed. *)
Definition ongoingTab : State :=
  {| caseType := ongoing; filterStatus := "all"; filterSeverity := "all";
     searchQuery := EmptyString; loading := false; cases := [dogCase; catCase];
     ngoEmail := Some "ngo@example.org"; editingNgoEmail := "ngo@example.org";
     ngoCoords := Some {| lat := 12.96875%float; lng := 77.59375%float |} |}.

(** The all tab with the same cases and a search for "d". *)
Definition searchTab : State :=
  {| caseType := all; filterStatus := "all"; filterSeverity := "all";
     searchQuery := "d"; loading := false; cases := [dogCase; catCase];
     ngoEmail := Some "ngo@example.org"; editingNgoEmail := "ngo@example.org";
     ngoCoords := Some {| lat := 12.96875%float; lng := 77.59375%float |} |}.

(** What another render draws. *)
Definition drawAgain (k : nat) : string := "p0w2m8a".

(** The card of [dogCase]. *)
Definition dogRescue : Rescue :=
  toRescue take60 numberDouble encodeDouble drawDouble "nivaran-animal-image" "ap-south-1"
           0 dogCase.

End Dashboard.


(** * The tracking page *)

Module TrackingPage.

(** ** Data *)

(** [{ lat: number; lng: number }] *)
Record LatLng := { lat : float; lng : float }.

(** [routeInfo]: [{ distanceText?: string; durationText?: string }] *)
Record RouteInfo := { distanceText : option string; durationText : option string }.

(** A leg of a directions result.  [distance] is [leg.distance?.text]:
    [None] when the leg has no [distance] object; likewise [duration]. *)
Record Leg := { distance : option string; duration : option string }.
Record DirectionsRoute := { legs : list Leg }.
Record DirectionsResult := { routes : list DirectionsRoute }.

(** [google.maps.TravelMode] *)
Inductive TravelMode := DRIVING | WALKING | BICYCLING | TRANSIT.

(** The request object handed to [DirectionsService.route].  The field
    [drivingOptions.departureTime] ([new Date()], the wall clock at the
    call) is not part of the model. *)
Record DirectionsRequest := {
  req_origin : LatLng;
  req_destination : LatLng;
  travelMode : TravelMode;
  trafficModel : string;
  provideRouteAlternatives : bool
}.

(** A [TypeError] raised by dereferencing a ref or value that is [null]. *)
Inductive Fault := NullDestination | NullMap | NullRenderer.

(** What the component does to the outside world, in the order it does it. *)
Inductive Action :=
| WatchPosition (id : nat)          (* navigator.geolocation.watchPosition, returning id *)
| ClearWatch (id : nat)             (* navigator.geolocation.clearWatch(id) *)
| GetCurrentPosition (timeout : Z)  (* navigator.geolocation.getCurrentPosition *)
| Route (id : nat) (r : DirectionsRequest)   (* directionsService.route(r, callback) *)
| SetDirections (r : DirectionsResult)       (* directionsRenderer.setDirections *)
| NewMap
| FitBounds (pts : list LatLng)
| NewMarker (title : string) (p : LatLng)
| MarkerSetPosition (p : LatLng)
| ToastError (msg : string)
| Throw (f : Fault).

(** ** The host: what the browser provides and the component cannot change *)

Record Host := {
  Math_sin : float -> float;
  Math_cos : float -> float;
  Math_sqrt : float -> float;
  Math_atan2 : float -> float -> float;
  geolocation : bool;     (* "geolocation" in navigator *)
  GOOGLE_KEY : bool       (* process.env.NEXT_PUBLIC_GOOGLE_MAPS_API_KEY is set and not empty *)
}.

(** ** Component state *)

(** [useState] cells.  [originVer] counts the calls of [setOrigin]: every
    call stores a fresh object, so React sees a changed dependency even when
    the coordinates are equal.  [destination] has no setter: the code never
    calls [setDestination]. *)
Record Component := {
  origin : option LatLng;
  originVer : nat;
  destination : option LatLng;
  loading : bool;
  mapReady : bool;
  routeInfo : option RouteInfo;
  error : option string;
  liveTracking : bool
}.

(** [useRef] cells.  A ref that holds a Google Maps object is modelled by
    whether it is set. *)
Record Refs := {
  googleMapRef : bool;
  directionsRendererRef : bool;
  directionsServiceRef : bool;
  currentMarkerRef : option LatLng;
  watchIdRef : option nat;
  lastPositionRef : option LatLng;
  lastRouteTimestampRef : Z
}.

Inductive Phase := NotMounted | Mounted | Unmounted.

(** What React remembers between renders: the dependencies each effect last
    ran with, and which cleanups are registered. *)
Record Fiber := {
  phase : Phase;
  dep_mapReady : bool;
  dep_originVer : nat;
  dep_live : bool;
  liveCleanup : bool;       (* the [liveTracking] effect returned its cleanup *)
  loaderInterval : bool     (* the loader effect's setInterval is running *)
}.

(** The browser side: loaded scripts, geolocation watches, requests in
    flight, what the directions renderer shows, and the log. *)
Record World := {
  googleMaps : bool;        (* window.google && window.google.maps *)
  scriptTag : bool;         (* document.getElementById("google-maps-script") *)
  scriptOnload : bool;      (* this component registered script.onload / onerror *)
  activeWatches : list nat;
  nextWatchId : nat;
  pendingRoutes : list nat;
  nextRouteId : nat;
  pendingOneShots : nat;
  rendered : option DirectionsResult;
  log : list Action
}.

Record State := {
  comp :> Component;
  refs :> Refs;
  fiber :> Fiber;
  world :> World
}.

(** *** Field updates *)

Definition upd_comp (f : Component -> Component) (s : State) : State :=
  {| comp := f (comp s); refs := refs s; fiber := fiber s; world := world s |}.
Definition upd_refs (f : Refs -> Refs) (s : State) : State :=
  {| comp := comp s; refs := f (refs s); fiber := fiber s; world := world s |}.
Definition upd_fiber (f : Fiber -> Fiber) (s : State) : State :=
  {| comp := comp s; refs := refs s; fiber := f (fiber s); world := world s |}.
Definition upd_world (f : World -> World) (s : State) : State :=
  {| comp := comp s; refs := refs s; fiber := fiber s; world := f (world s) |}.

Definition setOrigin (v : LatLng) : State -> State :=
  upd_comp (fun c => {| origin := Some v; originVer := S (originVer c); destination := destination c; loading := loading c; mapReady := mapReady c; routeInfo := routeInfo c; error := error c; liveTracking := liveTracking c |}).
Definition setLoading (v : bool) : State -> State :=
  upd_comp (fun c => {| origin := origin c; originVer := originVer c; destination := destination c; loading := v; mapReady := mapReady c; routeInfo := routeInfo c; error := error c; liveTracking := liveTracking c |}).
Definition setMapReady (v : bool) : State -> State :=
  upd_comp (fun c => {| origin := origin c; originVer := originVer c; destination := destination c; loading := loading c; mapReady := v; routeInfo := routeInfo c; error := error c; liveTracking := liveTracking c |}).
Definition setRouteInfo (v : option RouteInfo) : State -> State :=
  upd_comp (fun c => {| origin := origin c; originVer := originVer c; destination := destination c; loading := loading c; mapReady := mapReady c; routeInfo := v; error := error c; liveTracking := liveTracking c |}).
Definition setError (v : string) : State -> State :=
  upd_comp (fun c => {| origin := origin c; originVer := originVer c; destination := destination c; loading := loading c; mapReady := mapReady c; routeInfo := routeInfo c; error := Some v; liveTracking := liveTracking c |}).
Definition setLiveTracking (v : bool) : State -> State :=
  upd_comp (fun c => {| origin := origin c; originVer := originVer c; destination := destination c; loading := loading c; mapReady := mapReady c; routeInfo := routeInfo c; error := error c; liveTracking := v |}).

Definition set_googleMapRef (v : bool) : State -> State :=
  upd_refs (fun r => {| googleMapRef := v; directionsRendererRef := directionsRendererRef r; directionsServiceRef := directionsServiceRef r; currentMarkerRef := currentMarkerRef r; watchIdRef := watchIdRef r; lastPositionRef := lastPositionRef r; lastRouteTimestampRef := lastRouteTimestampRef r |}).
Definition set_directionsRendererRef (v : bool) : State -> State :=
  upd_refs (fun r => {| googleMapRef := googleMapRef r; directionsRendererRef := v; directionsServiceRef := directionsServiceRef r; currentMarkerRef := currentMarkerRef r; watchIdRef := watchIdRef r; lastPositionRef := lastPositionRef r; lastRouteTimestampRef := lastRouteTimestampRef r |}).
Definition set_directionsServiceRef (v : bool) : State -> State :=
  upd_refs (fun r => {| googleMapRef := googleMapRef r; directionsRendererRef := directionsRendererRef r; directionsServiceRef := v; currentMarkerRef := currentMarkerRef r; watchIdRef := watchIdRef r; lastPositionRef := lastPositionRef r; lastRouteTimestampRef := lastRouteTimestampRef r |}).
Definition set_currentMarkerRef (v : option LatLng) : State -> State :=
  upd_refs (fun r => {| googleMapRef := googleMapRef r; directionsRendererRef := directionsRendererRef r; directionsServiceRef := directionsServiceRef r; currentMarkerRef := v; watchIdRef := watchIdRef r; lastPositionRef := lastPositionRef r; lastRouteTimestampRef := lastRouteTimestampRef r |}).
Definition set_watchIdRef (v : option nat) : State -> State :=
  upd_refs (fun r => {| googleMapRef := googleMapRef r; directionsRendererRef := directionsRendererRef r; directionsServiceRef := directionsServiceRef r; currentMarkerRef := currentMarkerRef r; watchIdRef := v; lastPositionRef := lastPositionRef r; lastRouteTimestampRef := lastRouteTimestampRef r |}).
Definition set_lastPositionRef (v : option LatLng) : State -> State :=
  upd_refs (fun r => {| googleMapRef := googleMapRef r; directionsRendererRef := directionsRendererRef r; directionsServiceRef := directionsServiceRef r; currentMarkerRef := currentMarkerRef r; watchIdRef := watchIdRef r; lastPositionRef := v; lastRouteTimestampRef := lastRouteTimestampRef r |}).
Definition set_lastRouteTimestampRef (v : Z) : State -> State :=
  upd_refs (fun r => {| googleMapRef := googleMapRef r; directionsRendererRef := directionsRendererRef r; directionsServiceRef := directionsServiceRef r; currentMarkerRef := currentMarkerRef r; watchIdRef := watchIdRef r; lastPositionRef := lastPositionRef r; lastRouteTimestampRef := v |}).

Definition set_phase (v : Phase) : State -> State :=
  upd_fiber (fun f => {| phase := v; dep_mapReady := dep_mapReady f; dep_originVer := dep_originVer f; dep_live := dep_live f; liveCleanup := liveCleanup f; loaderInterval := loaderInterval f |}).
Definition set_deps (m : bool) (o : nat) (l : bool) : State -> State :=
  upd_fiber (fun f => {| phase := phase f; dep_mapReady := m; dep_originVer := o; dep_live := l; liveCleanup := liveCleanup f; loaderInterval := loaderInterval f |}).
Definition set_liveCleanup (v : bool) : State -> State :=
  upd_fiber (fun f => {| phase := phase f; dep_mapReady := dep_mapReady f; dep_originVer := dep_originVer f; dep_live := dep_live f; liveCleanup := v; loaderInterval := loaderInterval f |}).
Definition set_loaderInterval (v : bool) : State -> State :=
  upd_fiber (fun f => {| phase := phase f; dep_mapReady := dep_mapReady f; dep_originVer := dep_originVer f; dep_live := dep_live f; liveCleanup := liveCleanup f; loaderInterval := v |}).

Definition set_googleMaps (v : bool) : State -> State :=
  upd_world (fun w => {| googleMaps := v; scriptTag := scriptTag w; scriptOnload := scriptOnload w; activeWatches := activeWatches w; nextWatchId := nextWatchId w; pendingRoutes := pendingRoutes w; nextRouteId := nextRouteId w; pendingOneShots := pendingOneShots w; rendered := rendered w; log := log w |}).
Definition set_script (tag onload : bool) : State -> State :=
  upd_world (fun w => {| googleMaps := googleMaps w; scriptTag := tag; scriptOnload := onload; activeWatches := activeWatches w; nextWatchId := nextWatchId w; pendingRoutes := pendingRoutes w; nextRouteId := nextRouteId w; pendingOneShots := pendingOneShots w; rendered := rendered w; log := log w |}).
Definition set_watches (active : list nat) (next : nat) : State -> State :=
  upd_world (fun w => {| googleMaps := googleMaps w; scriptTag := scriptTag w; scriptOnload := scriptOnload w; activeWatches := active; nextWatchId := next; pendingRoutes := pendingRoutes w; nextRouteId := nextRouteId w; pendingOneShots := pendingOneShots w; rendered := rendered w; log := log w |}).
Definition set_routes (pending : list nat) (next : nat) : State -> State :=
  upd_world (fun w => {| googleMaps := googleMaps w; scriptTag := scriptTag w; scriptOnload := scriptOnload w; activeWatches := activeWatches w; nextWatchId := nextWatchId w; pendingRoutes := pending; nextRouteId := next; pendingOneShots := pendingOneShots w; rendered := rendered w; log := log w |}).
Definition set_pendingOneShots (v : nat) : State -> State :=
  upd_world (fun w => {| googleMaps := googleMaps w; scriptTag := scriptTag w; scriptOnload := scriptOnload w; activeWatches := activeWatches w; nextWatchId := nextWatchId w; pendingRoutes := pendingRoutes w; nextRouteId := nextRouteId w; pendingOneShots := v; rendered := rendered w; log := log w |}).
Definition set_rendered (v : option DirectionsResult) : State -> State :=
  upd_world (fun w => {| googleMaps := googleMaps w; scriptTag := scriptTag w; scriptOnload := scriptOnload w; activeWatches := activeWatches w; nextWatchId := nextWatchId w; pendingRoutes := pendingRoutes w; nextRouteId := nextRouteId w; pendingOneShots := pendingOneShots w; rendered := v; log := log w |}).
Definition emit (a : Action) : State -> State :=
  upd_world (fun w => {| googleMaps := googleMaps w; scriptTag := scriptTag w; scriptOnload := scriptOnload w; activeWatches := activeWatches w; nextWatchId := nextWatchId w; pendingRoutes := pendingRoutes w; nextRouteId := nextRouteId w; pendingOneShots := pendingOneShots w; rendered := rendered w; log := log w ++ [a] |}).


(** ** The component's code *)

Section WithHost.

Variable host : Host.

(** *** [haversineMeters] *)

(** [Math.PI], the double nearest to pi. *)
Definition Math_PI : float := 0x1.921fb54442d18p+1%float.

Definition toRad (v : float) : float := ((v * Math_PI) / 180)%float.

Definition haversineMeters (a b : LatLng) : float :=
  let R := 6371000%float in
  let dLat := toRad (lat b - lat a)%float in
  let dLon := toRad (lng b - lng a)%float in
  let lat1 := toRad (lat a) in
  let lat2 := toRad (lat b) in
  let sinDlat := Math_sin host (dLat / 2)%float in
  let sinDlon := Math_sin host (dLon / 2)%float in
  let aHarv :=
    (sinDlat * sinDlat + Math_cos host lat1 * Math_cos host lat2 * sinDlon * sinDlon)%float in
  let c := (2 * Math_atan2 host (Math_sqrt host aHarv) (Math_sqrt host (1 - aHarv)))%float in
  (R * c)%float.

(** *** [computeRouteFrom] and the directions callback *)

Definition drivingRequest (usedOrigin dest : LatLng) : DirectionsRequest :=
  {| req_origin := usedOrigin;
     req_destination := dest;
     travelMode := DRIVING;
     trafficModel := "bestguess";
     provideRouteAlternatives := false |}.

(** [directionsServiceRef.current.route(request, callback)]: the request is
    numbered and stays in flight until its callback runs. *)
Definition route (r : DirectionsRequest) (s : State) : State :=
  let id := nextRouteId s in
  emit (Route id r) (set_routes (pendingRoutes s ++ [id]) (S id) s).

(** [destination!.lat] raises a [TypeError] when [destination] is [null];
    the request object is built, and so the dereference made, after
    [setLoading(true)]. *)
Definition computeRouteFrom (s : State) (usedOrigin : LatLng) : State :=
  if negb (googleMaps s) then setError "Google Maps is not available." s
  else
    let s := if directionsServiceRef s then s else set_directionsServiceRef true s in
    let s := if directionsRendererRef s then s else set_directionsRendererRef true s in
    let s := setLoading true s in
    match destination s with
    | None => emit (Throw NullDestination) s
    | Some d => route (drivingRequest usedOrigin d) s
    end.

(** [result.routes[0].legs[0]] inside the [try]: indexing an empty array
    gives [undefined], whose property access throws, and the [catch] stores
    [null]. *)
Definition firstLeg (result : DirectionsResult) : option RouteInfo :=
  match routes result with
  | r :: _ =>
      match legs r with
      | leg :: _ => Some {| distanceText := distance leg; durationText := duration leg |}
      | [] => None
      end
  | [] => None
  end.

(** The callback passed to [route]. *)
Definition routeCallback (s : State) (result : DirectionsResult) (status : string) : State :=
  let s := setLoading false s in
  if String.eqb status "OK" then
    if directionsRendererRef s then
      let s := emit (SetDirections result) (set_rendered (Some result) s) in
      setRouteInfo (firstLeg result) s
    else emit (Throw NullRenderer) s
  else setError ("Could not compute route: " ++ status)%string s.

(** *** Effect 1: loading the Google Maps script (deps: [destination]) *)

Definition loaderEffect (s : State) : State :=
  match destination s with
  | None =>
      setError "Destination coordinates are missing. Open this page with ?lat=<lat>&lng=<lng>." s
  | Some _ =>
      if googleMaps s then setMapReady true s
      else if negb (GOOGLE_KEY host) then
        setError "Google Maps API key is not configured (NEXT_PUBLIC_GOOGLE_MAPS_API_KEY)." s
      else if scriptTag s then set_loaderInterval true s
      else set_script true true s
  end.

(** *** Effect 2: [initialize] (deps: [mapReady], [destination], [origin]) *)

(** [mapRef.current]: the map's [div] exists while the component is mounted. *)
Definition mapRef (s : State) : bool :=
  match phase s with Unmounted => false | _ => true end.

(** The part of [initialize] after the one-shot position read.  [org] and
    [dest] are the [origin] and [destination] of the render whose effect
    this is: a [setOrigin] made meanwhile is not seen here. *)
Definition initializeMap (s : State) (org : option LatLng) (dest : LatLng) : State :=
  if negb (googleMaps s) then setError "Google Maps is not available." s
  else
    let bounds := match org with Some o => [o; dest] | None => [dest] end in
    let s := if negb (googleMapRef s) && mapRef s
             then emit NewMap (set_googleMapRef true s) else s in
    if negb (googleMapRef s) then emit (Throw NullMap) s
    else
      let s := emit (FitBounds bounds) s in
      let s := if directionsRendererRef s then s else set_directionsRendererRef true s in
      let s := if directionsServiceRef s then s else set_directionsServiceRef true s in
      match org with
      | Some o =>
          let s := match currentMarkerRef s with
                   | None => emit (NewMarker "You (approx.)" o) (set_currentMarkerRef (Some o) s)
                   | Some _ => s
                   end in
          computeRouteFrom s o
      | None => emit (NewMarker "Destination" dest) s
      end.

(** The effect body up to its first [await].  [ready] and [org] are the
    [mapReady] and [origin] of the render. *)
Definition initializeEffect (s : State) (ready : bool) (org : option LatLng) : State :=
  match ready, destination s with
  | true, Some dest =>
      match org with
      | None =>
          if geolocation host then
            let s := setLoading true s in
            emit (GetCurrentPosition 8000) (set_pendingOneShots (S (pendingOneShots s)) s)
          else initializeMap s None dest
      | Some o => initializeMap s (Some o) dest
      end
  | _, _ => s
  end.

(** The rest of [initialize] once [getCurrentPosition] has answered:
    [Some coords] through [resolve], [None] through [reject] (failure or the
    8 s timeout).  The closure's [origin] is [null]. *)
Definition oneShotResolved (s : State) (r : option LatLng) (dest : LatLng) : State :=
  let s := match r with
           | Some coords =>
               let s := setOrigin coords s in
               let s := set_lastPositionRef (Some coords) s in
               setLoading false s
           | None => setLoading false s
           end in
  initializeMap s None dest.

(** *** Effect 3: live tracking (deps: [liveTracking]) *)

Definition clearWatch (id : nat) (s : State) : State :=
  emit (ClearWatch id)
       (set_watches (remove Nat.eq_dec id (activeWatches s)) (nextWatchId s) s).

Definition watchPosition (s : State) : nat * State :=
  let id := nextWatchId s in
  (id, emit (WatchPosition id) (set_watches (activeWatches s ++ [id]) (S id) s)).

(** The cleanup the effect returns when it has started a watch. *)
Definition liveCleanupFn (s : State) : State :=
  match watchIdRef s with
  | Some id => set_watchIdRef None (clearWatch id s)
  | None => s
  end.

(** The effect body; [live] is the [liveTracking] of the render.  The
    result records whether a cleanup was returned. *)
Definition liveEffect (s : State) (live : bool) : State :=
  if negb live then
    let s := match watchIdRef s with
             | Some id =>
                 if geolocation host then set_watchIdRef None (clearWatch id s) else s
             | None => s
             end in
    set_liveCleanup false s
  else if negb (geolocation host) then
    let s := emit (ToastError "Geolocation not available in this browser.") s in
    set_liveCleanup false (setLiveTracking false s)
  else
    let (id, s) := watchPosition s in
    set_liveCleanup true (set_watchIdRef (Some id) s).

(** [x || 0] on a number that is never [NaN]. *)
Definition or0 (x : Z) : Z := if x =? 0 then 0 else x.

(** [moved]: the distance from the previous position, [Infinity] without one. *)
Definition moved (prev : option LatLng) (newPos : LatLng) : float :=
  match prev with
  | Some p => haversineMeters p newPos
  | None => infinity
  end.

(** [moved > 20 || sinceLastRoute > 10000], on the refs as the handler
    finds them. *)
Definition shouldRecompute (s : State) (newPos : LatLng) (now : Z) : bool :=
  (20 <? moved (lastPositionRef s) newPos)%float
  || (10000 <? now - or0 (lastRouteTimestampRef s)).

(** The [success] callback of [watchPosition]; [now] is [Date.now()]. *)
Definition success (s : State) (newPos : LatLng) (now : Z) : State :=
  let prev := lastPositionRef s in
  let s := set_lastPositionRef (Some newPos) s in
  let s := setOrigin newPos s in
  let s := if googleMaps s then
             match currentMarkerRef s with
             | None => emit (NewMarker "You (live)" newPos) (set_currentMarkerRef (Some newPos) s)
             | Some _ => emit (MarkerSetPosition newPos) (set_currentMarkerRef (Some newPos) s)
             end
           else s in
  let moved := moved prev newPos in
  let sinceLastRoute := now - or0 (lastRouteTimestampRef s) in
  if (20 <? moved)%float || (10000 <? sinceLastRoute) then
    let s := set_lastRouteTimestampRef now s in
    if directionsServiceRef s && googleMapRef s then computeRouteFrom s newPos else s
  else s.

(** The [fail] callback of [watchPosition]. *)
Definition fail (s : State) : State :=
  let s := emit (ToastError "Unable to get live position (permission denied or unavailable).") s in
  setLiveTracking false s.

(** ** React: commits and unmounting *)

(** A commit runs, for the render of the current state, the cleanups of the
    effects whose dependencies changed and then their bodies, in the order
    the component declares them.  Effect bodies see the state variables of
    that render, and refs as they are. *)
Definition commit (s : State) : State :=
  let ready := mapReady s in
  let org := origin s in
  let ver := originVer s in
  let live := liveTracking s in
  match phase s with
  | NotMounted =>
      let s := loaderEffect s in
      let s := initializeEffect s ready org in
      let s := liveEffect s live in
      set_deps ready ver live (set_phase Mounted s)
  | Mounted =>
      let changed2 := negb (Bool.eqb ready (dep_mapReady s))
                      || negb (Nat.eqb ver (dep_originVer s)) in
      let changed3 := negb (Bool.eqb live (dep_live s)) in
      let s := if changed3 && liveCleanup s
               then set_liveCleanup false (liveCleanupFn s) else s in
      let s := if changed2 then initializeEffect s ready org else s in
      let s := if changed3 then liveEffect s live else s in
      set_deps ready ver live s
  | Unmounted => s
  end.

Definition unmount (s : State) : State :=
  match phase s with
  | Mounted =>
      let s := set_loaderInterval false s in
      let s := if liveCleanup s then set_liveCleanup false (liveCleanupFn s) else s in
      set_phase Unmounted s
  | _ => s
  end.

(** ** Events *)

Inductive Event :=
| Commit                    (* React renders and commits *)
| Unmount                   (* the user leaves the page *)
| ToggleLive                (* click on "Start/Stop live tracking" *)
| ScriptLoad                (* the Google Maps script tag fires load *)
| ScriptError               (* ... or error *)
| IntervalTick              (* the loader's 200 ms interval *)
| OneShotResult (r : option LatLng)
| WatchSuccess (id : nat) (pos : LatLng) (now : Z)
| WatchFail (id : nat)
| RouteResult (id : nat) (result : DirectionsResult) (status : string).

Definition mem (id : nat) (l : list nat) : bool := existsb (Nat.eqb id) l.

Definition step (s : State) (e : Event) : State :=
  match e with
  | Commit => commit s
  | Unmount => unmount s
  | ToggleLive =>
      match phase s with
      | Mounted => setLiveTracking (negb (liveTracking s)) s
      | _ => s
      end
  | ScriptLoad =>
      if scriptTag s then
        let s := set_googleMaps true s in
        if scriptOnload s then setMapReady true s else s
      else s
  | ScriptError =>
      if scriptTag s && scriptOnload s
      then setError "Failed to load Google Maps script." s else s
  | IntervalTick =>
      if loaderInterval s && googleMaps s
      then setMapReady true (set_loaderInterval false s) else s
  | OneShotResult r =>
      match pendingOneShots s, destination s with
      | S n, Some dest => oneShotResolved (set_pendingOneShots n s) r dest
      | _, _ => s
      end
  | WatchSuccess id pos now =>
      if mem id (activeWatches s) then success s pos now else s
  | WatchFail id =>
      if mem id (activeWatches s) then fail s else s
  | RouteResult id result status =>
      if mem id (pendingRoutes s) then
        routeCallback
          (set_routes (remove Nat.eq_dec id (pendingRoutes s)) (nextRouteId s) s)
          result status
      else s
  end.

Definition run (s : State) (evs : list Event) : State := fold_left step evs s.

(** The page as it is first rendered.  [origin0] and [destination0] are
    what the query parameters give; [googleMaps0] and [scriptTag0] say
    whether an earlier page already loaded, or started loading, the Google
    Maps script. *)
Definition init (origin0 destination0 : option LatLng) (googleMaps0 scriptTag0 : bool) : State :=
  {| comp := {| origin := origin0; originVer := 0; destination := destination0;
                loading := false; mapReady := false; routeInfo := None;
                error := None; liveTracking := false |};
     refs := {| googleMapRef := false; directionsRendererRef := false;
                directionsServiceRef := false; currentMarkerRef := None;
                watchIdRef := None; lastPositionRef := None;
                lastRouteTimestampRef := 0 |};
     fiber := {| phase := NotMounted; dep_mapReady := false; dep_originVer := 0;
                 dep_live := false; liveCleanup := false; loaderInterval := false |};
     world := {| googleMaps := googleMaps0; scriptTag := scriptTag0; scriptOnload := false;
                 activeWatches := []; nextWatchId := 0; pendingRoutes := [];
                 nextRouteId := 0; pendingOneShots := 0; rendered := None; log := [] |} |}.

End WithHost.

(** ** Positions and the host's [Math]

    A position on the globe: a latitude between -90 and 90 and a longitude
    between -180 and 180. *)
Definition coordinate (p : LatLng) : bool :=
  ((-90 <=? lat p) && (lat p <=? 90) && (-180 <=? lng p) && (lng p <=? 180))%float.

(** A double that is not negative: [NaN], a zero, or above zero. *)
Definition notNegative (x : float) : bool := is_nan x || (0 <=? x)%float.

(** What the four [Math] functions of a JavaScript engine satisfy.
    ECMA-262 fixes their values at zeros and [NaN] and leaves the rest
    implementation-approximated; the fields below hold of the standard's
    exact cases and of every approximation that keeps the range of the
    function: [sin(+0)] is [+0]; the cosine of a finite number lies between
    -1 and 1; [sqrt] gives a zero back, is 1 at 1, and elsewhere gives
    [NaN] or a number without sign bit; [atan2(y, 1)] gives a zero [y]
    back, and [atan2(y, x)] is [NaN] or not negative when [y] has no sign
    bit. *)
Record EcmaMath (host : Host) : Prop := {
  sin_zero : Math_sin host 0 = 0%float;
  cos_range :
    forall x, is_finite x = true ->
      ((-1 <=? Math_cos host x) && (Math_cos host x <=? 1))%float = true;
  sqrt_of_zero : forall x, is_zero x = true -> Math_sqrt host x = x;
  sqrt_of_one : Math_sqrt host 1 = 1%float;
  sqrt_signless : forall x, is_zero x = false -> get_sign (Math_sqrt host x) = false;
  atan2_of_zero : forall y, is_zero y = true -> Math_atan2 host y 1 = y;
  atan2_signless :
    forall y x, get_sign y = false -> notNegative (Math_atan2 host y x) = true
}.


(** ** Reading the log *)

(** The directions requests issued, oldest first. *)
Definition routeRequests (l : list Action) : list DirectionsRequest :=
  flat_map (fun a => match a with Route _ r => [r] | _ => [] end) l.

(** The ids [watchPosition] returned, and the ids passed to [clearWatch]. *)
Definition watched (l : list Action) : list nat :=
  flat_map (fun a => match a with WatchPosition id => [id] | _ => [] end) l.
Definition cleared (l : list Action) : list nat :=
  flat_map (fun a => match a with ClearWatch id => [id] | _ => [] end) l.

(** An action the route invariant allows when the session's destination is
    [dest]: no dereference of a null destination, and every request is a
    driving request to [dest] without alternatives. *)
Definition okAction (dest : option LatLng) (a : Action) : Prop :=
  match a with
  | Throw NullDestination => False
  | Route _ r =>
      dest = Some (req_destination r) /\
      travelMode r = DRIVING /\ provideRouteAlternatives r = false
  | _ => True
  end.

(** ** Invariants and frames

    *** The route invariant

    What every reachable state satisfies about the map, the directions
    objects and the requests. *)

Record RouteInv (s : State) : Prop := {
  inv_ready : mapReady s = true -> googleMaps s = true;
  inv_service :
    directionsServiceRef s = true -> googleMaps s = true /\ destination s <> None;
  inv_oneshot : pendingOneShots s <> O -> mapReady s = true /\ destination s <> None;
  inv_renderer : pendingRoutes s <> [] -> directionsRendererRef s = true;
  inv_ver : (dep_originVer s <= originVer s)%nat;
  inv_log : Forall (okAction (destination s)) (log s)
}.

(** *** Frames

    The code that talks to Google Maps leaves the geolocation watch alone,
    and the code that manages the watch leaves the map and the requests
    alone. *)

Record keeps_watch (s s' : State) : Prop := {
  kw_watchIdRef : watchIdRef s' = watchIdRef s;
  kw_active : activeWatches s' = activeWatches s;
  kw_next : nextWatchId s' = nextWatchId s;
  kw_cleanup : liveCleanup s' = liveCleanup s;
  kw_dep : dep_live s' = dep_live s;
  kw_phase : phase s' = phase s;
  kw_live : liveTracking s' = liveTracking s;
  kw_watched : watched (log s') = watched (log s);
  kw_cleared : cleared (log s') = cleared (log s);
  kw_time : lastRouteTimestampRef s' = lastRouteTimestampRef s;
  kw_destination : destination s' = destination s
}.

Record keeps_route (s s' : State) : Prop := {
  kr_origin : origin s' = origin s;
  kr_originVer : originVer s' = originVer s;
  kr_depVer : dep_originVer s' = dep_originVer s;
  kr_destination : destination s' = destination s;
  kr_mapReady : mapReady s' = mapReady s;
  kr_routeInfo : routeInfo s' = routeInfo s;
  kr_map : googleMapRef s' = googleMapRef s;
  kr_renderer : directionsRendererRef s' = directionsRendererRef s;
  kr_service : directionsServiceRef s' = directionsServiceRef s;
  kr_marker : currentMarkerRef s' = currentMarkerRef s;
  kr_lastPosition : lastPositionRef s' = lastPositionRef s;
  kr_time : lastRouteTimestampRef s' = lastRouteTimestampRef s;
  kr_phase : phase s' = phase s;
  kr_googleMaps : googleMaps s' = googleMaps s;
  kr_pending : pendingRoutes s' = pendingRoutes s;
  kr_nextRoute : nextRouteId s' = nextRouteId s;
  kr_oneShots : pendingOneShots s' = pendingOneShots s;
  kr_rendered : rendered s' = rendered s;
  kr_requests : routeRequests (log s') = routeRequests (log s)
}.

(** Effect bodies never call [setOrigin] and never clear [mapReady]. *)
Record keeps_deps (s s' : State) : Prop := {
  kd_origin : origin s' = origin s;
  kd_originVer : originVer s' = originVer s;
  kd_depVer : dep_originVer s' = dep_originVer s;
  kd_mapReady : mapReady s = true -> mapReady s' = true
}.

(** *** The watch invariant

    [watchPosition] and [clearWatch] calls pair up: the ids watched are the
    ids cleared, in the same order, followed by the one watch that is
    active, if any; that watch is the one [watchIdRef] holds, and it is
    active exactly while the effect's cleanup is registered. *)
Record WatchCore (s : State) : Prop := {
  w_log : watched (log s) = cleared (log s) ++ activeWatches s;
  w_active :
    activeWatches s = match watchIdRef s with Some id => [id] | None => [] end;
  w_cleanup : liveCleanup s = false -> watchIdRef s = None;
  w_fresh : Forall (fun id => (id < nextWatchId s)%nat) (watched (log s));
  w_nodup : NoDup (watched (log s))
}.

Record WatchInv (s : State) : Prop := {
  w_core : WatchCore s;
  w_dep : dep_live s = false -> liveCleanup s = false;
  w_unmounted : phase s = Unmounted -> liveCleanup s = false;
  w_notmounted : phase s = NotMounted -> dep_live s = false /\ liveTracking s = false
}.

(** The fields the watch invariant reads. *)
Record same_watch (s s' : State) : Prop := {
  sw_watchIdRef : watchIdRef s' = watchIdRef s;
  sw_active : activeWatches s' = activeWatches s;
  sw_next : nextWatchId s' = nextWatchId s;
  sw_cleanup : liveCleanup s' = liveCleanup s;
  sw_dep : dep_live s' = dep_live s;
  sw_phase : phase s' = phase s;
  sw_watched : watched (log s') = watched (log s);
  sw_cleared : cleared (log s') = cleared (log s)
}.

(** ** Example data

    A stand-in for the browser in the examples: small-angle approximations
    for [Math] ([sin x = x], [cos x = 1], [atan2 y x = y / x]) and IEEE
    [sqrt].  The examples only measure the distance between two equal
    points, where both terms under the square root are products with
    [sin(+0) = +0] and the distance is [0]. *)
Definition hostDouble : Host :=
  {| Math_sin := fun x => x;
     Math_cos := fun _ => 1%float;
     Math_sqrt := PrimFloat.sqrt;
     Math_atan2 := fun y x => (y / x)%float;
     geolocation := true;
     GOOGLE_KEY := true |}.

Definition ngo : LatLng := {| lat := 12.96875%float; lng := 77.59375%float |}.
Definition caseSite : LatLng := {| lat := 12.9375%float; lng := 77.625%float |}.

(** Two positions nearly opposite on the globe. *)
Definition north : LatLng := {| lat := 8%float; lng := (-180)%float |}.
Definition south : LatLng := {| lat := (-8)%float; lng := 0%float |}.

(** A second stand-in, for the distance between [north] and [south]: at
    the arguments [haversineMeters] passes for that pair, [Math.sin] and
    [Math.cos] give the doubles nearest to the sine of 8 degrees
    (0.13917310096006544), the sine of 90 degrees (1) and the cosine of 8
    degrees (0.9902680687415704), as fdlibm and glibc both do;
    [Math.sqrt] is the IEEE square root; [Math.atan2] is [NaN] at [NaN].
    Elsewhere the small-angle values keep the table total. *)
Definition mathTable : Host :=
  {| Math_sin := fun x =>
       if (x =? 0x1.1df46a2529d39p-3)%float then 0x1.1d06c968d9e19p-3%float
       else if (x =? -0x1.1df46a2529d39p-3)%float then (-0x1.1d06c968d9e19p-3)%float
       else if (x =? 0x1.921fb54442d18p+0)%float then 1%float
       else x;
     Math_cos := fun x =>
       if (abs x =? 0x1.1df46a2529d39p-3)%float then 0x1.fb046a930947ap-1%float
       else if is_finite x then 1%float else nan;
     Math_sqrt := PrimFloat.sqrt;
     Math_atan2 := fun y x => if is_nan x then nan else y;
     geolocation := true;
     GOOGLE_KEY := true |}.

Definition leg1 : Leg := {| distance := Some "4.5 km"; duration := Some "12 mins" |}.
Definition leg2 : Leg := {| distance := Some "4.4 km"; duration := Some "11 mins" |}.
Definition resultA : DirectionsResult := {| routes := [ {| legs := [leg1] |} ] |}.
Definition resultB : DirectionsResult := {| routes := [ {| legs := [leg2] |} ] |}.

(** The page opened with both coordinate pairs in the query and Google
    Maps already loaded, after the mount commit and the commit that
    follows [setMapReady(true)]: the map exists and request 0 is in flight. *)
Definition pageWithRoute : State :=
  run hostDouble (init (Some ngo) (Some caseSite) true false) [Commit; Commit].

(** [Date.now()] at the first live sample of the examples. *)
Definition t1 : Z := 1700000000000.

(** The page opened while the Google Maps script is still loading; the user
    starts live tracking and a first sample arrives at [t1]. *)
Definition pageWithoutMap : State :=
  run hostDouble (init (Some ngo) (Some caseSite) false false)
      [Commit; ToggleLive; Commit; WatchSuccess 0 ngo t1; Commit].

(** [pageWithRoute] with live tracking started. *)
Definition pageTracking : State :=
  run hostDouble pageWithRoute [ToggleLive; Commit].

(** ... and after two samples 11 s apart, each followed by React's commit. *)
Definition pageTwoSamples : State :=
  run hostDouble pageTracking
      [WatchSuccess 0 ngo t1; Commit; WatchSuccess 0 ngo (t1 + 11000); Commit].

Definition isSample (e : Event) : bool :=
  match e with WatchSuccess _ _ _ => true | _ => false end.

(** ** More readings of the log and of the state *)

(** The timeouts of the [getCurrentPosition] calls made. *)
Definition oneShotReads (l : list Action) : list Z :=
  flat_map (fun a => match a with GetCurrentPosition t => [t] | _ => [] end) l.

(** The calls that build or use the map: everything in the log except the
    geolocation watch, the position marker and the toasts. *)
Definition mapWork (l : list Action) : list Action :=
  filter (fun a => match a with
                   | WatchPosition _ | ClearWatch _ | ToastError _
                   | NewMarker _ _ | MarkerSetPosition _ => false
                   | _ => true
                   end) l.

(** What a piece of code leaves as it is.  No code clears the error or
    forgets the origin; [display] says that the route and summary on
    display stay, [position] that the origin and the last position stay, [reads]
    that no one-shot position read is made. *)
Record leaves (display position reads : bool) (s s' : State) : Prop := {
  lv_error : error s <> None -> error s' <> None;
  lv_known : origin s <> None -> origin s' <> None;
  lv_rendered : display = true -> rendered s' = rendered s;
  lv_routeInfo : display = true -> routeInfo s' = routeInfo s;
  lv_origin : position = true -> origin s' = origin s;
  lv_originVer : position = true -> originVer s' = originVer s;
  lv_lastPosition : position = true -> lastPositionRef s' = lastPositionRef s;
  lv_reads : reads = true -> oneShotReads (log s') = oneShotReads (log s)
}.

Definition isCommit (e : Event) : bool :=
  match e with Commit => true | _ => false end.
Definition isRouteResult (e : Event) : bool :=
  match e with RouteResult _ _ _ => true | _ => false end.
Definition isFix (e : Event) : bool :=
  match e with WatchSuccess _ _ _ | OneShotResult _ => true | _ => false end.

(** What a session satisfies about its one-shot position read. *)
Record OneShotInv (s : State) : Prop := {
  os_notmounted :
    phase s = NotMounted ->
    mapReady s = false /\ dep_mapReady s = false /\
    loaderInterval s = false /\ scriptOnload s = false;
  os_dep : dep_mapReady s = true -> mapReady s = true;
  os_ver : origin s = None -> originVer s = dep_originVer s;
  os_count : (List.length (oneShotReads (log s)) <= 1)%nat;
  os_once : oneShotReads (log s) <> [] -> dep_mapReady s = true /\ phase s <> NotMounted;
  os_timeout : Forall (fun t => t = 8000) (oneShotReads (log s))
}.

(** The origin on display is the latest position fix, and the origin [o] of
    the query while there has been none. *)
Definition fixShown (o : option LatLng) (s : State) : Prop :=
  origin s = match lastPositionRef s with Some p => Some p | None => o end.

(** The summary belongs to the directions result on display. *)
Definition summaryShown (s : State) : Prop :=
  routeInfo s = match rendered s with Some r => firstLeg r | None => None end.

(** What the handlers and the effects after the loader leave alone. *)
Record keeps_loader (s s' : State) : Prop := {
  kl_phase : phase s' = phase s;
  kl_mapReady : mapReady s' = mapReady s;
  kl_dep : dep_mapReady s' = dep_mapReady s;
  kl_depVer : dep_originVer s' = dep_originVer s;
  kl_interval : loaderInterval s' = loaderInterval s;
  kl_onload : scriptOnload s' = scriptOnload s;
  kl_destination : destination s' = destination s
}.

(** Whether a commit makes the one-shot read: effect 2 runs, with the map
    ready, a destination, no origin and geolocation at hand. *)
Definition commitReads (host : Host) (s : State) : bool :=
  match phase s with
  | NotMounted => true
  | Mounted => negb (Bool.eqb (mapReady s) (dep_mapReady s))
               || negb (Nat.eqb (originVer s) (dep_originVer s))
  | Unmounted => false
  end
  && mapReady s
  && match destination s with Some _ => true | None => false end
  && match origin s with Some _ => false | None => true end
  && geolocation host.

(** A session opened without destination coordinates. *)
Definition missingDestination : string :=
  "Destination coordinates are missing. Open this page with ?lat=<lat>&lng=<lng>.".

Record NoDestination (s : State) : Prop := {
  nd_destination : destination s = None;
  nd_mapReady : mapReady s = false;
  nd_map : googleMapRef s = false;
  nd_service : directionsServiceRef s = false;
  nd_renderer : directionsRendererRef s = false;
  nd_oneShots : pendingOneShots s = O;
  nd_pending : pendingRoutes s = [];
  nd_onload : scriptOnload s = false;
  nd_interval : loaderInterval s = false;
  nd_work : mapWork (log s) = [];
  nd_rendered : rendered s = None;
  nd_routeInfo : routeInfo s = None;
  nd_error : error s = match phase s with NotMounted => None | _ => Some missingDestination end
}.

(** [pageWithRoute] after its request failed, and what happens next: live
    tracking, a sample, and a later request that succeeds. *)
Definition failedRoute : State :=
  run hostDouble pageWithRoute [RouteResult 0 resultA "ZERO_RESULTS"].

Definition laterEvents : list Event :=
  [ToggleLive; Commit; WatchSuccess 0 ngo t1; Commit; RouteResult 1 resultA "OK"].

(** [pageTracking] with the route of its first request on display. *)
Definition shownRoute : State :=
  run hostDouble pageTracking [RouteResult 0 resultA "OK"].

(** ** The buttons beside the map *)

(** What [handleCloseCase], [openInGoogleMaps] and [handleBack] do to the
    outside world. *)
Inductive ButtonAction :=
| ButtonToastError (msg : string)
| ButtonToastSuccess (msg : string)
| PatchStatus (url : string) (status : string)
    (* fetch(url, { method: "PATCH", body: JSON.stringify({ status }) }) *)
| PushLater (path : string) (ms : Z)          (* setTimeout(() => router.push(path), ms) *)
| WindowOpen (url : string)                   (* window.open(url, "_blank") *)
| RouterBack.

(** What the awaited [fetch] answers. *)
Inductive PatchOutcome :=
| PatchThrows                 (* the request failed *)
| PatchResponse (ok : bool).  (* response.ok *)

(** [handleCloseCase]: [caseId] is the [case_id] of the query ([""] without
    one), [closing] the [closingCase] flag; the result is the flag when the
    handler is done and what it did. *)
Definition handleCloseCase (caseId : string) (closing : bool) (answer : PatchOutcome)
  : bool * list ButtonAction :=
  match caseId with
  | EmptyString => (closing, [ButtonToastError "No case ID provided"])
  | _ =>
      let closing := true in
      let acts := [PatchStatus ("http://127.0.0.1:3000/ngo-cases/" ++ caseId)%string "completed"] in
      let acts :=
        match answer with
        | PatchResponse true =>
            acts ++ [ButtonToastSuccess "Case marked as completed!"; PushLater "/dashboard" 1000]
        | _ => acts ++ [ButtonToastError "Failed to close case. Please try again."]
        end in
      let closing := false in
      (closing, acts)
  end.

Section Buttons.

(** The host, [`${x}`] on a number, and [encodeURIComponent]. *)
Variable host : Host.
Variable numberToString : float -> string.
Variable encodeURIComponent : string -> string.

Definition latLngString (p : LatLng) : string :=
  (numberToString (lat p) ++ "," ++ numberToString (lng p))%string.

Definition mapsUrl (org dest : LatLng) : string :=
  ("https://www.google.com/maps/dir/?api=1&origin="
   ++ encodeURIComponent (latLngString org)
   ++ "&destination=" ++ encodeURIComponent (latLngString dest)
   ++ "&travelmode=driving")%string.

(** [openInGoogleMaps]; [origin] and [destination] are the state variables
    of the render the handler belongs to. *)
Definition openInGoogleMaps (origin destination : option LatLng) : list ButtonAction :=
  match origin, destination with
  | Some org, Some dest => [WindowOpen (mapsUrl org dest)]
  | _, _ => [ButtonToastError "Missing origin or destination coordinates"]
  end.

(** What is on the screen: the page, and the [origin] and [destination] of
    its latest render, [None] before the mount and after the unmount.  A
    click runs the handler of that render, whatever [setOrigin] was called
    since. *)
Record Rendering := { shownOrigin : option LatLng; shownDestination : option LatLng }.

Record Screen := { page : State; rendering : option Rendering }.

Definition render (s : State) : Rendering :=
  {| shownOrigin := origin s; shownDestination := destination s |}.

(** React renders at a commit; the other events leave the render on the
    screen as it is. *)
Definition stepScreen (sc : Screen) (e : Event) : Screen :=
  {| page := step host (page sc) e;
     rendering :=
       match e with
       | Commit =>
           match phase (page sc) with
           | Unmounted => None
           | _ => Some (render (page sc))
           end
       | Unmount => None
       | _ => rendering sc
       end |}.

Definition runScreen (sc : Screen) (evs : list Event) : Screen := fold_left stepScreen evs sc.

Definition initScreen (origin0 destination0 : option LatLng) (googleMaps0 scriptTag0 : bool)
  : Screen :=
  {| page := init origin0 destination0 googleMaps0 scriptTag0; rendering := None |}.

(** A click on "Open in Google Maps"; there is no button while nothing is
    rendered. *)
Definition clickOpenInGoogleMaps (sc : Screen) : option (list ButtonAction) :=
  match rendering sc with
  | Some r => Some (openInGoogleMaps (shownOrigin r) (shownDestination r))
  | None => None
  end.

End Buttons.

Definition isUnmount (e : Event) : bool :=
  match e with Unmount => true | _ => false end.

(** What the button holds after a render that showed the origin [p] and
    events without a position fix: the page is gone, or the render on the
    screen is one of [p], and so is the origin of the state. *)
Definition holds (p d : LatLng) (sc : Screen) : Prop :=
  phase (page sc) = Unmounted \/
  (phase (page sc) = Mounted /\ origin (page sc) = Some p /\
   destination (page sc) = Some d /\
   rendering sc = Some {| shownOrigin := Some p; shownDestination := Some d |}).

(** ** Proof tools *)

Ltac break_match :=
  match goal with
  | |- context [match ?x with _ => _ end] => destruct x eqn:?
  end.

Ltac bool_norm :=
  repeat rewrite ?negb_true_iff, ?negb_false_iff, ?andb_true_iff, ?andb_false_iff,
    ?orb_true_iff, ?orb_false_iff in *.

Ltac cases := repeat (break_match; cbn in *; try discriminate).

Ltac log_ok :=
  repeat rewrite Forall_app; repeat split; auto; repeat constructor; cbn;
  intuition congruence.

Ltac field_ok := bool_norm; first [ lia | intuition (try congruence); fail | log_ok ].

Ltac inv_ok := split; cbn; field_ok.

Ltac log_simpl :=
  unfold routeRequests, watched, cleared; cbn;
  rewrite ?flat_map_app; cbn; rewrite ?app_nil_r.

Ltac frame_ok := split; cbn; log_simpl; reflexivity.

Ltac deps_ok := split; cbn; auto.

Lemma mem_In id l : mem id l = true <-> In id l.
Proof.
  unfold mem. rewrite existsb_exists. split.
  - intros (x & Hx & E). apply Nat.eqb_eq in E. now subst.
  - intros H. exists id. split; [ assumption | apply Nat.eqb_refl ].
Qed.

Lemma remove_nonempty id (l : list nat) : remove Nat.eq_dec id l <> [] -> l <> [].
Proof. destruct l; cbn; congruence. Qed.


(** ** The route invariant holds in every reachable state *)

Section RouteInvariant.

Variable host : Host.

Lemma computeRouteFrom_inv s o :
  RouteInv s -> destination s <> None -> RouteInv (computeRouteFrom s o).
Proof.
  intros [H1 H2 H3 H4 H5 H6] Hd. unfold computeRouteFrom, route.
  cases; inv_ok.
Qed.

Lemma initializeMap_inv s org d :
  RouteInv s -> destination s = Some d -> RouteInv (initializeMap s org d).
Proof.
  intros H Hd. unfold initializeMap.
  destruct (negb (googleMaps s)) eqn:Hg.
  { destruct H; inv_ok. }
  match goal with |- context [emit NewMap ?x] =>
    set (s1 := if negb (googleMapRef s) && mapRef s then emit NewMap x else s) end.
  assert (I1 : RouteInv s1 /\ destination s1 = Some d /\ googleMaps s1 = true).
  { subst s1. destruct H. cases; (split; [ inv_ok | cbn; bool_norm; auto ]). }
  clearbody s1. clear H Hd Hg s. destruct I1 as (H & Hd & Hg).
  destruct (negb (googleMapRef s1)). { destruct H; inv_ok. }
  destruct org as [o|].
  - apply computeRouteFrom_inv.
    + destruct H. cases; inv_ok.
    + cases; congruence.
  - destruct H. cases; inv_ok.
Qed.

Lemma initializeEffect_inv s ready org :
  RouteInv s -> (ready = true -> mapReady s = true) ->
  RouteInv (initializeEffect host s ready org).
Proof.
  intros H Hr. unfold initializeEffect.
  destruct ready; auto. destruct (destination s) eqn:Hd; auto.
  destruct org; [ now apply initializeMap_inv | ].
  destruct (geolocation host); [ | now apply initializeMap_inv ].
  destruct H. inv_ok.
Qed.

Lemma loaderEffect_inv s : RouteInv s -> RouteInv (loaderEffect host s).
Proof. intros []. unfold loaderEffect. cases; inv_ok. Qed.

Lemma liveCleanupFn_inv s : RouteInv s -> RouteInv (liveCleanupFn s).
Proof. intros []. unfold liveCleanupFn, clearWatch. cases; inv_ok. Qed.

Lemma liveEffect_inv s live : RouteInv s -> RouteInv (liveEffect host s live).
Proof. intros []. unfold liveEffect, watchPosition, clearWatch. cases; inv_ok. Qed.

Lemma success_inv s pos now : RouteInv s -> RouteInv (success host s pos now).
Proof.
  intros H. unfold success.
  match goal with |- context [if googleMaps ?x then ?a else ?b] =>
    set (s1 := if googleMaps x then a else b) end.
  assert (I1 : RouteInv s1).
  { subst s1. destruct H. cases; inv_ok. }
  clearbody s1.
  destruct (_ || _); auto.
  destruct (_ && _) eqn:Hg; cbn in Hg.
  - apply computeRouteFrom_inv.
    + destruct I1; inv_ok.
    + bool_norm. destruct I1. cbn. intuition.
  - destruct I1; inv_ok.
Qed.

Lemma fail_inv s : RouteInv s -> RouteInv (fail s).
Proof. intros []. unfold fail. inv_ok. Qed.

Lemma routeCallback_inv s id result status :
  RouteInv s ->
  RouteInv (routeCallback
              (set_routes (remove Nat.eq_dec id (pendingRoutes s)) (nextRouteId s) s)
              result status).
Proof.
  intros []. unfold routeCallback. cases; split; cbn;
  try (intros Hne; apply remove_nonempty in Hne); field_ok.
Qed.

Lemma oneShotResolved_inv s n r d :
  RouteInv s -> destination s = Some d -> pendingOneShots s = S n ->
  RouteInv (oneShotResolved (set_pendingOneShots n s) r d).
Proof.
  intros H Hd Hn. unfold oneShotResolved. apply initializeMap_inv.
  - destruct H. cases; inv_ok.
  - cases; auto.
Qed.





Lemma keeps_watch_refl s : keeps_watch s s.
Proof. split; reflexivity. Qed.

Lemma keeps_watch_trans s1 s2 s3 :
  keeps_watch s1 s2 -> keeps_watch s2 s3 -> keeps_watch s1 s3.
Proof. intros [] []. split; congruence. Qed.

Lemma keeps_route_refl s : keeps_route s s.
Proof. split; reflexivity. Qed.

Lemma keeps_route_trans s1 s2 s3 :
  keeps_route s1 s2 -> keeps_route s2 s3 -> keeps_route s1 s3.
Proof. intros [] []. split; congruence. Qed.

Lemma computeRouteFrom_keeps_watch s o : keeps_watch s (computeRouteFrom s o).
Proof. unfold computeRouteFrom, route. cases; frame_ok. Qed.

Lemma initializeMap_keeps_watch s org d : keeps_watch s (initializeMap s org d).
Proof.
  unfold initializeMap.
  destruct (negb (googleMaps s)); [ frame_ok | ].
  match goal with |- context [emit NewMap ?x] =>
    set (s1 := if negb (googleMapRef s) && mapRef s then emit NewMap x else s) end.
  assert (K1 : keeps_watch s s1) by (subst s1; cases; frame_ok).
  clearbody s1. apply (keeps_watch_trans _ _ _ K1).
  destruct (negb (googleMapRef s1)); [ frame_ok | ].
  destruct org as [o|].
  - eapply keeps_watch_trans; [ | apply computeRouteFrom_keeps_watch ].
    cases; frame_ok.
  - cases; frame_ok.
Qed.

Lemma initializeEffect_keeps_watch s ready org :
  keeps_watch s (initializeEffect host s ready org).
Proof.
  unfold initializeEffect.
  destruct ready; [ | apply keeps_watch_refl ].
  destruct (destination s); [ | apply keeps_watch_refl ].
  destruct org; [ apply initializeMap_keeps_watch | ].
  destruct (geolocation host); [ frame_ok | apply initializeMap_keeps_watch ].
Qed.

Lemma loaderEffect_keeps_watch s : keeps_watch s (loaderEffect host s).
Proof. unfold loaderEffect. cases; frame_ok. Qed.

Lemma routeCallback_keeps_watch s id result status :
  keeps_watch s
    (routeCallback
       (set_routes (remove Nat.eq_dec id (pendingRoutes s)) (nextRouteId s) s)
       result status).
Proof. unfold routeCallback. cases; frame_ok. Qed.

Lemma oneShotResolved_keeps_watch s n r d :
  keeps_watch s (oneShotResolved (set_pendingOneShots n s) r d).
Proof.
  unfold oneShotResolved.
  eapply keeps_watch_trans; [ | apply initializeMap_keeps_watch ].
  cases; frame_ok.
Qed.

Lemma liveCleanupFn_keeps_route s : keeps_route s (liveCleanupFn s).
Proof. unfold liveCleanupFn, clearWatch. cases; frame_ok. Qed.

Lemma liveEffect_keeps_route s live : keeps_route s (liveEffect host s live).
Proof. unfold liveEffect, watchPosition, clearWatch. cases; frame_ok. Qed.

Lemma fail_keeps_route s : keeps_route s (fail s).
Proof. unfold fail. frame_ok. Qed.



Lemma keeps_deps_trans s1 s2 s3 :
  keeps_deps s1 s2 -> keeps_deps s2 s3 -> keeps_deps s1 s3.
Proof. intros [] []. split; [ congruence | congruence | congruence | auto ]. Qed.

Lemma keeps_route_deps s s' : keeps_route s s' -> keeps_deps s s'.
Proof. intros []. split; congruence. Qed.

Lemma computeRouteFrom_keeps_deps s o : keeps_deps s (computeRouteFrom s o).
Proof. unfold computeRouteFrom, route. cases; deps_ok. Qed.

Lemma initializeMap_keeps_deps s org d : keeps_deps s (initializeMap s org d).
Proof.
  unfold initializeMap.
  destruct (negb (googleMaps s)); [ deps_ok | ].
  match goal with |- context [emit NewMap ?x] =>
    set (s1 := if negb (googleMapRef s) && mapRef s then emit NewMap x else s) end.
  assert (K1 : keeps_deps s s1) by (subst s1; cases; deps_ok).
  clearbody s1. apply (keeps_deps_trans _ _ _ K1).
  destruct (negb (googleMapRef s1)); [ deps_ok | ].
  destruct org as [o|].
  - eapply keeps_deps_trans; [ | apply computeRouteFrom_keeps_deps ].
    cases; deps_ok.
  - cases; deps_ok.
Qed.

Lemma initializeEffect_keeps_deps s ready org :
  keeps_deps s (initializeEffect host s ready org).
Proof.
  unfold initializeEffect.
  destruct ready; [ | deps_ok ].
  destruct (destination s); [ | deps_ok ].
  destruct org; [ apply initializeMap_keeps_deps | ].
  destruct (geolocation host); [ deps_ok | apply initializeMap_keeps_deps ].
Qed.

Lemma loaderEffect_keeps_deps s : keeps_deps s (loaderEffect host s).
Proof. unfold loaderEffect. cases; deps_ok. Qed.

Lemma fiber_change_inv (s s' : State) :
  RouteInv s ->
  comp s' = comp s -> refs s' = refs s -> world s' = world s ->
  (dep_originVer s' <= originVer s)%nat ->
  RouteInv s'.
Proof.
  intros [] Hc Hr Hw Hv. split; rewrite ?Hc, ?Hr, ?Hw; auto.
Qed.

Lemma liveCleanupFn_dep_originVer s : dep_originVer (liveCleanupFn s) = dep_originVer s.
Proof. unfold liveCleanupFn, clearWatch. cases; reflexivity. Qed.

Lemma commit_inv s : RouteInv s -> RouteInv (commit host s).
Proof.
  intros H. unfold commit. destruct (phase s); auto.
  - pose proof (loaderEffect_keeps_deps s) as K1.
    pose proof (initializeEffect_keeps_deps (loaderEffect host s) (mapReady s) (origin s)) as K2.
    pose proof (keeps_route_deps _ _
      (liveEffect_keeps_route (initializeEffect host (loaderEffect host s) (mapReady s) (origin s))
         (liveTracking s))) as K3.
    apply (fiber_change_inv
             (liveEffect host
                (initializeEffect host (loaderEffect host s) (mapReady s) (origin s))
                (liveTracking s))); try reflexivity.
    + apply liveEffect_inv, initializeEffect_inv; [ now apply loaderEffect_inv | ].
      apply K1.
    + cbn. destruct K1, K2, K3. lia.
  - set (s1 := if _ && liveCleanup s then _ else s).
    assert (I1 : RouteInv s1 /\ keeps_deps s s1).
    { subst s1. destruct (_ && _).
      - pose proof (liveCleanupFn_keeps_route s) as K. split.
        + apply (fiber_change_inv (liveCleanupFn s)); try reflexivity.
          * apply liveCleanupFn_inv, H.
          * cbn. rewrite liveCleanupFn_dep_originVer. destruct K, H. lia.
        + destruct K. split; cbn; congruence.
      - split; [ assumption | deps_ok ]. }
    destruct I1 as [I1 K1].
    set (s2 := if _ || _ then initializeEffect host s1 _ _ else s1).
    assert (I2 : RouteInv s2 /\ keeps_deps s1 s2).
    { subst s2. destruct (_ || _).
      - split; [ | apply initializeEffect_keeps_deps ].
        apply initializeEffect_inv; [ assumption | apply K1 ].
      - split; [ assumption | deps_ok ]. }
    destruct I2 as [I2 K2].
    set (s3 := if negb _ then liveEffect host s2 _ else s2).
    assert (I3 : RouteInv s3 /\ keeps_deps s2 s3).
    { subst s3. destruct (negb _).
      - split; [ now apply liveEffect_inv | apply keeps_route_deps, liveEffect_keeps_route ].
      - split; [ assumption | deps_ok ]. }
    destruct I3 as [I3 K3].
    apply (fiber_change_inv s3); try reflexivity; [ assumption | ].
    cbn. destruct K1, K2, K3. lia.
Qed.

Lemma unmount_inv s : RouteInv s -> RouteInv (unmount s).
Proof.
  intros H. unfold unmount. destruct (phase s); auto.
  assert (H0 : RouteInv (set_loaderInterval false s)).
  { apply (fiber_change_inv s); try reflexivity; [ assumption | apply H ]. }
  destruct (liveCleanup _).
  - pose proof (liveCleanupFn_keeps_route (set_loaderInterval false s)) as K.
    apply (fiber_change_inv (liveCleanupFn (set_loaderInterval false s)));
      try reflexivity; [ apply liveCleanupFn_inv, H0 | ].
    cbn. rewrite liveCleanupFn_dep_originVer. destruct K, H. cbn in *. lia.
  - apply (fiber_change_inv (set_loaderInterval false s)); try reflexivity;
      [ assumption | apply H ].
Qed.

Lemma step_inv s e : RouteInv s -> RouteInv (step host s e).
Proof.
  intros H. destruct e; cbn.
  - now apply commit_inv.
  - now apply unmount_inv.
  - destruct H. cases; inv_ok.
  - destruct H. cases; inv_ok.
  - destruct H. cases; inv_ok.
  - destruct H. cases; inv_ok.
  - destruct (pendingOneShots s) eqn:Hn; auto.
    destruct (destination s) eqn:Hd; auto.
    now apply oneShotResolved_inv.
  - destruct (mem _ _); auto. now apply success_inv.
  - destruct (mem _ _); auto. now apply fail_inv.
  - destruct (mem _ _); auto. now apply routeCallback_inv.
Qed.

Lemma init_inv o d g t : RouteInv (init o d g t).
Proof. split; cbn; try congruence; auto. Qed.

Lemma run_app s evs1 evs2 : run host s (evs1 ++ evs2) = run host (run host s evs1) evs2.
Proof. apply fold_left_app. Qed.

Lemma run_inv s evs : RouteInv s -> RouteInv (run host s evs).
Proof.
  revert s. induction evs as [|e evs IH]; intros s H; [ exact H | ].
  change (RouteInv (run host (step host s e) evs)). apply IH, step_inv, H.
Qed.

(** [destination] never changes. *)
Lemma commit_destination s : destination (commit host s) = destination s.
Proof.
  unfold commit. destruct (phase s); cbn; auto.
  - rewrite (kr_destination _ _ (liveEffect_keeps_route _ _)).
    rewrite (kw_destination _ _ (initializeEffect_keeps_watch _ _ _)).
    apply (kw_destination _ _ (loaderEffect_keeps_watch _)).
  - repeat match goal with
           | |- context [if ?b then _ else _] => destruct b
           end;
    rewrite ?(kr_destination _ _ (liveEffect_keeps_route _ _)),
            ?(kw_destination _ _ (initializeEffect_keeps_watch _ _ _)); cbn;
    rewrite ?(kr_destination _ _ (liveCleanupFn_keeps_route _)); reflexivity.
Qed.

Lemma step_destination s e : destination (step host s e) = destination s.
Proof.
  destruct e; cbn.
  - apply commit_destination.
  - unfold unmount. destruct (phase s); cbn; auto.
    destruct (liveCleanup _); cbn; auto.
    now rewrite (kr_destination _ _ (liveCleanupFn_keeps_route _)).
  - cases; reflexivity.
  - cases; reflexivity.
  - cases; reflexivity.
  - cases; reflexivity.
  - destruct (pendingOneShots s); auto. destruct (destination s) eqn:Hd; auto.
    now rewrite (kw_destination _ _ (oneShotResolved_keeps_watch _ _ _ _)).
  - destruct (mem _ _); auto. unfold success.
    repeat match goal with
           | |- context [if ?b then _ else _] => destruct b
           end;
    rewrite ?(kw_destination _ _ (computeRouteFrom_keeps_watch _ _)); cases; reflexivity.
  - destruct (mem _ _); auto.
  - destruct (mem _ _); auto.
    now rewrite (kw_destination _ _ (routeCallback_keeps_watch _ _ _ _)).
Qed.

Lemma run_destination s evs : destination (run host s evs) = destination s.
Proof.
  revert s. induction evs as [|e evs IH]; intros s; [ reflexivity | ].
  change (destination (run host (step host s e) evs) = destination s).
  now rewrite IH, step_destination.
Qed.

End RouteInvariant.

(** ** What each piece of code adds to the directions requests *)

Section RouteFacts.

Variable host : Host.

Lemma or0_id x : or0 x = x.
Proof. unfold or0. destruct (Z.eqb_spec x 0); congruence. Qed.

Lemma computeRouteFrom_requests (s : State) usedOrigin :
  routeRequests (log (computeRouteFrom s usedOrigin)) =
  routeRequests (log s) ++
  match googleMaps s, destination s with
  | true, Some dest => [drivingRequest usedOrigin dest]
  | _, _ => []
  end.
Proof. unfold computeRouteFrom, route. cases; log_simpl; congruence. Qed.

(** A request just issued is in flight when [computeRouteFrom] returns;
    nothing in flight is dropped, and nothing is applied. *)
Lemma computeRouteFrom_pending (s : State) usedOrigin :
  (forall id, In id (pendingRoutes s) ->
              In id (pendingRoutes (computeRouteFrom s usedOrigin))) /\
  (nextRouteId (computeRouteFrom s usedOrigin) = nextRouteId s \/
   nextRouteId (computeRouteFrom s usedOrigin) = S (nextRouteId s) /\
   In (nextRouteId s) (pendingRoutes (computeRouteFrom s usedOrigin))) /\
  rendered (computeRouteFrom s usedOrigin) = rendered s /\
  routeInfo (computeRouteFrom s usedOrigin) = routeInfo s.
Proof.
  unfold computeRouteFrom, route.
  cases;
    (split; [ intros id Hid; cbn; rewrite ?in_app_iff; auto
            | split; [ | split; reflexivity ] ]);
    first [ left; reflexivity
          | right; split; [ reflexivity | apply in_or_app; right; left; reflexivity ] ].
Qed.

Lemma initializeMap_requests (s : State) org d :
  routeRequests (log (initializeMap s org d)) =
  routeRequests (log s) ++
  match org with
  | Some o =>
      if googleMaps s && (googleMapRef s || mapRef s)
      then match destination s with
           | Some dest => [drivingRequest o dest]
           | None => []
           end
      else []
  | None => []
  end.
Proof.
  unfold initializeMap.
  destruct (googleMaps s) eqn:Hg; cbn; [ | destruct org; log_simpl; reflexivity ].
  match goal with |- context [emit NewMap ?x] =>
    set (s1 := if negb (googleMapRef s) && mapRef s then emit NewMap x else s) end.
  assert (K1 : routeRequests (log s1) = routeRequests (log s) /\
               googleMapRef s1 = (googleMapRef s || mapRef s) /\
               googleMaps s1 = true /\ destination s1 = destination s).
  { subst s1. destruct (googleMapRef s) eqn:E1, (mapRef s) eqn:E2; cbn; log_simpl;
    rewrite ?E1; repeat split; auto. }
  destruct K1 as (K1 & K2 & K3 & K4). clearbody s1.
  rewrite <- K2, <- K1, <- K4. clear K1 K2 K4 Hg s.
  destruct (googleMapRef s1); cbn; [ | destruct org; log_simpl; reflexivity ].
  destruct org as [o|].
  - rewrite computeRouteFrom_requests.
    cases; log_simpl; congruence.
  - cases; log_simpl; reflexivity.
Qed.

(** A commit of a mounted page whose [origin] changed since the last one
    runs [initialize] again; with the map ready that is one more request. *)
Lemma commit_requests (s : State) o d :
  RouteInv s ->
  phase s = Mounted -> mapReady s = true ->
  origin s = Some o -> destination s = Some d ->
  originVer s <> dep_originVer s ->
  routeRequests (log (commit host s)) = routeRequests (log s) ++ [drivingRequest o d].
Proof.
  intros I Hp Hr Ho Hd Hv. unfold commit. rewrite Hp, Hr, Ho.
  apply Nat.eqb_neq in Hv. rewrite Hv, orb_true_r.
  set (s1 := if _ && liveCleanup s then _ else s).
  assert (K1 : routeRequests (log s1) = routeRequests (log s) /\
               googleMaps s1 = googleMaps s /\ destination s1 = destination s /\
               phase s1 = phase s).
  { subst s1. destruct (_ && _); auto.
    destruct (liveCleanupFn_keeps_route s). cbn. auto. }
  destruct K1 as (K1 & K2 & K3 & K4). clearbody s1.
  match goal with |- context [if ?b then liveEffect host ?x ?l else _] =>
    assert (K5 : routeRequests (log (world (if b then liveEffect host x l else x))) =
                 routeRequests (log x))
      by (destruct b; [ apply (kr_requests _ _ (liveEffect_keeps_route host _ _)) | reflexivity ])
  end.
  cbn [log world set_deps upd_fiber]. rewrite K5.
  unfold initializeEffect. rewrite K3, Hd.
  rewrite initializeMap_requests, K1, K2, K3, Hd.
  rewrite (inv_ready _ I Hr). unfold mapRef. rewrite K4, Hp, orb_true_r. reflexivity.
Qed.

(** The handler's decision, read off the refs it finds. *)
Lemma shouldRecompute_iff (s : State) newPos now :
  shouldRecompute host s newPos now = true <->
  (20 <? moved host (lastPositionRef s) newPos)%float = true \/
  10000 < now - lastRouteTimestampRef s.
Proof.
  unfold shouldRecompute. rewrite or0_id, orb_true_iff, Z.ltb_lt. reflexivity.
Qed.

(** What [success] does to the requests, in terms of the state it starts
    from. *)
Lemma success_requests (s : State) newPos now :
  routeRequests (log (success host s newPos now)) =
  routeRequests (log s) ++
  if shouldRecompute host s newPos now
     && (directionsServiceRef s && googleMapRef s) && googleMaps s
  then match destination s with
       | Some dest => [drivingRequest newPos dest]
       | None => []
       end
  else [].
Proof.
  unfold success, shouldRecompute.
  match goal with |- context [if googleMaps ?x then ?a else ?b] =>
    set (s1 := if googleMaps x then a else b) end.
  assert (K : routeRequests (log s1) = routeRequests (log s) /\
              lastRouteTimestampRef s1 = lastRouteTimestampRef s /\
              directionsServiceRef s1 = directionsServiceRef s /\
              googleMapRef s1 = googleMapRef s /\
              googleMaps s1 = googleMaps s /\ destination s1 = destination s).
  { subst s1. cases; log_simpl; auto 10. }
  destruct K as (K1 & K2 & K3 & K4 & K5 & K6). clearbody s1.
  rewrite K2. destruct (_ || _); cbn; [ | rewrite app_nil_r; exact K1 ].
  rewrite K3, K4. destruct (_ && _); cbn; [ | rewrite app_nil_r; exact K1 ].
  rewrite computeRouteFrom_requests. cbn. rewrite K1, K5, K6. reflexivity.
Qed.

Lemma success_fields (s : State) newPos now :
  let s' := success host s newPos now in
  phase s' = phase s /\ mapReady s' = mapReady s /\
  origin s' = Some newPos /\ originVer s' = S (originVer s) /\
  dep_originVer s' = dep_originVer s /\
  lastPositionRef s' = Some newPos /\
  lastRouteTimestampRef s' =
    (if shouldRecompute host s newPos now then now else lastRouteTimestampRef s).
Proof.
  unfold success, shouldRecompute.
  match goal with |- context [if googleMaps ?x then ?a else ?b] =>
    set (s1 := if googleMaps x then a else b) end.
  assert (K : phase s1 = phase s /\ mapReady s1 = mapReady s /\
              origin s1 = Some newPos /\ originVer s1 = S (originVer s) /\
              dep_originVer s1 = dep_originVer s /\
              lastPositionRef s1 = Some newPos /\
              lastRouteTimestampRef s1 = lastRouteTimestampRef s).
  { subst s1. cases; auto 10. }
  destruct K as (K1 & K2 & K3 & K4 & K5 & K6 & K7). clearbody s1.
  rewrite K7. cbn.
  destruct (_ || _); [ | auto 10 ].
  destruct (_ && _); [ | cbn; auto 10 ].
  unfold computeRouteFrom, route. cases; auto 10.
Qed.

(** What the continuation of the one-shot read changes. *)
Lemma oneShotResolved_fields (s : State) n r dest :
  let s1 := oneShotResolved (set_pendingOneShots n s) r dest in
  origin s1 = match r with Some c => Some c | None => origin s end /\
  originVer s1 = match r with Some _ => S (originVer s) | None => originVer s end /\
  dep_originVer s1 = dep_originVer s /\
  routeRequests (log s1) = routeRequests (log s).
Proof.
  unfold oneShotResolved.
  match goal with |- context [initializeMap ?x None dest] =>
    pose proof (initializeMap_keeps_deps x None dest) as [K1 K2 K3 K4];
    pose proof (initializeMap_requests x None dest) as K5;
    set (s1 := initializeMap x None dest) in *
  end.
  cbv zeta. rewrite K1, K2, K3, K5, app_nil_r.
  destruct r; repeat split; reflexivity.
Qed.

(** Without an origin, [initialize] fits the map to the destination and
    marks it. *)
Lemma initializeMap_destination_only (s : State) dest :
  googleMaps s = true -> mapRef s = true ->
  log (initializeMap s None dest) =
  log s ++ (if googleMapRef s then [] else [NewMap])
        ++ [FitBounds [dest]; NewMarker "Destination" dest].
Proof.
  intros Hg Hm. unfold initializeMap. rewrite Hg, Hm. cbn.
  destruct (googleMapRef s) eqn:Hr; cbn; rewrite ?Hr; cbn;
    cases; cbn; now rewrite <- ?app_assoc.
Qed.

(** Only the [success] handler writes [lastRouteTimestampRef]. *)
Lemma commit_time (s : State) :
  lastRouteTimestampRef (commit host s) = lastRouteTimestampRef s.
Proof.
  unfold commit. destruct (phase s); cbn; auto.
  - rewrite (kr_time _ _ (liveEffect_keeps_route _ _ _)).
    rewrite (kw_time _ _ (initializeEffect_keeps_watch _ _ _ _)).
    apply (kw_time _ _ (loaderEffect_keeps_watch _ _)).
  - repeat match goal with
           | |- context [if ?b then _ else _] => destruct b
           end;
    rewrite ?(kr_time _ _ (liveEffect_keeps_route _ _ _)),
            ?(kw_time _ _ (initializeEffect_keeps_watch _ _ _ _)); cbn;
    rewrite ?(kr_time _ _ (liveCleanupFn_keeps_route _)); reflexivity.
Qed.

Lemma step_time (s : State) e :
  isSample e = false ->
  lastRouteTimestampRef (step host s e) = lastRouteTimestampRef s.
Proof.
  destruct e; cbn; try discriminate; intros _.
  - apply commit_time.
  - unfold unmount. destruct (phase s); cbn; auto.
    destruct (liveCleanup _); cbn; auto.
    now rewrite (kr_time _ _ (liveCleanupFn_keeps_route _)).
  - cases; reflexivity.
  - cases; reflexivity.
  - cases; reflexivity.
  - cases; reflexivity.
  - destruct (pendingOneShots s); auto. destruct (destination s) eqn:Hd; auto.
    now rewrite (kw_time _ _ (oneShotResolved_keeps_watch _ _ _ _)).
  - destruct (mem _ _); auto.
  - destruct (mem _ _); auto.
    now rewrite (kw_time _ _ (routeCallback_keeps_watch _ _ _ _)).
Qed.

Lemma run_time (s : State) evs :
  forallb (fun e => negb (isSample e)) evs = true ->
  lastRouteTimestampRef (run host s evs) = lastRouteTimestampRef s.
Proof.
  revert s. induction evs as [|e evs IH]; intros s H; [ reflexivity | ].
  cbn in H. apply andb_true_iff in H. destruct H as [He H].
  apply negb_true_iff in He.
  change (lastRouteTimestampRef (run host (step host s e) evs) = lastRouteTimestampRef s).
  now rewrite IH, step_time.
Qed.

(** An ["OK"] result is applied whatever else is in flight. *)
Lemma routeResult_ok (s : State) id result :
  In id (pendingRoutes s) ->
  directionsRendererRef s = true ->
  let s' := step host s (RouteResult id result "OK") in
  rendered s' = Some result /\ routeInfo s' = firstLeg result /\
  lastRouteTimestampRef s' = lastRouteTimestampRef s /\
  directionsRendererRef s' = true /\
  pendingRoutes s' = remove Nat.eq_dec id (pendingRoutes s).
Proof.
  intros Hin Hr. cbn. apply mem_In in Hin. rewrite Hin.
  unfold routeCallback. cbn. rewrite Hr. cbn. auto.
Qed.

End RouteFacts.

(** ** The watch invariant holds in every reachable state *)

Section WatchInvariant.

Variable host : Host.

Local Arguments liveEffect : simpl never.
Local Arguments liveCleanupFn : simpl never.
Local Arguments initializeEffect : simpl never.
Local Arguments loaderEffect : simpl never.
Local Arguments computeRouteFrom : simpl never.

Lemma keeps_watch_same (s s' : State) : keeps_watch s s' -> same_watch s s'.
Proof. intros []. split; assumption. Qed.

Lemma same_watch_refl (s : State) : same_watch s s.
Proof. split; reflexivity. Qed.

Lemma same_watch_trans (s1 s2 s3 : State) :
  same_watch s1 s2 -> same_watch s2 s3 -> same_watch s1 s3.
Proof. intros [] []. split; congruence. Qed.

Lemma same_watch_core (s s' : State) : same_watch s s' -> WatchCore s -> WatchCore s'.
Proof.
  intros [E1 E2 E3 E4 E5 E6 E7 E8] [H1 H2 H3 H4 H5].
  split; rewrite ?E1, ?E2, ?E3, ?E4, ?E7, ?E8; assumption.
Qed.

Lemma fiber_change_core (s s' : State) :
  refs s' = refs s -> world s' = world s -> liveCleanup s' = liveCleanup s ->
  WatchCore s -> WatchCore s'.
Proof.
  intros Er Ew Ec [H1 H2 H3 H4 H5]. split; rewrite ?Er, ?Ew, ?Ec; assumption.
Qed.

Lemma same_watch_inv (s s' : State) :
  same_watch s s' -> (phase s = NotMounted -> liveTracking s' = false) ->
  WatchInv s -> WatchInv s'.
Proof.
  intros E Hl [H1 H2 H3 H4]. pose proof (same_watch_core _ _ E H1).
  destruct E as [E1 E2 E3 E4 E5 E6 E7 E8].
  split; rewrite ?E4, ?E5, ?E6; auto.
  intros Hp. split; [ apply H4, Hp | apply Hl, Hp ].
Qed.

Lemma success_same_watch (s : State) pos now : same_watch s (success host s pos now).
Proof.
  unfold success.
  match goal with |- context [if googleMaps ?x then ?a else ?b] =>
    set (s1 := if googleMaps x then a else b) end.
  assert (K : same_watch s s1) by (subst s1; cases; frame_ok).
  clearbody s1. apply (same_watch_trans _ _ _ K).
  destruct (_ || _); [ | apply same_watch_refl ].
  destruct (_ && _).
  - eapply same_watch_trans; [ | apply keeps_watch_same, computeRouteFrom_keeps_watch ].
    frame_ok.
  - frame_ok.
Qed.

Lemma success_liveTracking (s : State) pos now :
  liveTracking (success host s pos now) = liveTracking s.
Proof.
  unfold success.
  repeat match goal with
         | |- context [if ?b then _ else _] => destruct b
         end;
  rewrite ?(kw_live _ _ (computeRouteFrom_keeps_watch _ _)); cases; reflexivity.
Qed.

(** Running the registered cleanup releases the watch. *)
Lemma cleanup_core (s : State) :
  WatchCore s ->
  WatchCore (set_liveCleanup false (liveCleanupFn s)) /\
  watchIdRef (set_liveCleanup false (liveCleanupFn s)) = None.
Proof.
  intros [H1 H2 H3 H4 H5]. unfold liveCleanupFn, clearWatch.
  destruct (watchIdRef s) as [id|] eqn:Hw; cbn.
  - split; [ | reflexivity ]. split; cbn; log_simpl; auto.
    + fold (watched (log s)) (cleared (log s)). rewrite H1, H2. cbn.
      destruct (Nat.eq_dec id id); [ | congruence ]. now rewrite app_nil_r.
    + rewrite H2. cbn. destruct (Nat.eq_dec id id); [ reflexivity | congruence ].
  - split; [ | assumption ]. split; cbn; rewrite ?Hw; auto.
Qed.

(** The effect body, started with no watch held. *)
Lemma liveEffect_core (s : State) live :
  WatchCore s -> watchIdRef s = None ->
  WatchCore (liveEffect host s live) /\
  (live = false -> liveCleanup (liveEffect host s live) = false).
Proof.
  intros [H1 H2 H3 H4 H5] Hw. unfold liveEffect, watchPosition.
  rewrite Hw in *. destruct live; cbn.
  - destruct (geolocation host); cbn.
    + split; [ | discriminate ]. split; cbn; log_simpl;
        fold (watched (log s)) (cleared (log s)); auto.
      * rewrite H1, H2. now rewrite app_nil_r.
      * now rewrite H2.
      * discriminate.
      * apply Forall_app. split.
        -- eapply Forall_impl; [ | exact H4 ]. cbn. intros; lia.
        -- repeat constructor.
      * apply NoDup_app; [ assumption | repeat constructor; intros [] | ].
        intros x Hx [E|[]]. subst x. rewrite Forall_forall in H4.
        apply H4 in Hx. lia.
    + split; [ | discriminate ]. split; cbn; log_simpl; rewrite ?Hw; auto.
  - split; [ | reflexivity ]. split; cbn; rewrite ?Hw; auto.
Qed.

Lemma commit_winv (s : State) : WatchInv s -> WatchInv (commit host s).
Proof.
  intros [C D U N]. unfold commit. destruct (phase s) eqn:Hp.
  - (* mount *)
    destruct (N eq_refl) as [N1 N2]. rewrite N2.
    pose proof (keeps_watch_same _ _ (loaderEffect_keeps_watch host s)) as K1.
    pose proof (keeps_watch_same _ _
      (initializeEffect_keeps_watch host (loaderEffect host s) (mapReady s) (origin s))) as K2.
    pose proof (same_watch_trans _ _ _ K1 K2) as K.
    set (s2 := initializeEffect host (loaderEffect host s) (mapReady s) (origin s)) in *.
    pose proof (same_watch_core _ _ K C) as C2.
    assert (W2 : watchIdRef s2 = None).
    { rewrite (sw_watchIdRef _ _ K). apply (w_cleanup _ C), D, N1. }
    destruct (liveEffect_core s2 false C2 W2) as [C3 L3].
    split; cbn; try discriminate; auto.
    refine (fiber_change_core _ _ _ _ _ C3); reflexivity.
  - (* update *)
    set (live := liveTracking s).
    destruct (Bool.eqb live (dep_live s)) eqn:Hch; cbn [negb andb].
    + (* [liveTracking] unchanged: the live effect does not run *)
      apply Bool.eqb_prop in Hch.
      match goal with |- WatchInv (set_deps _ _ _ ?x) =>
        assert (K : same_watch s x)
          by (destruct (_ || _);
              [ apply keeps_watch_same, initializeEffect_keeps_watch
              | apply same_watch_refl ]);
        pose proof (same_watch_core _ _ K C) as C2;
        destruct K as [E1 E2 E3 E4 E5 E6 E7 E8]
      end.
      split; cbn; rewrite ?E4, ?E6, ?Hp; try discriminate.
      * refine (fiber_change_core _ _ _ _ _ C2); reflexivity.
      * rewrite Hch. exact D.
    + (* [liveTracking] changed: cleanup, then the effect *)
      set (s1 := if liveCleanup s then _ else s).
      assert (K1 : WatchCore s1 /\ watchIdRef s1 = None).
      { subst s1. destruct (liveCleanup s) eqn:Hc.
        - now apply cleanup_core.
        - split; [ assumption | now apply (w_cleanup _ C) ]. }
      destruct K1 as [C1 W1].
      set (s2 := if _ || _ then initializeEffect host s1 _ _ else s1).
      assert (K2 : same_watch s1 s2).
      { subst s2. destruct (_ || _);
          [ apply keeps_watch_same, initializeEffect_keeps_watch | apply same_watch_refl ]. }
      pose proof (same_watch_core _ _ K2 C1) as C2.
      assert (W2 : watchIdRef s2 = None) by (now rewrite (sw_watchIdRef _ _ K2)).
      destruct (liveEffect_core s2 live C2 W2) as [C3 L3].
      assert (P3 : phase (liveEffect host s2 live) = Mounted).
      { rewrite (kr_phase _ _ (liveEffect_keeps_route host s2 live)).
        rewrite (sw_phase _ _ K2). subst s1.
        destruct (liveCleanup s); [ | assumption ].
        cbn. now rewrite (kr_phase _ _ (liveCleanupFn_keeps_route s)). }
      split; cbn; rewrite ?P3; try discriminate; auto.
      refine (fiber_change_core _ _ _ _ _ C3); reflexivity.
  - split; auto; intros E; rewrite Hp in E; try discriminate; auto.
Qed.

Lemma unmount_winv (s : State) : WatchInv s -> WatchInv (unmount s).
Proof.
  intros [C D U N]. unfold unmount. destruct (phase s) eqn:Hp.
  - split; auto; intros E; rewrite Hp in E; try discriminate; auto.
  - assert (C0 : WatchCore (set_loaderInterval false s))
      by (refine (fiber_change_core _ _ _ _ _ C); reflexivity).
    destruct (liveCleanup (set_loaderInterval false s)) eqn:Hc.
    + destruct (cleanup_core _ C0) as [C1 W1].
      split; cbn; try discriminate; auto.
      refine (fiber_change_core _ _ _ _ _ C1); reflexivity.
    + cbn in Hc. split; cbn; try discriminate; auto.
      refine (fiber_change_core _ _ _ _ _ C); reflexivity.
  - split; auto; intros E; rewrite Hp in E; try discriminate; auto.
Qed.

Lemma step_winv (s : State) e : WatchInv s -> WatchInv (step host s e).
Proof.
  intros H. destruct e; cbn.
  - now apply commit_winv.
  - now apply unmount_winv.
  - destruct (phase s) eqn:Hp; auto.
    eapply same_watch_inv; [ | | exact H ]; [ frame_ok | congruence ].
  - eapply same_watch_inv; [ | | exact H ].
    + cases; frame_ok.
    + intros Hp. cases; cbn; apply (w_notmounted _ H Hp).
  - eapply same_watch_inv; [ | | exact H ].
    + cases; frame_ok.
    + intros Hp. cases; cbn; apply (w_notmounted _ H Hp).
  - eapply same_watch_inv; [ | | exact H ].
    + cases; frame_ok.
    + intros Hp. cases; cbn; apply (w_notmounted _ H Hp).
  - destruct (pendingOneShots s); auto. destruct (destination s); auto.
    eapply same_watch_inv; [ | | exact H ].
    + apply keeps_watch_same, oneShotResolved_keeps_watch.
    + intros Hp. rewrite (kw_live _ _ (oneShotResolved_keeps_watch _ _ _ _)).
      apply (w_notmounted _ H Hp).
  - destruct (mem _ _); auto.
    eapply same_watch_inv; [ | | exact H ].
    + apply success_same_watch.
    + intros Hp. rewrite success_liveTracking. apply (w_notmounted _ H Hp).
  - destruct (mem _ _); auto.
    eapply same_watch_inv; [ | | exact H ]; [ frame_ok | reflexivity ].
  - destruct (mem _ _); auto.
    eapply same_watch_inv; [ | | exact H ].
    + apply keeps_watch_same, routeCallback_keeps_watch.
    + intros Hp. rewrite (kw_live _ _ (routeCallback_keeps_watch _ _ _ _)).
      apply (w_notmounted _ H Hp).
Qed.

Lemma init_winv o d g t : WatchInv (init o d g t).
Proof. split; [ split | .. ]; cbn; auto; constructor. Qed.

Lemma run_winv (s : State) evs : WatchInv s -> WatchInv (run host s evs).
Proof.
  revert s. induction evs as [|e evs IH]; intros s H; [ exact H | ].
  change (WatchInv (run host (step host s e) evs)). apply IH, step_winv, H.
Qed.

(** With tracking off in the last commit, or the page gone, no watch is
    left and every id watched has been cleared. *)
Lemma released (s : State) :
  WatchInv s -> phase s = Unmounted \/ dep_live s = false ->
  activeWatches s = [] /\ watchIdRef s = None /\ cleared (log s) = watched (log s).
Proof.
  intros [C D U N] Hoff.
  assert (Hc : liveCleanup s = false) by (destruct Hoff; auto).
  pose proof (w_cleanup _ C Hc) as Hw.
  pose proof (w_active _ C) as Ha. rewrite Hw in Ha.
  pose proof (w_log _ C) as Hl. rewrite Ha, app_nil_r in Hl. auto.
Qed.

Lemma commit_dep_live (s : State) :
  phase s <> Unmounted -> dep_live (commit host s) = liveTracking s.
Proof. unfold commit. destruct (phase s); cbn; congruence. Qed.

Lemma commit_phase (s : State) :
  phase (commit host s) = match phase s with Unmounted => Unmounted | _ => Mounted end.
Proof.
  unfold commit. destruct (phase s) eqn:Hp; cbn; auto. 
  repeat match goal with
         | |- context [if ?b then _ else _] => destruct b
         end;
  rewrite ?(kr_phase _ _ (liveEffect_keeps_route _ _ _)),
          ?(kw_phase _ _ (initializeEffect_keeps_watch _ _ _ _)); cbn;
  rewrite ?(kr_phase _ _ (liveCleanupFn_keeps_route _)); assumption.
Qed.

End WatchInvariant.

(** ** The claims about route computation *)

Section RouteClaims.

Variable host : Host.

(** C9.  [computeRouteFrom] issues at most one directions request: exactly
    one when Google Maps is available and the destination is known, none
    otherwise; the request goes from the given origin to the destination,
    in driving mode, without route alternatives.  The same holds of every
    request a session ever issues. *)
Theorem computeRouteFrom_single_driving_request :
  (forall s usedOrigin,
      routeRequests (log (computeRouteFrom s usedOrigin)) =
      routeRequests (log s) ++
      match googleMaps s, destination s with
      | true, Some dest =>
          [ {| req_origin := usedOrigin; req_destination := dest;
               travelMode := DRIVING; trafficModel := "bestguess";
               provideRouteAlternatives := false |} ]
      | _, _ => []
      end) /\
  (forall o d g t evs id r,
      In (Route id r) (log (run host (init o d g t) evs)) ->
      travelMode r = DRIVING /\ provideRouteAlternatives r = false).
Proof.
  split.
  - intros s usedOrigin. apply computeRouteFrom_requests.
  - intros o d g t evs id r Hin.
    pose proof (inv_log _ (run_inv host _ evs (init_inv o d g t))) as Hlog.
    rewrite Forall_forall in Hlog. apply Hlog in Hin. cbn in Hin. tauto.
Qed.

(** C3.  In every state a session can reach, no dereference of
    [destination] inside [computeRouteFrom] has hit [null], and every
    directions request was issued with the session's destination known and
    used as the request's destination.  (The origin of a request is a
    coordinate by construction: [computeRouteFrom] is called with the
    sample just received, or under [if (origin)].) *)
Theorem route_only_with_known_endpoints :
  forall o d g t evs,
    let s := run host (init o d g t) evs in
    ~ In (Throw NullDestination) (log s) /\
    (forall id r, In (Route id r) (log s) ->
                  destination s = Some (req_destination r) /\
                  d = Some (req_destination r)).
Proof.
  intros o d g t evs s.
  pose proof (inv_log _ (run_inv host _ evs (init_inv o d g t))) as Hlog.
  fold s in Hlog. rewrite Forall_forall in Hlog.
  assert (Hd : destination s = d) by apply run_destination.
  split.
  - intros Hin. apply Hlog in Hin. exact Hin.
  - intros id r Hin. apply Hlog in Hin. cbn in Hin.
    split; [ tauto | rewrite <- Hd; tauto ].
Qed.

(** C4.  When a directions request in flight completes with a status other
    than ["OK"], the error shown names that status, and [routeInfo], the
    route on the map and the log of calls (so: no [setDirections]) are as
    before. *)
Theorem failed_route_keeps_previous :
  forall (s : State) id result status,
    In id (pendingRoutes s) ->
    status <> "OK" ->
    let s' := step host s (RouteResult id result status) in
    error s' = Some ("Could not compute route: " ++ status)%string /\
    routeInfo s' = routeInfo s /\
    rendered s' = rendered s /\
    log s' = log s.
Proof.
  intros s id result status Hin Hst. cbn.
  apply mem_In in Hin. rewrite Hin.
  unfold routeCallback. apply String.eqb_neq in Hst. rewrite Hst.
  cbn. auto.
Qed.

(** C1, as the code has it.  For every position sample the [success]
    handler receives, in any reachable state: the handler issues a
    directions request, one, from the new position to the destination, if
    and only if (the previous position is more than 20 m away by
    [haversineMeters], or there is none, or more than 10 000 ms have passed
    since [lastRouteTimestampRef]) and the directions service and the map
    have been created; otherwise it issues none. *)
Theorem success_recomputes_iff :
  forall o d g t evs newPos now,
    let s := run host (init o d g t) evs in
    let s' := success host s newPos now in
    let far := (20 <? moved host (lastPositionRef s) newPos)%float = true in
    let stale := 10000 < now - lastRouteTimestampRef s in
    let created := directionsServiceRef s = true /\ googleMapRef s = true in
    ((far \/ stale) /\ created ->
     exists dest, d = Some dest /\
       routeRequests (log s') = routeRequests (log s) ++ [drivingRequest newPos dest]) /\
    (~ ((far \/ stale) /\ created) ->
     routeRequests (log s') = routeRequests (log s)).
Proof.
  intros o d g t evs newPos now s s' far stale created.
  pose proof (run_inv host _ evs (init_inv o d g t)) as I. fold s in I.
  assert (Hd : destination s = d) by apply run_destination.
  subst s'. rewrite success_requests.
  pose proof (shouldRecompute_iff host s newPos now) as Hs.
  fold far stale in Hs.
  split.
  - intros [Hc [Hsv Hmap]].
    destruct (inv_service _ I Hsv) as [Hg Hdest].
    apply Hs in Hc. rewrite Hc, Hsv, Hmap, Hg. cbn.
    rewrite Hd in *. destruct d as [dest|]; [ | congruence ].
    exists dest. auto.
  - intros Hn.
    destruct (shouldRecompute host s newPos now) eqn:Hc; cbn;
      [ | now rewrite app_nil_r ].
    destruct (directionsServiceRef s) eqn:Hsv; cbn; [ | now rewrite app_nil_r ].
    destruct (googleMapRef s) eqn:Hmap; cbn; [ | now rewrite app_nil_r ].
    exfalso. apply Hn. split; [ now apply Hs | split; reflexivity ].
Qed.

(** The handler's side of the staging.  When [success] decides to
    recompute, it stores [now] in [lastRouteTimestampRef] in the same call:
    a request the call issued is then still in flight and nothing has been
    applied to the display.  No event other than a further sample changes
    the timestamp, and the handler judges the next sample against it: the
    handler recomputes for that sample only if it is more than 20 m from
    the last position or comes more than 10 000 ms after [now]; otherwise
    the handler itself issues no request. *)
Theorem timestamp_staged_before_resolution :
  forall (s : State) pos now evs pos' now',
    shouldRecompute host s pos now = true ->
    forallb (fun e => negb (isSample e)) evs = true ->
    let s1 := success host s pos now in
    let s2 := run host s1 evs in
    lastRouteTimestampRef s1 = now /\
    (forall id, In id (pendingRoutes s) -> In id (pendingRoutes s1)) /\
    (nextRouteId s1 = nextRouteId s \/
     nextRouteId s1 = S (nextRouteId s) /\ In (nextRouteId s) (pendingRoutes s1)) /\
    rendered s1 = rendered s /\ routeInfo s1 = routeInfo s /\
    lastRouteTimestampRef s2 = now /\
    (shouldRecompute host s2 pos' now' = true <->
     (20 <? moved host (lastPositionRef s2) pos')%float = true \/ 10000 < now' - now) /\
    (shouldRecompute host s2 pos' now' = false ->
     routeRequests (log (success host s2 pos' now')) = routeRequests (log s2)).
Proof.
  intros s pos now evs pos' now' Hc Hevs s1 s2.
  assert (T1 : lastRouteTimestampRef s1 = now).
  { subst s1. destruct (success_fields host s pos now) as (_ & _ & _ & _ & _ & _ & Ht).
    now rewrite Ht, Hc. }
  assert (T2 : lastRouteTimestampRef s2 = now).
  { subst s2. now rewrite run_time. }
  split; [ exact T1 | ].
  assert (P : (forall id, In id (pendingRoutes s) -> In id (pendingRoutes s1)) /\
              (nextRouteId s1 = nextRouteId s \/
               nextRouteId s1 = S (nextRouteId s) /\ In (nextRouteId s) (pendingRoutes s1)) /\
              rendered s1 = rendered s /\ routeInfo s1 = routeInfo s).
  { subst s1. unfold success. unfold shouldRecompute in Hc.
    match goal with |- context [if googleMaps ?x then ?a else ?b] =>
      set (z := if googleMaps x then a else b) end.
    assert (K : pendingRoutes z = pendingRoutes s /\ nextRouteId z = nextRouteId s /\
                rendered z = rendered s /\ routeInfo z = routeInfo s /\
                lastRouteTimestampRef z = lastRouteTimestampRef s).
    { subst z. cases; auto 10. }
    destruct K as (K1 & K2 & K3 & K4 & K5). clearbody z.
    rewrite K5, Hc. cbn.
    destruct (_ && _).
    - match goal with |- context [computeRouteFrom ?x pos] =>
        pose proof (computeRouteFrom_pending x pos) as Q end.
      cbn in Q. rewrite K1, K2, K3, K4 in Q. exact Q.
    - cbn. rewrite K1, K2, K3, K4. auto. }
  destruct P as (P1 & P2 & P3 & P4).
  repeat split; auto.
  - rewrite shouldRecompute_iff, T2. auto.
  - rewrite shouldRecompute_iff, T2. auto.
  - intros Hn. rewrite success_requests, Hn. cbn. now rewrite app_nil_r.
Qed.

(** C2, as the code has it.  Results are applied in the order in which
    they arrive: with two requests in flight (requests are numbered as
    they are issued, so [i < j] makes [i] the older), once the newer one
    has been answered ["OK"] and then the older one, the map and
    [routeInfo] show the older answer.  The callback does not look at
    [lastRouteTimestampRef]: run with any other timestamp it does the same,
    and it leaves the timestamp as it is. *)
Theorem late_result_overwrites :
  forall o d g t evs i j resultOld resultNew,
    let s := run host (init o d g t) evs in
    In i (pendingRoutes s) -> In j (pendingRoutes s) -> (i < j)%nat ->
    let s1 := step host s (RouteResult j resultNew "OK") in
    let s2 := step host s1 (RouteResult i resultOld "OK") in
    rendered s1 = Some resultNew /\ routeInfo s1 = firstLeg resultNew /\
    rendered s2 = Some resultOld /\ routeInfo s2 = firstLeg resultOld /\
    lastRouteTimestampRef s2 = lastRouteTimestampRef s /\
    (forall ts (s0 : State) result status,
        routeCallback (set_lastRouteTimestampRef ts s0) result status =
        set_lastRouteTimestampRef ts (routeCallback s0 result status)).
Proof.
  intros o d g t evs i j resultOld resultNew s Hi Hj Hlt s1 s2.
  pose proof (run_inv host _ evs (init_inv o d g t)) as I. fold s in I.
  assert (Hr : directionsRendererRef s = true).
  { apply (inv_renderer _ I). intros E. rewrite E in Hi. exact Hi. }
  destruct (routeResult_ok host s j resultNew Hj Hr) as (A1 & A2 & A3 & A4 & A5).
  fold s1 in A1, A2, A3, A4, A5.
  assert (Hi1 : In i (pendingRoutes s1)).
  { rewrite A5. apply in_in_remove; [ lia | assumption ]. }
  destruct (routeResult_ok host s1 i resultOld Hi1 A4) as (B1 & B2 & B3 & _ & _).
  fold s2 in B1, B2, B3.
  repeat split; auto; try congruence.
  intros ts s0 result status. unfold routeCallback. cases; reflexivity.
Qed.

(** Every sample reaches the directions provider.  [success] stores a new
    object with [setOrigin], so React runs the [initialize] effect again at
    the next commit; on a mounted page whose map is ready that effect calls
    [computeRouteFrom] with the new origin, whatever the handler decided
    and whatever timestamp it staged. *)
Theorem every_sample_reissues_route :
  forall o d g t evs id pos now,
    let s := run host (init o (Some d) g t) evs in
    phase s = Mounted -> mapReady s = true -> In id (activeWatches s) ->
    let s1 := step host s (WatchSuccess id pos now) in
    routeRequests (log (step host s1 Commit)) =
    routeRequests (log s1) ++ [drivingRequest pos d].
Proof.
  intros o d g t evs id pos now s Hp Hr Hin s1.
  pose proof (run_inv host _ evs (init_inv o (Some d) g t)) as I. fold s in I.
  assert (I1 : RouteInv s1) by (apply step_inv, I).
  assert (Hd : destination s1 = Some d).
  { subst s1. rewrite step_destination. apply run_destination. }
  assert (E : s1 = success host s pos now).
  { subst s1. cbn. apply mem_In in Hin. now rewrite Hin. }
  destruct (success_fields host s pos now) as (F1 & F2 & F3 & F4 & F5 & _).
  rewrite <- E in F1, F2, F3, F4, F5.
  cbn [step]. apply commit_requests; try congruence.
  rewrite F4, F5. pose proof (inv_ver _ I). lia.
Qed.

End RouteClaims.

Lemma failed_route_keeps_previous_witness :
  let s' := step hostDouble pageWithRoute (RouteResult 0 resultA "ZERO_RESULTS") in
  error s' = Some "Could not compute route: ZERO_RESULTS" /\
  routeInfo s' = routeInfo pageWithRoute /\
  rendered s' = rendered pageWithRoute /\
  log s' = log pageWithRoute.
Proof.
  apply (failed_route_keeps_previous hostDouble pageWithRoute 0 resultA "ZERO_RESULTS").
  - vm_compute. auto.
  - discriminate.
Defined.

(** ** The claims about the geolocation watch and the one-shot read *)

Section WatchClaims.

Variable host : Host.

(** C6.  In every reachable state the ids returned by [watchPosition] are,
    in order and without repetition, the ids passed to [clearWatch]
    followed by the one watch still active, which is the one in
    [watchIdRef].  On each way out of live tracking (the page is left; the
    user toggles tracking off and React commits; the stream reports an
    error and React commits) no watch remains, [watchIdRef] is empty, and
    the [clearWatch] calls are exactly the [watchPosition] calls. *)
Theorem watch_released_on_every_exit :
  forall o d g t evs,
    let s := run host (init o d g t) evs in
    watched (log s) = cleared (log s) ++ activeWatches s /\
    NoDup (watched (log s)) /\
    activeWatches s = match watchIdRef s with Some id => [id] | None => [] end /\
    (forall exit,
        exit = [Unmount] \/
        (liveTracking s = true /\ exit = [ToggleLive; Commit]) \/
        (exists id, In id (activeWatches s) /\ exit = [WatchFail id; Commit]) ->
        let s' := run host s exit in
        activeWatches s' = [] /\ watchIdRef s' = None /\
        cleared (log s') = watched (log s') /\ NoDup (cleared (log s'))).
Proof.
  intros o d g t evs s.
  pose proof (run_winv host _ evs (init_winv o d g t)) as W. fold s in W.
  pose proof (w_core _ W) as C.
  split; [ apply (w_log _ C) | ].
  split; [ apply (w_nodup _ C) | ].
  split; [ apply (w_active _ C) | ].
  intros exit Hexit s'.
  pose proof (run_winv host s exit W) as W'. fold s' in W'.
  assert (Hoff : phase s' = Unmounted \/ dep_live s' = false).
  { destruct Hexit as [-> | [[Hl ->] | (id & Hid & ->)]]; subst s'; cbn.
    - unfold unmount. destruct (phase s) eqn:Hp; cbn; auto.
      right. apply (w_notmounted _ W Hp).
    - destruct (phase s) eqn:Hp.
      + destruct (w_notmounted _ W Hp). congruence.
      + right. rewrite commit_dep_live; cbn; [ now rewrite Hl | congruence ].
      + left. now rewrite commit_phase, Hp.
    - apply mem_In in Hid. rewrite Hid.
      destruct (phase s) eqn:Hp.
      + right. rewrite commit_dep_live; cbn; [ reflexivity | congruence ].
      + right. rewrite commit_dep_live; cbn; [ reflexivity | congruence ].
      + left. rewrite commit_phase. cbn. now rewrite Hp. }
  destruct (released s' W' Hoff) as (R1 & R2 & R3).
  repeat split; auto. rewrite R3. apply (w_nodup _ (w_core _ W')).
Qed.

(** C7.  The one-shot origin read.  When the [initialize] effect runs with
    the map ready, a destination and no origin, it makes one
    [getCurrentPosition] call, with an 8000 ms timeout, and nothing else.
    When that call succeeds on a mounted page, [origin] becomes the
    position read; the continuation itself issues no directions request
    (it still sees the old [origin]), and the commit that follows
    [setOrigin] issues exactly one, from the position read to the
    destination.  When the call fails or times out, [origin] is as before,
    no request is issued, and the map is fitted to the destination and
    gets the "Destination" marker. *)
Theorem one_shot_origin_resolution :
  forall o d g t evs coords,
    let s := run host (init o d g t) evs in
    geolocation host = true ->
    phase s = Mounted ->
    pendingOneShots s <> O ->
    (forall s0 : State,
        destination s0 <> None ->
        log (initializeEffect host s0 true None) = log s0 ++ [GetCurrentPosition 8000] /\
        pendingOneShots (initializeEffect host s0 true None) = S (pendingOneShots s0) /\
        origin (initializeEffect host s0 true None) = origin s0) /\
    exists dest, d = Some dest /\
      (let s1 := step host s (OneShotResult (Some coords)) in
       origin s1 = Some coords /\
       routeRequests (log s1) = routeRequests (log s) /\
       routeRequests (log (step host s1 Commit)) =
       routeRequests (log s) ++ [drivingRequest coords dest]) /\
      (let s1 := step host s (OneShotResult None) in
       origin s1 = origin s /\
       routeRequests (log s1) = routeRequests (log s) /\
       exists pre, (pre = [] \/ pre = [NewMap]) /\
         log s1 = log s ++ pre ++ [FitBounds [dest]; NewMarker "Destination" dest]).
Proof.
  intros o d g t evs coords s Hgeo Hp Hn.
  pose proof (run_inv host _ evs (init_inv o d g t)) as I. fold s in I.
  assert (Hd : destination s = d) by apply run_destination.
  destruct (inv_oneshot _ I Hn) as [Hr Hdest].
  pose proof (inv_ready _ I Hr) as Hg.
  split.
  { intros s0 Hd0. unfold initializeEffect. rewrite Hgeo.
    destruct (destination s0); [ cbn; auto | congruence ]. }
  destruct (destination s) as [dest|] eqn:Hds; [ | congruence ].
  exists dest. split; [ congruence | ].
  destruct (pendingOneShots s) as [|n] eqn:Hpn; [ congruence | ].
  split.
  - (* success *)
    intros s1.
    assert (I1 : RouteInv s1) by (apply step_inv, I).
    assert (E : s1 = oneShotResolved (set_pendingOneShots n s) (Some coords) dest).
    { subst s1. cbn. now rewrite Hpn, Hds. }
    assert (Hd1 : destination s1 = Some dest).
    { subst s1. rewrite step_destination. exact Hds. }
    assert (Hp1 : phase s1 = Mounted).
    { rewrite E, (kw_phase _ _ (oneShotResolved_keeps_watch _ _ _ _)). exact Hp. }
    assert (Hr1 : mapReady s1 = true).
    { rewrite E. unfold oneShotResolved. apply initializeMap_keeps_deps. exact Hr. }
    clearbody s1.
    destruct (oneShotResolved_fields s n (Some coords) dest) as (F1 & F2 & F3 & F4).
    rewrite <- E in F1, F2, F3, F4.
    split; [ exact F1 | ]. split; [ exact F4 | ].
    cbn [step]. rewrite <- F4. apply commit_requests; auto.
    rewrite F2, F3. pose proof (inv_ver _ I). lia.
  - (* failure or timeout *)
    intros s1.
    assert (E : s1 = oneShotResolved (set_pendingOneShots n s) None dest).
    { subst s1. cbn. now rewrite Hpn, Hds. }
    clearbody s1.
    destruct (oneShotResolved_fields s n None dest) as (F1 & F2 & F3 & F4).
    rewrite <- E in F1, F2, F3, F4.
    split; [ exact F1 | ]. split; [ exact F4 | ].
    exists (if googleMapRef s then [] else [NewMap]).
    split; [ destruct (googleMapRef s); auto | ].
    rewrite E. unfold oneShotResolved.
    rewrite initializeMap_destination_only; [ reflexivity | exact Hg | ].
    unfold mapRef. cbn. now rewrite Hp.
Qed.

End WatchClaims.

(** C1 as the spec states it fails: on a page whose map is not loaded yet,
    live tracking is on, a second sample arrives 11 s after the first, and
    the handler issues no directions request. *)
Lemma recompute_skipped_without_map :
  liveTracking pageWithoutMap = true /\
  In 0%nat (activeWatches pageWithoutMap) /\
  lastPositionRef pageWithoutMap = Some ngo /\
  lastRouteTimestampRef pageWithoutMap = t1 /\
  (10000 <? (t1 + 11000) - lastRouteTimestampRef pageWithoutMap) = true /\
  routeRequests (log (step hostDouble pageWithoutMap (WatchSuccess 0 ngo (t1 + 11000))))
  = routeRequests (log pageWithoutMap).
Proof. vm_compute. repeat split; auto. Qed.

(** C2 as the spec states it fails: requests 1 and 3 were issued by the
    handler for the samples at [t1] and [t1 + 11000]; request 3 is answered
    first, then request 1, and the page shows the answer to request 1. *)
Lemma stale_result_overwrites_newer :
  pendingRoutes pageTwoSamples = [0; 1; 2; 3; 4]%nat /\
  lastRouteTimestampRef pageTwoSamples = t1 + 11000 /\
  let s1 := step hostDouble pageTwoSamples (RouteResult 3 resultB "OK") in
  let s2 := step hostDouble s1 (RouteResult 1 resultA "OK") in
  rendered s1 = Some resultB /\
  rendered s2 = Some resultA /\
  routeInfo s2 = Some {| distanceText := Some "4.5 km"; durationText := Some "12 mins" |} /\
  lastRouteTimestampRef s2 = t1 + 11000 /\
  resultA <> resultB.
Proof. vm_compute. repeat split; auto. discriminate. Qed.

(** C5 fails on the code.  The first sample makes the handler recompute
    and stage [t1]; a second sample comes 2 s later from the same place, so
    neither criterion holds against [t1] and the handler issues nothing;
    but its [setOrigin] makes React run [initialize] again, and that issues
    a directions request all the same. *)
Lemma gated_sample_still_requests :
  let s := run hostDouble pageTracking [WatchSuccess 0 ngo t1; Commit] in
  lastRouteTimestampRef s = t1 /\
  lastPositionRef s = Some ngo /\
  shouldRecompute hostDouble s ngo (t1 + 2000) = false /\
  let s1 := step hostDouble s (WatchSuccess 0 ngo (t1 + 2000)) in
  routeRequests (log s1) = routeRequests (log s) /\
  routeRequests (log (step hostDouble s1 Commit)) =
  routeRequests (log s) ++ [drivingRequest ngo caseSite].
Proof. vm_compute. repeat split. Qed.

Lemma late_result_overwrites_witness :
  let s := run hostDouble (init (Some ngo) (Some caseSite) true false)
               [Commit; Commit; ToggleLive; Commit; WatchSuccess 0 ngo t1] in
  let s1 := step hostDouble s (RouteResult 1 resultB "OK") in
  let s2 := step hostDouble s1 (RouteResult 0 resultA "OK") in
  rendered s1 = Some resultB /\ routeInfo s1 = firstLeg resultB /\
  rendered s2 = Some resultA /\ routeInfo s2 = firstLeg resultA /\
  lastRouteTimestampRef s2 = lastRouteTimestampRef s /\
  (forall ts (s0 : State) result status,
      routeCallback (set_lastRouteTimestampRef ts s0) result status =
      set_lastRouteTimestampRef ts (routeCallback s0 result status)).
Proof.
  apply (late_result_overwrites hostDouble (Some ngo) (Some caseSite) true false
           [Commit; Commit; ToggleLive; Commit; WatchSuccess 0 ngo t1]
           0%nat 1%nat resultA resultB).
  - vm_compute. auto.
  - vm_compute. auto.
  - lia.
Defined.

Lemma timestamp_staged_before_resolution_witness :
  let s1 := success hostDouble pageTracking ngo t1 in
  let s2 := run hostDouble s1 [Commit; RouteResult 0 resultA "OK"] in
  lastRouteTimestampRef s1 = t1 /\
  (forall id, In id (pendingRoutes pageTracking) -> In id (pendingRoutes s1)) /\
  (nextRouteId s1 = nextRouteId pageTracking \/
   nextRouteId s1 = S (nextRouteId pageTracking) /\
   In (nextRouteId pageTracking) (pendingRoutes s1)) /\
  rendered s1 = rendered pageTracking /\ routeInfo s1 = routeInfo pageTracking /\
  lastRouteTimestampRef s2 = t1 /\
  (shouldRecompute hostDouble s2 ngo (t1 + 2000) = true <->
   (20 <? moved hostDouble (lastPositionRef s2) ngo)%float = true \/
   10000 < (t1 + 2000) - t1) /\
  (shouldRecompute hostDouble s2 ngo (t1 + 2000) = false ->
   routeRequests (log (success hostDouble s2 ngo (t1 + 2000))) = routeRequests (log s2)).
Proof.
  apply (timestamp_staged_before_resolution hostDouble pageTracking ngo t1
           [Commit; RouteResult 0 resultA "OK"] ngo (t1 + 2000)).
  - vm_compute. reflexivity.
  - vm_compute. reflexivity.
Defined.

Lemma every_sample_reissues_route_witness :
  let s := run hostDouble (init (Some ngo) (Some caseSite) true false)
               [Commit; Commit; ToggleLive; Commit; WatchSuccess 0 ngo t1; Commit] in
  let s1 := step hostDouble s (WatchSuccess 0 ngo (t1 + 2000)) in
  routeRequests (log (step hostDouble s1 Commit)) =
  routeRequests (log s1) ++ [drivingRequest ngo caseSite].
Proof.
  apply (every_sample_reissues_route hostDouble (Some ngo) caseSite true false
           [Commit; Commit; ToggleLive; Commit; WatchSuccess 0 ngo t1; Commit]
           0%nat ngo (t1 + 2000)).
  - vm_compute. reflexivity.
  - vm_compute. reflexivity.
  - vm_compute. auto.
Defined.

(** The page opened without an origin, Google Maps loaded: after the mount
    commit and the commit that follows [setMapReady(true)] a one-shot read
    is pending. *)
Lemma one_shot_origin_resolution_witness :
  let s := run hostDouble (init None (Some caseSite) true false) [Commit; Commit] in
  (forall s0 : State,
      destination s0 <> None ->
      log (initializeEffect hostDouble s0 true None) = log s0 ++ [GetCurrentPosition 8000] /\
      pendingOneShots (initializeEffect hostDouble s0 true None) = S (pendingOneShots s0) /\
      origin (initializeEffect hostDouble s0 true None) = origin s0) /\
  exists dest, Some caseSite = Some dest /\
    (let s1 := step hostDouble s (OneShotResult (Some ngo)) in
     origin s1 = Some ngo /\
     routeRequests (log s1) = routeRequests (log s) /\
     routeRequests (log (step hostDouble s1 Commit)) =
     routeRequests (log s) ++ [drivingRequest ngo dest]) /\
    (let s1 := step hostDouble s (OneShotResult None) in
     origin s1 = origin s /\
     routeRequests (log s1) = routeRequests (log s) /\
     exists pre, (pre = [] \/ pre = [NewMap]) /\
       log s1 = log s ++ pre ++ [FitBounds [dest]; NewMarker "Destination" dest]).
Proof.
  apply (one_shot_origin_resolution hostDouble None (Some caseSite) true false
           [Commit; Commit] ngo).
  - reflexivity.
  - vm_compute. reflexivity.
  - vm_compute. discriminate.
Defined.

End TrackingPage.

(** * The report form: the guards of [handleSubmit] *)

Module ReportPageClaims.

Import ReportPage.

Section ReportClaims.

Variable GOOGLE_MAPS_API_KEY : bool.
Variable BACKEND_API : option string.
Variable coordMatch : string -> option (float * float).

(** C10.  [handleSubmit] posts to the backend only when an image file, a
    location, a contact phone and a severity are all present.  When one is
    missing, the handler shows the error for the first missing one (image,
    location, phone, severity, in that order), makes no request at all, and
    leaves the state as it was. *)
Theorem handleSubmit_guards :
  forall s geo backend,
    let form := formData s in
    let result :=
      handleSubmit GOOGLE_MAPS_API_KEY BACKEND_API coordMatch s geo backend in
    ((exists api body, In (FetchBackend api body) (snd result)) ->
     imageFile s <> None /\ location form <> EmptyString /\
     contactPhone form <> EmptyString /\ severity form <> EmptyString) /\
    (imageFile s = None ->
     result = (s, [PreventDefault; ToastError "Please upload an image"])) /\
    (imageFile s <> None -> location form = EmptyString ->
     result = (s, [PreventDefault; ToastError "Please provide a location"])) /\
    (imageFile s <> None -> location form <> EmptyString ->
     contactPhone form = EmptyString ->
     result = (s, [PreventDefault; ToastError "Please provide a contact phone number"])) /\
    (imageFile s <> None -> location form <> EmptyString ->
     contactPhone form <> EmptyString -> severity form = EmptyString ->
     result = (s, [PreventDefault; ToastError "Please select severity level"])).
Proof.
  intros s geo backend form result. subst form result. unfold handleSubmit.
  destruct (imageFile s) as [file|] eqn:Hf.
  2:{ cbn. split; [ | repeat split; intros; congruence ].
      intros (api & body & [Hin|[Hin|[]]]); discriminate. }
  destruct (location (formData s)) as [|a1 l1] eqn:Hl.
  { cbn. split; [ | repeat split; intros; congruence ].
    intros (api & body & [Hin|[Hin|[]]]); discriminate. }
  destruct (contactPhone (formData s)) as [|a2 l2] eqn:Hc.
  { cbn. split; [ | repeat split; intros; congruence ].
    intros (api & body & [Hin|[Hin|[]]]); discriminate. }
  destruct (severity (formData s)) as [|a3 l3] eqn:Hs.
  { cbn. split; [ | repeat split; intros; congruence ].
    intros (api & body & [Hin|[Hin|[]]]); discriminate. }
  cbn [falsy]. repeat split; try congruence; intros; congruence.
Qed.

End ReportClaims.

End ReportPageClaims.


(** * Doubles

    Facts about IEEE-754 doubles read off their specification
    ([SpecFloat], through [FloatAxioms]): signs, zeros, and that products
    and quotients of small numbers do not overflow. *)

Module FloatFacts.
Import SpecFloat FloatOps FloatAxioms.
Local Open Scope Z_scope.

Local Abbreviation notNegative := TrackingPage.notNegative.

(** A number that is a zero or finite with an exponent of at most [E]. *)
Definition small (E : Z) (f : spec_float) : Prop :=
  match f with
  | S754_zero _ => True
  | S754_finite _ _ e => e <= E
  | _ => False
  end.

(** The exponent of a double, the least one for a double without
    mantissa, and the doubles that are small. *)
Definition exponent (x : float) : Z :=
  match Prim2SF x with S754_finite _ _ e => e | _ => -1074 end.

Definition smallF (E : Z) (x : float) : Prop := small E (Prim2SF x).

(** ** Reading a double through its specification *)

Lemma SFcompare_refl f : f <> S754_nan -> SFcompare f f = Some Eq.
Proof.
  destruct f as [s|s| |s m e]; cbn; try congruence; intros _.
  - now destruct s.
  - now destruct s; rewrite Z.compare_refl, Pos.compare_cont_refl.
Qed.

Lemma is_nan_spec x :
  is_nan x = match Prim2SF x with S754_nan => true | _ => false end.
Proof.
  unfold is_nan. rewrite eqb_spec. unfold SFeqb.
  destruct (Prim2SF x) as [s|s| |s m e] eqn:E; try reflexivity;
    rewrite SFcompare_refl; try discriminate; reflexivity.
Qed.

Lemma is_zero_spec x :
  is_zero x = match Prim2SF x with S754_zero _ => true | _ => false end.
Proof.
  unfold is_zero. rewrite eqb_spec. change (Prim2SF zero) with (S754_zero false).
  destruct (Prim2SF x) as [s|s| |s m e]; try reflexivity; now destruct s.
Qed.

Lemma is_finite_spec x :
  is_finite x = match Prim2SF x with S754_zero _ | S754_finite _ _ _ => true | _ => false end.
Proof.
  unfold is_finite, is_infinity. rewrite is_nan_spec, eqb_spec, abs_spec.
  change (Prim2SF infinity) with (S754_infinity false).
  destruct (Prim2SF x) as [s|s| |s m e]; reflexivity.
Qed.

Lemma leb_zero_spec x :
  (0 <=? x)%float =
  match Prim2SF x with
  | S754_zero _ => true
  | S754_infinity s | S754_finite s _ _ => negb s
  | S754_nan => false
  end.
Proof.
  rewrite leb_spec. change (Prim2SF 0) with (S754_zero false).
  destruct (Prim2SF x) as [s|s| |s m e]; try reflexivity; now destruct s.
Qed.

Lemma get_sign_spec x :
  get_sign x =
  match Prim2SF x with
  | S754_nan => false
  | S754_zero s | S754_infinity s | S754_finite s _ _ => s
  end.
Proof.
  unfold get_sign. rewrite is_zero_spec.
  destruct (Prim2SF x) as [s|s| |s m e] eqn:E.
  - rewrite ltb_spec, div_spec, E. now destruct s.
  - rewrite ltb_spec, E. now destruct s.
  - rewrite ltb_spec, E. reflexivity.
  - rewrite ltb_spec, E. now destruct s.
Qed.

Lemma notNegative_spec x :
  notNegative x =
  match Prim2SF x with
  | S754_nan | S754_zero _ => true
  | S754_infinity s | S754_finite s _ _ => negb s
  end.
Proof.
  unfold notNegative. rewrite is_nan_spec, leb_zero_spec.
  now destruct (Prim2SF x).
Qed.

(** Rounding keeps the sign. *)
Lemma round_sign sx m e l :
  match binary_round_aux prec emax sx m e l with
  | S754_nan => True
  | S754_zero s | S754_infinity s | S754_finite s _ _ => s = sx
  end.
Proof.
  unfold binary_round_aux.
  destruct (shr_fexp prec emax m e l) as [mrs e1].
  destruct (shr_fexp prec emax _ e1 loc_Exact) as [mrs2 e2].
  destruct (shr_m mrs2); [ reflexivity | | exact I ].
  now destruct (Z.leb e2 (emax - prec)).
Qed.

Lemma mul_notNegative k t :
  get_sign k = false -> notNegative t = true -> notNegative (k * t) = true.
Proof.
  rewrite get_sign_spec, !notNegative_spec, mul_spec. unfold SF64mul.
  destruct (Prim2SF k) as [s|s| |s m e], (Prim2SF t) as [s'|s'| |s' m' e'];
    cbn; intros Hs H; try subst s; try reflexivity; try exact H.
  pose proof (round_sign (xorb false s') (Zpos (Pos.mul m m')) (e + e') loc_Exact) as K.
  destruct (binary_round_aux _ _ _ _ _ _); try reflexivity; rewrite K; exact H.
Qed.

Lemma zero_notNegative x : is_zero x = true -> notNegative x = true.
Proof. rewrite is_zero_spec, notNegative_spec. now destruct (Prim2SF x). Qed.

Lemma sign_notNegative x : get_sign x = false -> notNegative x = true.
Proof.
  rewrite get_sign_spec, notNegative_spec.
  destruct (Prim2SF x); intros H; try subst s; reflexivity.
Qed.

Lemma nan_notNegative x : is_nan x = true -> notNegative x = true.
Proof. unfold notNegative. now intros ->. Qed.

(** ** The IEEE square root *)

Lemma sqrt_zero x : is_zero x = true -> sqrt x = x.
Proof.
  rewrite is_zero_spec. intros H. apply Prim2SF_inj. rewrite sqrt_spec.
  now destruct (Prim2SF x).
Qed.

Lemma sqrt_sign x : is_zero x = false -> get_sign (sqrt x) = false.
Proof.
  rewrite is_zero_spec, get_sign_spec, sqrt_spec. unfold SF64sqrt.
  destruct (Prim2SF x) as [s|[|]| |[|] m e]; cbn; try reflexivity; try discriminate.
  intros _. destruct (SFsqrt_core_binary prec emax (Zpos m) e) as [[mz ez] lz].
  pose proof (round_sign false mz ez lz) as K.
  now destruct (binary_round_aux _ _ _ _ _ _).
Qed.

(** ** Subtraction *)

Lemma sub_self x : is_finite x = true -> (x - x)%float = 0%float.
Proof.
  rewrite is_finite_spec. intros H. apply Prim2SF_inj. rewrite sub_spec. unfold SF64sub.
  change (Prim2SF 0) with (S754_zero false).
  destruct (Prim2SF x) as [s|s| |s m e]; try discriminate; cbn.
  - now destruct s.
  - rewrite Z.min_id. unfold shl_align. rewrite (Z.sub_diag e). cbn [fst].
    now rewrite Z.sub_diag.
Qed.

Lemma one_sub_zero x : is_zero x = true -> (1 - x)%float = 1%float.
Proof.
  rewrite is_zero_spec. intros H. apply Prim2SF_inj. rewrite sub_spec.
  destruct (Prim2SF x); try discriminate. reflexivity.
Qed.

(** A double between two finite ones is finite. *)
Lemma between_finite lo hi x :
  is_finite lo = true -> is_finite hi = true ->
  (lo <=? x)%float = true -> (x <=? hi)%float = true -> is_finite x = true.
Proof.
  rewrite !is_finite_spec, !leb_spec. unfold SFleb.
  destruct (Prim2SF x) as [s|[|]| |s m e]; try reflexivity; try discriminate;
    destruct (Prim2SF lo) as [s1|s1| |s1 m1 e1], (Prim2SF hi) as [s2|s2| |s2 m2 e2];
    cbn; try discriminate; auto.
Qed.

(** ** Products and quotients of small numbers are finite

    The bounds are crude: the number of digits of a mantissa and its
    exponent bound the exponent after rounding, which is enough where the
    numbers are far from the overflow threshold. *)

Lemma digits2_size p : digits2_pos p = Pos.size p.
Proof. induction p; cbn; congruence. Qed.

Lemma digits_gt m : 0 <= m -> m < 2 ^ Zdigits2 m.
Proof.
  destruct m as [|p|p]; cbn; try lia. intros _.
  rewrite digits2_size. pose proof (Pos.size_gt p) as H.
  apply Pos2Z.pos_lt_pos in H. now rewrite Pos2Z.inj_pow in H.
Qed.

Lemma digits_le m n : 0 <= m -> 0 <= n -> m < 2 ^ n -> Zdigits2 m <= n.
Proof.
  destruct m as [|p|p]; cbn; try lia. intros _ Hn H.
  rewrite digits2_size. pose proof (Pos.size_le p) as K.
  apply Pos2Z.pos_le_pos in K. rewrite Pos2Z.inj_pow in K.
  destruct (Z_le_gt_dec (Z.pos (Pos.size p)) n) as [L|L]; [ exact L | exfalso ].
  assert (P : 2 ^ (n + 1) <= 2 ^ Z.pos (Pos.size p)) by (apply Z.pow_le_mono_r; lia).
  rewrite Z.pow_add_r in P by lia. change (Z.pos p~0) with (2 * Z.pos p) in K. lia.
Qed.

Lemma pow_digits m D : 0 <= m -> Zdigits2 m <= D -> m < 2 ^ D.
Proof.
  intros Hm Hd. pose proof (digits_gt m Hm) as H.
  assert (0 <= Zdigits2 m) by (destruct m; cbn; lia).
  assert (2 ^ Zdigits2 m <= 2 ^ D) by (apply Z.pow_le_mono_r; lia). lia.
Qed.

Lemma shr_1_bound mrs M : 0 <= shr_m mrs <= M -> 0 <= shr_m (shr_1 mrs) <= M.
Proof. destruct mrs as [m r s]. cbn. destruct m as [|[p|p|]|[p|p|]]; cbn; lia. Qed.

Lemma iter_pos_bound p mrs M :
  0 <= shr_m mrs <= M -> 0 <= shr_m (iter_pos shr_1 p mrs) <= M.
Proof.
  revert mrs. induction p as [p IH|p IH|]; intros mrs H; cbn.
  - apply IH, IH, shr_1_bound, H.
  - apply IH, IH, H.
  - apply shr_1_bound, H.
Qed.

Lemma shr_fexp_bound m e l D E :
  0 <= m -> Zdigits2 m <= D -> e <= E ->
  0 <= shr_m (fst (shr_fexp prec emax m e l)) <= m /\
  snd (shr_fexp prec emax m e l) <= Z.max E (Z.max (D + E - 53) (-1074)).
Proof.
  intros Hm Hd He. unfold shr_fexp, shr, fexp, SpecFloat.emin.
  change prec with 53. change emax with 1024.
  assert (R : shr_m (shr_record_of_loc m l) = m) by (now destruct l as [|[| |]]).
  destruct (Z.max (Zdigits2 m + e - 53) (3 - 1024 - 53) - e) as [|p|p] eqn:En; cbn [fst snd].
  - rewrite R. lia.
  - split; [ apply iter_pos_bound; rewrite R; lia | lia ].
  - rewrite R. lia.
Qed.

Lemma round_nearest_even_bound m l :
  0 <= m -> 0 <= round_nearest_even m l <= m + 1.
Proof. intros H. destruct l as [|[| |]]; cbn; try lia. destruct (Z.even m); lia. Qed.

Lemma round_small sx m e l D E :
  0 <= m -> Zdigits2 m <= D -> e <= E ->
  Z.max E (Z.max (D + E - 53) (-1074)) + Z.max 0 (D - 52) <= 971 ->
  small (Z.max E (Z.max (D + E - 53) (-1074)) + Z.max 0 (D - 52))
        (binary_round_aux prec emax sx m e l).
Proof.
  intros Hm Hd He Hb. unfold binary_round_aux.
  pose proof (shr_fexp_bound m e l D E Hm Hd He) as [B1 B2].
  destruct (shr_fexp prec emax m e l) as [mrs e1]. cbn [fst snd] in B1, B2.
  set (E1 := Z.max E (Z.max (D + E - 53) (-1074))) in *.
  pose proof (round_nearest_even_bound (shr_m mrs) (loc_of_shr_record mrs) (proj1 B1)) as B3.
  set (m2 := round_nearest_even _ _) in *.
  assert (D0 : 0 <= D) by (destruct m; cbn in Hd; lia).
  assert (Hd2 : Zdigits2 m2 <= D + 1).
  { apply digits_le; try lia. pose proof (pow_digits m D Hm Hd).
    rewrite Z.pow_add_r by lia. lia. }
  pose proof (shr_fexp_bound m2 e1 loc_Exact (D + 1) E1 (proj1 B3) Hd2 B2) as [B4 B5].
  destruct (shr_fexp prec emax m2 e1 loc_Exact) as [mrs2 e2]. cbn [fst snd] in B4, B5.
  destruct (shr_m mrs2) as [|p|p]; [ exact I | | lia ].
  change (emax - prec) with 971.
  destruct (Z.leb_spec e2 971); cbn; lia.
Qed.

Lemma valid_digits s m e :
  valid_binary (S754_finite s m e) = true -> Zdigits2 (Z.pos m) <= 53.
Proof.
  cbn. unfold bounded, canonical_mantissa, fexp, SpecFloat.emin.
  change prec with 53. change emax with 1024.
  intros H. apply andb_true_iff in H. destruct H as [H _]. apply Z.eqb_eq in H. cbn. lia.
Qed.

Lemma SFmul_small x y Ex Ey :
  valid_binary x = true -> valid_binary y = true -> small Ex x -> small Ey y ->
  Z.max (Ex + Ey + 53) (-1074) + 54 <= 971 ->
  small (Z.max (Ex + Ey + 53) (-1074) + 54) (SFmul prec emax x y).
Proof.
  intros Vx Vy Sx Sy Hb.
  destruct x as [sx|sx| |sx mx ex], y as [sy|sy| |sy my ey]; cbn in Sx, Sy; try contradiction;
    cbn [SFmul]; try exact I.
  pose proof (valid_digits _ _ _ Vx) as Dx. pose proof (valid_digits _ _ _ Vy) as Dy.
  assert (Dm : Zdigits2 (Z.pos (mx * my)) <= 106).
  { apply digits_le; try lia.
    pose proof (pow_digits (Z.pos mx) 53 ltac:(lia) Dx).
    pose proof (pow_digits (Z.pos my) 53 ltac:(lia) Dy).
    rewrite Pos2Z.inj_mul. change 106 with (53 + 53). rewrite Z.pow_add_r by lia. nia. }
  pose proof (round_small (xorb sx sy) (Z.pos (mx * my)) (ex + ey) loc_Exact 106 (Ex + Ey)
                ltac:(lia) Dm ltac:(lia)) as K.
  replace (Z.max (Ex + Ey) (Z.max (106 + (Ex + Ey) - 53) (-1074)) + Z.max 0 (106 - 52))
    with (Z.max (Ex + Ey + 53) (-1074) + 54) in K by lia.
  apply K, Hb.
Qed.

Lemma SFdiv_small x sy my ey Ex :
  valid_binary x = true -> valid_binary (S754_finite sy my ey) = true -> small Ex x ->
  Z.max (Ex - ey + 105) (-1074) + 106 <= 971 ->
  small (Z.max (Ex - ey + 105) (-1074) + 106) (SFdiv prec emax x (S754_finite sy my ey)).
Proof.
  intros Vx Vy Sx Hb.
  destruct x as [sx|sx| |sx mx ex]; cbn in Sx; try contradiction; cbn [SFdiv]; [ exact I | ].
  pose proof (valid_digits _ _ _ Vx) as Dx. pose proof (valid_digits _ _ _ Vy) as Dy.
  unfold SFdiv_core_binary, fexp, SpecFloat.emin. change prec with 53. change emax with 1024.
  set (d1 := Zdigits2 (Z.pos mx)) in *. set (d2 := Zdigits2 (Z.pos my)) in *.
  assert (P1 : 1 <= d1) by (subst d1; cbn; lia).
  assert (P2 : 1 <= d2) by (subst d2; cbn; lia).
  set (e' := Z.min (Z.max (d1 + ex - (d2 + ey) - 53) (3 - 1024 - 53)) (ex - ey)).
  set (m' := match ex - ey - e' with
             | 0 => Z.pos mx
             | Z.pos _ => Z.shiftl (Z.pos mx) (ex - ey - e')
             | Z.neg _ => 0
             end).
  assert (Hm' : 0 <= m' < 2 ^ 158).
  { pose proof (pow_digits (Z.pos mx) 53 ltac:(lia) Dx) as Px.
    assert (2 ^ 53 <= 2 ^ 158) by (apply Z.pow_le_mono_r; lia).
    subst m'. destruct (ex - ey - e') as [|p|p] eqn:Es; try lia.
    rewrite Z.shiftl_mul_pow2 by lia.
    assert (Z.pos p <= 105) by lia.
    assert (2 ^ Z.pos p <= 2 ^ 105) by (apply Z.pow_le_mono_r; lia).
    assert (0 < 2 ^ Z.pos p) by (apply Z.pow_pos_nonneg; lia).
    change 158 with (53 + 105). rewrite Z.pow_add_r by lia. nia. }
  pose proof (Z_div_mod m' (Z.pos my) ltac:(lia)) as Q.
  destruct (Z.div_eucl m' (Z.pos my)) as [q r]. destruct Q as [Q1 Q2].
  assert (Hq : 0 <= q <= m') by nia.
  assert (Dq : Zdigits2 q <= 158) by (apply digits_le; lia).
  pose proof (round_small (xorb sx sy) q e' (new_location (Z.pos my) r) 158 (Ex - ey)
                ltac:(lia) Dq ltac:(lia)) as K.
  replace (Z.max (Ex - ey) (Z.max (158 + (Ex - ey) - 53) (-1074)) + Z.max 0 (158 - 52))
    with (Z.max (Ex - ey + 105) (-1074) + 106) in K by lia.
  apply K, Hb.
Qed.

Lemma smallF_finite E x : smallF E x -> is_finite x = true.
Proof. unfold smallF. rewrite is_finite_spec. now destruct (Prim2SF x). Qed.

Lemma finite_smallF x : is_finite x = true -> smallF (exponent x) x.
Proof.
  unfold smallF, exponent. rewrite is_finite_spec.
  destruct (Prim2SF x); cbn; try discriminate; auto. lia.
Qed.

Lemma smallF_le E E' x : E <= E' -> smallF E x -> smallF E' x.
Proof. unfold smallF. destruct (Prim2SF x); cbn; auto. lia. Qed.

Lemma mul_small x y Ex Ey :
  smallF Ex x -> smallF Ey y -> Z.max (Ex + Ey + 53) (-1074) + 54 <= 971 ->
  smallF (Z.max (Ex + Ey + 53) (-1074) + 54) (x * y).
Proof.
  intros. unfold smallF. rewrite mul_spec. apply SFmul_small; auto using Prim2SF_valid.
Qed.

Lemma div_small x y Ex :
  smallF Ex x -> is_finite y = true -> is_zero y = false ->
  Z.max (Ex - exponent y + 105) (-1074) + 106 <= 971 ->
  smallF (Z.max (Ex - exponent y + 105) (-1074) + 106) (x / y).
Proof.
  unfold smallF, exponent. rewrite is_finite_spec, is_zero_spec, div_spec.
  pose proof (Prim2SF_valid y) as Vy.
  destruct (Prim2SF y) as [sy|sy| |sy my ey]; try discriminate.
  intros Sx _ _ Hb. apply SFdiv_small; auto using Prim2SF_valid.
Qed.

(** A double between two finite ones has at most the larger exponent. *)
Lemma between_small lo hi x E :
  is_finite lo = true -> is_finite hi = true ->
  exponent lo <= E -> exponent hi <= E ->
  (lo <=? x)%float = true -> (x <=? hi)%float = true -> smallF E x.
Proof.
  unfold smallF, exponent. rewrite !is_finite_spec, !leb_spec. unfold SFleb.
  destruct (Prim2SF x) as [s|[|]| |[|] m e];
    destruct (Prim2SF lo) as [s1|s1| |[|] m1 e1], (Prim2SF hi) as [s2|s2| |[|] m2 e2];
    cbn; try discriminate; auto; intros _ _ H1 H2 L1 L2.
  all: try (destruct (Z.compare_spec e1 e); try discriminate; lia).
  all: try (destruct (Z.compare_spec e e2); try discriminate; lia).
Qed.

(** ** Zeros *)

Lemma mul_zero x : is_finite x = true -> is_zero (x * 0) = true.
Proof.
  rewrite is_finite_spec, is_zero_spec, mul_spec. change (Prim2SF 0) with (S754_zero false).
  now destruct (Prim2SF x).
Qed.

Lemma zero_finite x : is_zero x = true -> is_finite x = true.
Proof. rewrite is_zero_spec, is_finite_spec. now destruct (Prim2SF x). Qed.

Lemma zero_add_zero x : is_zero x = true -> (0 + x)%float = 0%float.
Proof.
  rewrite is_zero_spec. intros H. apply Prim2SF_inj. rewrite add_spec.
  change (Prim2SF 0) with (S754_zero false).
  destruct (Prim2SF x) as [[|]| | |]; try discriminate; reflexivity.
Qed.

End FloatFacts.


(** * The distance between two positions: [haversineMeters] *)

Module HaversineFacts.
Import TrackingPage FloatFacts.

Section Haversine.

Variable host : Host.
Hypothesis math : EcmaMath host.

Lemma atan2_notNegative aHarv :
  notNegative (Math_atan2 host (Math_sqrt host aHarv) (Math_sqrt host (1 - aHarv))) = true.
Proof.
  destruct (is_zero aHarv) eqn:Z.
  - rewrite (sqrt_of_zero host math _ Z), (one_sub_zero _ Z), (sqrt_of_one host math),
      (atan2_of_zero host math _ Z).
    now apply zero_notNegative.
  - apply (atan2_signless host math), (sqrt_signless host math), Z.
Qed.

Lemma haversine_notNegative a b : notNegative (haversineMeters host a b) = true.
Proof.
  unfold haversineMeters. cbv zeta.
  apply mul_notNegative; [ reflexivity | ].
  apply mul_notNegative; [ reflexivity | ].
  apply atan2_notNegative.
Qed.

Lemma toRad_finite v : (-90 <=? v)%float = true -> (v <=? 90)%float = true ->
  is_finite (toRad v) = true.
Proof.
  intros L H. unfold toRad.
  assert (S1 : smallF (-46) v).
  { apply (between_small (-90) 90); auto; vm_compute; congruence. }
  assert (S2 : smallF (-51) Math_PI) by (vm_compute; congruence).
  pose proof (mul_small v Math_PI (-46) (-51) S1 S2 ltac:(vm_compute; congruence)) as S3.
  apply (smallF_finite _ _ (div_small _ 180 _ S3 eq_refl eq_refl ltac:(vm_compute; congruence))).
Qed.

Lemma cos_square_finite x :
  is_finite x = true -> is_finite (Math_cos host x * Math_cos host x) = true.
Proof.
  intros H. pose proof (cos_range host math x H) as R.
  apply andb_true_iff in R. destruct R as [R1 R2].
  assert (S : smallF (-52) (Math_cos host x)).
  { apply (between_small (-1) 1); auto; vm_compute; congruence. }
  apply (smallF_finite _ _ (mul_small _ _ _ _ S S ltac:(vm_compute; congruence))).
Qed.

Lemma haversine_self a : coordinate a = true -> haversineMeters host a a = 0%float.
Proof.
  unfold coordinate. intros H.
  apply andb_true_iff in H. destruct H as [H H4].
  apply andb_true_iff in H. destruct H as [H H3].
  apply andb_true_iff in H. destruct H as [H1 H2].
  assert (F1 : is_finite (lat a) = true) by (apply (between_finite (-90) 90); auto).
  assert (F2 : is_finite (lng a) = true) by (apply (between_finite (-180) 180); auto).
  unfold haversineMeters. cbv zeta.
  rewrite (sub_self _ F1), (sub_self _ F2).
  change (toRad 0 / 2)%float with 0%float.
  rewrite (sin_zero host math).
  change (0 * 0)%float with 0%float.
  set (c := Math_cos host (toRad (lat a))).
  assert (Zc : is_zero (c * c * 0 * 0) = true).
  { apply mul_zero, zero_finite, mul_zero, cos_square_finite, toRad_finite; assumption. }
  rewrite (zero_add_zero _ Zc).
  rewrite (sqrt_of_zero host math 0 eq_refl).
  change (1 - 0)%float with 1%float.
  rewrite (sqrt_of_one host math), (atan2_of_zero host math 0 eq_refl).
  reflexivity.
Qed.

End Haversine.


Lemma mathTable_conforms : EcmaMath mathTable.
Proof.
  split; cbn.
  - reflexivity.
  - intros x H. destruct (abs x =? _)%float; [ reflexivity | ]. now rewrite H.
  - apply sqrt_zero.
  - reflexivity.
  - apply sqrt_sign.
  - reflexivity.
  - intros y x H. destruct (is_nan x); [ reflexivity | now apply sign_notNegative ].
Qed.



End HaversineFacts.


(** * More about the tracking page

    Facts about the error message, the route on display, the position fix,
    the one-shot read, sessions without destination and the buttons beside
    the map. *)

Module TrackingPageFacts.
Import TrackingPage.

(** ** Proof tools *)


Ltac reads_simpl :=
  unfold oneShotReads, mapWork; cbn;
  rewrite ?flat_map_app, ?filter_app; cbn; rewrite ?app_nil_r.

Ltac leaves_ok :=
  split; cbn; reads_simpl; solve [ auto | congruence | discriminate ].

Section Leaves.

Variable host : Host.

Lemma leaves_refl d p r s : leaves d p r s s.
Proof. split; auto. Qed.

Lemma leaves_trans d p r s1 s2 s3 :
  leaves d p r s1 s2 -> leaves d p r s2 s3 -> leaves d p r s1 s3.
Proof.
  intros [] []. split; auto; intros E;
    repeat match goal with H : _ = true -> _ |- _ => specialize (H E) end; congruence.
Qed.

Lemma leaves_less d p r d' p' r' s s' :
  leaves d p r s s' ->
  (d' = true -> d = true) -> (p' = true -> p = true) -> (r' = true -> r = true) ->
  leaves d' p' r' s s'.
Proof. intros [] Hd Hp Hr. split; auto. Qed.

Lemma computeRouteFrom_leaves s o : leaves true true true s (computeRouteFrom s o).
Proof. unfold computeRouteFrom, route. cases; leaves_ok. Qed.

Lemma initializeMap_leaves s org d : leaves true true true s (initializeMap s org d).
Proof.
  unfold initializeMap.
  destruct (negb (googleMaps s)); [ leaves_ok | ].
  match goal with |- context [emit NewMap ?x] =>
    set (s1 := if negb (googleMapRef s) && mapRef s then emit NewMap x else s) end.
  assert (K1 : leaves true true true s s1) by (subst s1; cases; leaves_ok).
  clearbody s1. apply (leaves_trans _ _ _ _ _ _ K1).
  destruct (negb (googleMapRef s1)); [ leaves_ok | ].
  destruct org as [o|].
  - eapply leaves_trans; [ | apply computeRouteFrom_leaves ].
    cases; leaves_ok.
  - cases; leaves_ok.
Qed.

Lemma initializeEffect_leaves s ready org :
  leaves true true false s (initializeEffect host s ready org).
Proof.
  unfold initializeEffect.
  destruct ready; [ | apply leaves_refl ].
  destruct (destination s); [ | apply leaves_refl ].
  assert (W : forall o, leaves true true false s (initializeMap s o l)).
  { intros o. apply (leaves_less _ _ _ _ _ _ _ _ (initializeMap_leaves s o l)); auto. }
  destruct org; [ apply W | ].
  destruct (geolocation host); [ leaves_ok | apply W ].
Qed.

(** An effect run makes a one-shot read only when the map is ready, the
    origin unknown and geolocation available; then it makes one, with a
    timeout of 8 s. *)
Lemma initializeEffect_reads s ready org :
  oneShotReads (log (initializeEffect host s ready org)) =
  oneShotReads (log s) ++
  match ready, destination s, org with
  | true, Some _, None => if geolocation host then [8000] else []
  | _, _, _ => []
  end.
Proof.
  unfold initializeEffect.
  destruct ready; [ | now rewrite app_nil_r ].
  destruct (destination s); [ | now rewrite app_nil_r ].
  destruct org.
  - rewrite app_nil_r. now apply initializeMap_leaves.
  - destruct (geolocation host).
    + reads_simpl. reflexivity.
    + rewrite app_nil_r. now apply initializeMap_leaves.
Qed.

Lemma loaderEffect_leaves s : leaves true true true s (loaderEffect host s).
Proof. unfold loaderEffect. cases; leaves_ok. Qed.

Lemma liveCleanupFn_leaves s : leaves true true true s (liveCleanupFn s).
Proof. unfold liveCleanupFn, clearWatch. cases; leaves_ok. Qed.

Lemma liveEffect_leaves s live : leaves true true true s (liveEffect host s live).
Proof. unfold liveEffect, watchPosition, clearWatch. cases; leaves_ok. Qed.

Lemma fail_leaves s : leaves true true true s (fail s).
Proof. unfold fail. leaves_ok. Qed.

Lemma routeCallback_leaves s id result status :
  leaves false true true s
    (routeCallback
       (set_routes (remove Nat.eq_dec id (pendingRoutes s)) (nextRouteId s) s)
       result status).
Proof. unfold routeCallback. cases; leaves_ok. Qed.

Lemma oneShotResolved_leaves s n r d :
  leaves true false true s (oneShotResolved (set_pendingOneShots n s) r d).
Proof.
  unfold oneShotResolved.
  eapply leaves_trans;
    [ | apply (leaves_less _ _ _ _ _ _ _ _ (initializeMap_leaves _ _ _)); auto ].
  cases; leaves_ok.
Qed.

Lemma success_leaves s pos now : leaves true false true s (success host s pos now).
Proof.
  unfold success.
  match goal with |- context [if googleMaps ?x then ?a else ?b] =>
    set (s1 := if googleMaps x then a else b) end.
  assert (K1 : leaves true false true s s1) by (subst s1; cases; leaves_ok).
  clearbody s1. apply (leaves_trans _ _ _ _ _ _ K1).
  destruct (_ || _); [ | apply leaves_refl ].
  destruct (_ && _); [ | leaves_ok ].
  eapply leaves_trans;
    [ | apply (leaves_less _ _ _ _ _ _ _ _ (computeRouteFrom_leaves _ _)); auto ].
  leaves_ok.
Qed.

Lemma fiber_change_leaves d p r (s s1 s' : State) :
  leaves d p r s s1 -> comp s' = comp s1 -> refs s' = refs s1 -> world s' = world s1 ->
  leaves d p r s s'.
Proof. intros [] Hc Hr Hw. split; rewrite ?Hc, ?Hr, ?Hw; auto. Qed.

Lemma commit_leaves s : leaves true true false s (commit host s).
Proof.
  assert (L : forall a b, leaves true true true a b -> leaves true true false a b).
  { intros a b K. apply (leaves_less _ _ _ _ _ _ _ _ K); auto. }
  unfold commit. destruct (phase s); [ | | apply leaves_refl ].
  - set (s3 := liveEffect host _ _).
    apply (fiber_change_leaves _ _ _ _ s3); try reflexivity. subst s3.
    eapply leaves_trans; [ apply L, loaderEffect_leaves | ].
    eapply leaves_trans; [ apply initializeEffect_leaves | ].
    apply L, liveEffect_leaves.
  - set (s1 := if _ && liveCleanup s then _ else s).
    assert (K1 : leaves true true false s s1).
    { subst s1. destruct (_ && _); [ | apply leaves_refl ].
      apply (fiber_change_leaves _ _ _ _ (liveCleanupFn s)); try reflexivity.
      apply L, liveCleanupFn_leaves. }
    clearbody s1.
    set (s2 := if _ || _ then initializeEffect host s1 _ _ else s1).
    assert (K2 : leaves true true false s1 s2).
    { subst s2. destruct (_ || _); [ apply initializeEffect_leaves | apply leaves_refl ]. }
    clearbody s2.
    set (s3 := if negb _ then liveEffect host s2 _ else s2).
    assert (K3 : leaves true true false s2 s3).
    { subst s3. destruct (negb _); [ apply L, liveEffect_leaves | apply leaves_refl ]. }
    clearbody s3.
    apply (fiber_change_leaves _ _ _ _ s3); try reflexivity.
    eapply leaves_trans; [ exact K1 | ]. eapply leaves_trans; eassumption.
Qed.

Lemma unmount_leaves s : leaves true true true s (unmount s).
Proof.
  unfold unmount. destruct (phase s); try apply leaves_refl.
  destruct (liveCleanup _).
  - apply (fiber_change_leaves _ _ _ _ (liveCleanupFn (set_loaderInterval false s)));
      try reflexivity.
    eapply leaves_trans; [ | apply liveCleanupFn_leaves ]. leaves_ok.
  - leaves_ok.
Qed.

Lemma step_leaves s e :
  leaves (negb (isRouteResult e)) (negb (isFix e)) (negb (isCommit e)) s (step host s e).
Proof.
  destruct e; cbn.
  - apply commit_leaves.
  - apply unmount_leaves.
  - cases; leaves_ok.
  - cases; leaves_ok.
  - cases; leaves_ok.
  - cases; leaves_ok.
  - destruct (pendingOneShots s); [ apply leaves_refl | ].
    destruct (destination s); [ | apply leaves_refl ].
    apply oneShotResolved_leaves.
  - destruct (mem _ _); [ apply success_leaves | apply leaves_refl ].
  - destruct (mem _ _); [ apply fail_leaves | apply leaves_refl ].
  - destruct (mem _ _); [ apply routeCallback_leaves | apply leaves_refl ].
Qed.

Lemma run_leaves s evs :
  leaves (forallb (fun e => negb (isRouteResult e)) evs)
         (forallb (fun e => negb (isFix e)) evs)
         (forallb (fun e => negb (isCommit e)) evs) s (run host s evs).
Proof.
  revert s. induction evs as [|e evs IH]; intros s; [ apply leaves_refl | ].
  change (run host s (e :: evs)) with (run host (step host s e) evs). cbn [forallb].
  eapply leaves_trans.
  - apply (leaves_less _ _ _ _ _ _ _ _ (step_leaves s e)); intros E;
      apply andb_true_iff in E; apply E.
  - apply (leaves_less _ _ _ _ _ _ _ _ (IH _)); intros E;
      apply andb_true_iff in E; apply E.
Qed.

End Leaves.

(** ** The error, the route on display and the position fix *)

Section Display.

Variable host : Host.

Lemma oneShotResolved_fix (s : State) n r d :
  let s1 := oneShotResolved (set_pendingOneShots n s) r d in
  lastPositionRef s1 = match r with Some c => Some c | None => lastPositionRef s end /\
  origin s1 = match r with Some c => Some c | None => origin s end.
Proof.
  unfold oneShotResolved.
  match goal with |- context [initializeMap ?x None d] =>
    pose proof (initializeMap_leaves x None d) as K;
    set (s1 := initializeMap x None d) in *
  end.
  cbv zeta. rewrite (lv_lastPosition _ _ _ _ _ K eq_refl), (lv_origin _ _ _ _ _ K eq_refl).
  destruct r; split; reflexivity.
Qed.

Lemma step_fixShown o s e : fixShown o s -> fixShown o (step host s e).
Proof.
  unfold fixShown. intros H.
  destruct (isFix e) eqn:E.
  - destruct e; try discriminate; cbn.
    + destruct (pendingOneShots s); auto. destruct (destination s); auto.
      destruct (oneShotResolved_fix s n r l) as [K1 K2]. rewrite K1, K2.
      destruct r; auto.
    + destruct (mem _ _); auto.
      destruct (success_fields host s pos now) as (_ & _ & K1 & _ & _ & K2 & _).
      now rewrite K2, K1.
  - pose proof (step_leaves host s e) as K. rewrite E in K.
    now rewrite (lv_lastPosition _ _ _ _ _ K eq_refl), (lv_origin _ _ _ _ _ K eq_refl).
Qed.

Lemma run_fixShown o s evs : fixShown o s -> fixShown o (run host s evs).
Proof.
  revert s. induction evs as [|e evs IH]; intros s H; [ exact H | ].
  change (fixShown o (run host (step host s e) evs)). apply IH, step_fixShown, H.
Qed.

Lemma step_summary s e : summaryShown s -> summaryShown (step host s e).
Proof.
  unfold summaryShown. intros H.
  destruct (isRouteResult e) eqn:E.
  - destruct e; try discriminate; cbn.
    destruct (mem _ _); auto.
    unfold routeCallback. cases; auto.
  - pose proof (step_leaves host s e) as K. rewrite E in K.
    now rewrite (lv_rendered _ _ _ _ _ K eq_refl), (lv_routeInfo _ _ _ _ _ K eq_refl).
Qed.

Lemma run_summary s evs : summaryShown s -> summaryShown (run host s evs).
Proof.
  revert s. induction evs as [|e evs IH]; intros s H; [ exact H | ].
  change (summaryShown (run host (step host s e) evs)). apply IH, step_summary, H.
Qed.

End Display.

(** ** The one-shot position read *)

Section OneShot.

Variable host : Host.

Ltac loader_ok := split; cbn; reflexivity.

Lemma keeps_loader_refl s : keeps_loader s s.
Proof. split; reflexivity. Qed.

Lemma keeps_loader_trans s1 s2 s3 :
  keeps_loader s1 s2 -> keeps_loader s2 s3 -> keeps_loader s1 s3.
Proof. intros [] []. split; congruence. Qed.

Lemma computeRouteFrom_keeps_loader s o : keeps_loader s (computeRouteFrom s o).
Proof. unfold computeRouteFrom, route. cases; loader_ok. Qed.

Lemma initializeMap_keeps_loader s org d : keeps_loader s (initializeMap s org d).
Proof.
  unfold initializeMap.
  destruct (negb (googleMaps s)); [ loader_ok | ].
  match goal with |- context [emit NewMap ?x] =>
    set (s1 := if negb (googleMapRef s) && mapRef s then emit NewMap x else s) end.
  assert (K1 : keeps_loader s s1) by (subst s1; cases; loader_ok).
  clearbody s1. apply (keeps_loader_trans _ _ _ K1).
  destruct (negb (googleMapRef s1)); [ loader_ok | ].
  destruct org as [o|].
  - eapply keeps_loader_trans; [ | apply computeRouteFrom_keeps_loader ].
    cases; loader_ok.
  - cases; loader_ok.
Qed.

Lemma initializeEffect_keeps_loader s ready org :
  keeps_loader s (initializeEffect host s ready org).
Proof.
  unfold initializeEffect.
  destruct ready; [ | apply keeps_loader_refl ].
  destruct (destination s); [ | apply keeps_loader_refl ].
  destruct org; [ apply initializeMap_keeps_loader | ].
  destruct (geolocation host); [ loader_ok | apply initializeMap_keeps_loader ].
Qed.

Lemma liveCleanupFn_keeps_loader s : keeps_loader s (liveCleanupFn s).
Proof. unfold liveCleanupFn, clearWatch. cases; loader_ok. Qed.

Lemma liveEffect_keeps_loader s live :
  let s' := liveEffect host s live in
  phase s' = phase s /\ mapReady s' = mapReady s /\ dep_mapReady s' = dep_mapReady s /\
  dep_originVer s' = dep_originVer s /\ loaderInterval s' = loaderInterval s /\
  scriptOnload s' = scriptOnload s /\ destination s' = destination s.
Proof. unfold liveEffect, watchPosition, clearWatch. cases; repeat split. Qed.

Lemma success_keeps_loader s pos now : keeps_loader s (success host s pos now).
Proof.
  unfold success.
  match goal with |- context [if googleMaps ?x then ?a else ?b] =>
    set (s1 := if googleMaps x then a else b) end.
  assert (K1 : keeps_loader s s1) by (subst s1; cases; loader_ok).
  clearbody s1. apply (keeps_loader_trans _ _ _ K1).
  destruct (_ || _); [ | apply keeps_loader_refl ].
  destruct (_ && _); [ | loader_ok ].
  eapply keeps_loader_trans; [ | apply computeRouteFrom_keeps_loader ].
  loader_ok.
Qed.

Lemma oneShotResolved_keeps_loader s n r d :
  keeps_loader s (oneShotResolved (set_pendingOneShots n s) r d).
Proof.
  unfold oneShotResolved.
  eapply keeps_loader_trans; [ | apply initializeMap_keeps_loader ].
  cases; loader_ok.
Qed.

Lemma routeCallback_keeps_loader s id result status :
  keeps_loader s
    (routeCallback
       (set_routes (remove Nat.eq_dec id (pendingRoutes s)) (nextRouteId s) s)
       result status).
Proof. unfold routeCallback. cases; loader_ok. Qed.

Lemma commit_reads (s : State) :
  oneShotReads (log (commit host s)) =
  oneShotReads (log s) ++ (if commitReads host s then [8000] else []).
Proof.
  unfold commit, commitReads. destruct (phase s); cbn -[orb andb negb Bool.eqb Nat.eqb].
  - rewrite (lv_reads _ _ _ _ _ (liveEffect_leaves host _ _) eq_refl).
    rewrite initializeEffect_reads.
    rewrite (lv_reads _ _ _ _ _ (loaderEffect_leaves host _) eq_refl).
    rewrite (kw_destination _ _ (loaderEffect_keeps_watch host _)).
    destruct (mapReady s), (destination s), (origin s), (geolocation host); reflexivity.
  - set (s1 := if _ && liveCleanup s then _ else s).
    assert (K1 : oneShotReads (log s1) = oneShotReads (log s) /\ destination s1 = destination s).
    { subst s1. destruct (_ && liveCleanup s); [ cbn | auto ].
      split; [ apply (lv_reads _ _ _ _ _ (liveCleanupFn_leaves _) eq_refl)
             | apply (kr_destination _ _ (liveCleanupFn_keeps_route _)) ]. }
    destruct K1 as [K1 K1'].
    set (c2 := negb (Bool.eqb (mapReady s) _) || _). clearbody s1.
    set (s2 := if c2 then initializeEffect host s1 _ _ else s1).
    assert (K2 : oneShotReads (log s2) =
                 oneShotReads (log s) ++
                 (if c2 && mapReady s
                     && match destination s with Some _ => true | None => false end
                     && match origin s with Some _ => false | None => true end
                     && geolocation host then [8000] else [])).
    { subst s2. destruct c2; cbn.
      - rewrite initializeEffect_reads, K1, K1'.
        destruct (mapReady s), (destination s), (origin s), (geolocation host); reflexivity.
      - now rewrite app_nil_r. }
    clearbody s2 c2. rewrite <- K2.
    destruct (negb (Bool.eqb (liveTracking s) _)); [ | reflexivity ].
    apply (lv_reads _ _ _ _ _ (liveEffect_leaves host _ _) eq_refl).
  - now rewrite app_nil_r.
Qed.

Lemma commit_loader (s : State) :
  phase s <> Unmounted ->
  let s' := commit host s in
  phase s' = Mounted /\ dep_mapReady s' = mapReady s /\ dep_originVer s' = originVer s /\
  (phase s = Mounted -> mapReady s' = mapReady s).
Proof.
  intros Hp. unfold commit. destruct (phase s) eqn:E; [ | | congruence ].
  - cbn. repeat split; auto. discriminate.
  - cbv zeta.
    set (s1 := if _ && liveCleanup s then _ else s).
    assert (K1 : phase s1 = Mounted /\ mapReady s1 = mapReady s).
    { subst s1. destruct (_ && liveCleanup s); cbn; auto.
      pose proof (liveCleanupFn_keeps_loader s) as []. split; congruence. }
    clearbody s1.
    set (s2 := if _ || _ then initializeEffect host s1 _ _ else s1).
    assert (K2 : phase s2 = Mounted /\ mapReady s2 = mapReady s).
    { subst s2. destruct (_ || _); auto.
      pose proof (initializeEffect_keeps_loader s1 (mapReady s) (origin s)) as [].
      split; intuition congruence. }
    clearbody s2.
    set (s3 := if negb _ then liveEffect host s2 _ else s2).
    assert (K3 : phase s3 = Mounted /\ mapReady s3 = mapReady s).
    { subst s3. destruct (negb _); auto.
      destruct (liveEffect_keeps_loader s2 (liveTracking s)) as (P1 & P2 & _).
      split; intuition congruence. }
    clearbody s3. cbn. intuition.
Qed.

Lemma commit_osinv s : OneShotInv s -> OneShotInv (commit host s).
Proof.
  intros H.
  destruct (phase s) eqn:Hp.
  - destruct H as [H1 H2 H3 H4 H5 H6].
    destruct (H1 Hp) as (Hm & Hd & Hi & Ho).
    pose proof (commit_reads s) as R. pose proof (commit_leaves host s) as K.
    destruct (commit_loader s) as (C1 & C2 & C3 & _); [ congruence | ].
    assert (E : commitReads host s = false) by (unfold commitReads; rewrite Hm, Hp; reflexivity).
    rewrite E, app_nil_r in R.
    split; rewrite ?R, ?C1, ?C2, ?C3; auto; try congruence.
    + intros _. now rewrite (lv_originVer _ _ _ _ _ K eq_refl).
    + intros Hne. destruct (H5 Hne). congruence.
  - destruct H as [H1 H2 H3 H4 H5 H6].
    pose proof (commit_reads s) as R. pose proof (commit_leaves host s) as K.
    destruct (commit_loader s) as (C1 & C2 & C3 & C4); [ congruence | ].
    specialize (C4 Hp).
    assert (E : commitReads host s = true ->
                oneShotReads (log s) = [] /\ mapReady s = true).
    { unfold commitReads. rewrite Hp. intros E. bool_norm.
      destruct E as ((((E1 & E2) & _) & E3) & _). split; [ | exact E2 ].
      destruct (origin s) eqn:Ho; [ discriminate | ].
      rewrite (H3 eq_refl), Nat.eqb_refl in E1. cbn in E1.
      destruct (oneShotReads (log s)) eqn:Hr; [ reflexivity | ].
      destruct H5 as [H5 _]; [ discriminate | ].
      rewrite H5, E2 in E1. destruct E1 as [E1|E1]; discriminate. }
    split; rewrite ?R, ?C1, ?C2, ?C3, ?C4; auto; try congruence.
    + intros _. now rewrite (lv_originVer _ _ _ _ _ K eq_refl).
    + destruct (commitReads host s); [ | now rewrite app_nil_r ].
      destruct E as [E _]; [ reflexivity | ]. rewrite E. cbn. lia.
    + intros Hne. split; [ | discriminate ].
      destruct (commitReads host s); [ now apply E | ].
      rewrite app_nil_r in Hne. destruct (H5 Hne) as [H5' _]. auto.
    + apply Forall_app. split; [ assumption | ].
      destruct (commitReads host s); repeat constructor.
  - unfold commit. rewrite Hp. exact H.
Qed.

Lemma frame_osinv (s s' : State) :
  OneShotInv s -> keeps_loader s s' -> leaves false false true s s' ->
  (origin s' = None -> origin s = None /\ originVer s' = originVer s) ->
  OneShotInv s'.
Proof.
  intros [H1 H2 H3 H4 H5 H6] [] K Ho.
  pose proof (lv_reads _ _ _ _ _ K eq_refl) as R.
  split; rewrite ?R; auto.
  - intros E. rewrite kl_phase0 in E. destruct (H1 E) as (? & ? & ? & ?).
    repeat split; congruence.
  - intros E. rewrite kl_dep0 in E. rewrite kl_mapReady0. auto.
  - intros E. destruct (Ho E) as [E1 E2]. rewrite E2. rewrite H3; congruence.
  - intros E. destruct (H5 E). split; congruence.
Qed.

Lemma unmount_loader (s : State) :
  phase s = Mounted ->
  let s' := unmount s in
  phase s' = Unmounted /\ mapReady s' = mapReady s /\
  dep_mapReady s' = dep_mapReady s /\ dep_originVer s' = dep_originVer s.
Proof.
  intros Hp. unfold unmount. rewrite Hp.
  destruct (liveCleanup _); cbn; auto.
  pose proof (liveCleanupFn_keeps_loader (set_loaderInterval false s)) as [].
  repeat split; assumption.
Qed.

Lemma unmount_osinv s : OneShotInv s -> OneShotInv (unmount s).
Proof.
  intros H. destruct (phase s) eqn:Hp; try (unfold unmount; rewrite Hp; exact H).
  destruct (unmount_loader s Hp) as (U1 & U2 & U3 & U4).
  pose proof (unmount_leaves s) as K.
  pose proof (lv_reads _ _ _ _ _ K eq_refl) as R.
  pose proof (lv_origin _ _ _ _ _ K eq_refl) as R1.
  pose proof (lv_originVer _ _ _ _ _ K eq_refl) as R2.
  destruct H as [H1 H2 H3 H4 H5 H6].
  split; rewrite ?R, ?R1, ?R2, ?U1, ?U2, ?U3, ?U4; auto; try discriminate.
  intros E. destruct (H5 E). split; [ assumption | discriminate ].
Qed.

Lemma step_osinv s e : OneShotInv s -> OneShotInv (step host s e).
Proof.
  intros H. destruct e.
  - now apply commit_osinv.
  - now apply unmount_osinv.
  - cbn. destruct H. cases; split; cbn; bool_norm; intuition congruence.
  - cbn. destruct H. cases; split; cbn; bool_norm; intuition congruence.
  - cbn. destruct H. cases; split; cbn; bool_norm; intuition congruence.
  - cbn. destruct H. cases; split; cbn; bool_norm; intuition congruence.
  - cbn. destruct (pendingOneShots s) eqn:Hn; auto.
    destruct (destination s) eqn:Hd; auto.
    apply (frame_osinv s);
      [ exact H | apply oneShotResolved_keeps_loader
      | apply (leaves_less _ _ _ _ _ _ _ _ (oneShotResolved_leaves s n r l));
        auto; discriminate | ].
    destruct (oneShotResolved_fields s n r l) as (K1 & K2 & _).
    rewrite K1, K2. destruct r; [ discriminate | auto ].
  - cbn. destruct (mem _ _); auto.
    apply (frame_osinv s);
      [ exact H | apply success_keeps_loader
      | apply (leaves_less _ _ _ _ _ _ _ _ (success_leaves host s pos now));
        auto; discriminate | ].
    destruct (success_fields host s pos now) as (_ & _ & K1 & _). rewrite K1. discriminate.
  - cbn. destruct (mem _ _); auto.
    pose proof (fail_leaves s) as K.
    apply (frame_osinv s);
      [ exact H | unfold fail; split; reflexivity
      | apply (leaves_less _ _ _ _ _ _ _ _ K); auto | ].
    rewrite (lv_origin _ _ _ _ _ K eq_refl), (lv_originVer _ _ _ _ _ K eq_refl). auto.
  - cbn. destruct (mem _ _); auto.
    pose proof (routeCallback_leaves s id result status) as K.
    apply (frame_osinv s);
      [ exact H | apply routeCallback_keeps_loader
      | apply (leaves_less _ _ _ _ _ _ _ _ K); auto | ].
    rewrite (lv_origin _ _ _ _ _ K eq_refl), (lv_originVer _ _ _ _ _ K eq_refl). auto.
Qed.

Lemma init_osinv o d g t : OneShotInv (init o d g t).
Proof. split; cbn; auto; try congruence. Qed.

Lemma run_osinv s evs : OneShotInv s -> OneShotInv (run host s evs).
Proof.
  revert s. induction evs as [|e evs IH]; intros s H; [ exact H | ].
  change (OneShotInv (run host (step host s e) evs)). apply IH, step_osinv, H.
Qed.

(** With the origin known no commit makes the read. *)
Lemma step_no_read (s : State) e :
  origin s <> None -> oneShotReads (log (step host s e)) = oneShotReads (log s).
Proof.
  intros Ho. destruct (isCommit e) eqn:E.
  - destruct e; try discriminate. cbn. rewrite commit_reads.
    unfold commitReads. destruct (origin s); [ | congruence ].
    rewrite andb_false_r. cbn. now rewrite app_nil_r.
  - pose proof (step_leaves host s e) as K. rewrite E in K.
    apply (lv_reads _ _ _ _ _ K eq_refl).
Qed.

Lemma run_no_read (s : State) evs :
  origin s <> None -> oneShotReads (log (run host s evs)) = oneShotReads (log s).
Proof.
  revert s. induction evs as [|e evs IH]; intros s H; [ reflexivity | ].
  change (run host s (e :: evs)) with (run host (step host s e) evs).
  rewrite IH; [ now apply step_no_read | ].
  apply (lv_known _ _ _ _ _ (step_leaves host s e)), H.
Qed.

End OneShot.

(** ** A session without destination *)

Section MissingDestination.

Variable host : Host.

Ltac nd_ok :=
  try congruence; bool_norm; try solve [ exfalso; intuition congruence ];
  split; cbn; reads_simpl;
  solve [ auto | congruence
        | repeat match goal with H : phase _ = _ |- _ => rewrite H in * end; auto; congruence ].

Lemma liveCleanupFn_nodest s : NoDestination s -> NoDestination (liveCleanupFn s).
Proof. intros []. unfold liveCleanupFn, clearWatch. cases; nd_ok. Qed.

Lemma liveEffect_nodest s live : NoDestination s -> NoDestination (liveEffect host s live).
Proof. intros []. unfold liveEffect, watchPosition, clearWatch. cases; nd_ok. Qed.

Lemma success_nodest s pos now : NoDestination s -> NoDestination (success host s pos now).
Proof.
  intros []. unfold success.
  match goal with |- context [if googleMaps ?x then ?a else ?b] =>
    set (s1 := if googleMaps x then a else b) end.
  assert (I1 : NoDestination s1) by (subst s1; cases; nd_ok).
  clearbody s1. destruct I1.
  destruct (_ || _); [ | nd_ok ].
  cbn. rewrite nd_service1. cbn. nd_ok.
Qed.

Lemma fiber_change_nodest (s s' : State) :
  NoDestination s ->
  comp s' = comp s -> refs s' = refs s -> world s' = world s ->
  loaderInterval s' = false -> phase s' = phase s ->
  NoDestination s'.
Proof.
  intros [] Hc Hr Hw Hi Hp. split; rewrite ?Hc, ?Hr, ?Hw, ?Hp; auto.
Qed.

Lemma commit_nodest s : NoDestination s -> NoDestination (commit host s).
Proof.
  intros H. unfold commit. destruct (phase s) eqn:Hp; auto.
  - assert (E : initializeEffect host (loaderEffect host s) (mapReady s) (origin s)
                = setError missingDestination s).
    { unfold initializeEffect, loaderEffect. rewrite (nd_destination _ H). cbn.
      rewrite (nd_destination _ H). now destruct (mapReady s). }
    rewrite E.
    assert (I1 : NoDestination (set_phase Mounted (setError missingDestination s))).
    { destruct H. split; cbn; auto. }
    assert (I2 : NoDestination (liveEffect host
                   (set_phase Mounted (setError missingDestination s)) (liveTracking s)))
      by now apply liveEffect_nodest.
    revert I2. unfold liveEffect, watchPosition, clearWatch.
    cases; intros []; split; cbn in *; auto.
  - set (s1 := if _ && liveCleanup s then _ else s).
    assert (I1 : NoDestination s1 /\ phase s1 = Mounted).
    { subst s1. destruct (_ && liveCleanup s); [ | auto ].
      pose proof (liveCleanupFn_nodest s H) as I.
      pose proof (kr_phase _ _ (liveCleanupFn_keeps_route s)) as P. split; [ | cbn; congruence ].
      apply (fiber_change_nodest (liveCleanupFn s)); auto; cbn; try reflexivity.
      apply I. }
    clearbody s1. destruct I1 as [I1 P1].
    set (s2 := if _ || _ then initializeEffect host s1 _ _ else s1).
    assert (E : s2 = s1).
    { subst s2. destruct (_ || _); auto.
      unfold initializeEffect. rewrite (nd_destination _ I1). now destruct (mapReady s). }
    rewrite E. clear E s2.
    set (s3 := if negb _ then liveEffect host s1 _ else s1).
    assert (I3 : NoDestination s3 /\ phase s3 = Mounted).
    { subst s3. destruct (negb _); auto. split; [ now apply liveEffect_nodest | ].
      rewrite (kr_phase _ _ (liveEffect_keeps_route host _ _)). exact P1. }
    clearbody s3. destruct I3 as [I3 P3].
    apply (fiber_change_nodest s3); auto. apply I3.
Qed.

Lemma unmount_nodest s : NoDestination s -> NoDestination (unmount s).
Proof.
  intros H. unfold unmount. destruct (phase s) eqn:Hp; auto.
  assert (I0 : NoDestination (set_loaderInterval false s)).
  { apply (fiber_change_nodest s); auto. }
  destruct (liveCleanup _).
  - pose proof (liveCleanupFn_nodest _ I0) as I.
    pose proof (kr_phase _ _ (liveCleanupFn_keeps_route (set_loaderInterval false s))) as P.
    cbn in P. rewrite Hp in P.
    destruct I. split; cbn; auto. now rewrite nd_error0, P.
  - destruct I0. cbn in *. rewrite Hp in *. split; cbn; auto.
Qed.

Lemma step_nodest s e : NoDestination s -> NoDestination (step host s e).
Proof.
  intros H. destruct e; cbn.
  - now apply commit_nodest.
  - now apply unmount_nodest.
  - destruct H. cases; nd_ok.
  - destruct H. cases; nd_ok.
  - destruct H. cases; nd_ok.
  - destruct H. cases; nd_ok.
  - rewrite (nd_oneShots _ H). exact H.
  - destruct (mem _ _); auto. now apply success_nodest.
  - destruct (mem _ _); auto. destruct H. unfold fail. nd_ok.
  - rewrite (nd_pending _ H). exact H.
Qed.

Lemma init_nodest o g t : NoDestination (init o None g t).
Proof. split; reflexivity. Qed.

Lemma run_nodest s evs : NoDestination s -> NoDestination (run host s evs).
Proof.
  revert s. induction evs as [|e evs IH]; intros s H; [ exact H | ].
  change (NoDestination (run host (step host s e) evs)). apply IH, step_nodest, H.
Qed.

End MissingDestination.

(** ** What the tracking page guarantees beyond the route gating *)

Section PageFacts.

Variable host : Host.

(** X3.  Nothing clears the error: once an error message is set it stays
    set through every later event, a successful directions result
    included. *)
Theorem error_never_cleared (s : State) evs :
  error s <> None -> error (run host s evs) <> None.
Proof. apply (lv_error _ _ _ _ _ (run_leaves host s evs)). Qed.

(** X4.  The route and the summary on display change only when a
    directions result arrives: commits, toggling live tracking, position
    samples, stream errors, script events and leaving the page keep them. *)
Theorem display_changes_only_on_result (s : State) evs :
  forallb (fun e => negb (isRouteResult e)) evs = true ->
  rendered (run host s evs) = rendered s /\ routeInfo (run host s evs) = routeInfo s.
Proof.
  intros H. pose proof (run_leaves host s evs) as K. rewrite H in K.
  split; [ apply (lv_rendered _ _ _ _ _ K eq_refl) | apply (lv_routeInfo _ _ _ _ _ K eq_refl) ].
Qed.

(** X5.  In every state of a session the summary is the first leg of the
    first route of the directions result on display, and there is none
    while no result is on display. *)
Theorem summary_matches_rendered_route o d g t evs :
  let s := run host (init o d g t) evs in
  routeInfo s = match rendered s with Some r => firstLeg r | None => None end.
Proof. apply run_summary. reflexivity. Qed.

(** X6.  In every state of a session the origin is the latest position fix
    (live sample or one-shot read), and the origin of the query while there
    has been no fix. *)
Theorem origin_is_latest_fix o d g t evs :
  let s := run host (init o d g t) evs in
  origin s = match lastPositionRef s with Some p => Some p | None => o end.
Proof. apply run_fixShown. reflexivity. Qed.

(** X7.  A session makes at most one one-shot position read, with a timeout
    of 8 s, and none when the query gave the origin. *)
Theorem one_shot_read_at_most_once o d g t evs :
  let s := run host (init o d g t) evs in
  (List.length (oneShotReads (log s)) <= 1)%nat /\
  Forall (fun timeout => timeout = 8000) (oneShotReads (log s)) /\
  match o with Some _ => oneShotReads (log s) = [] | None => True end.
Proof.
  cbv zeta. pose proof (run_osinv host _ evs (init_osinv o d g t)) as [].
  repeat split; auto.
  destruct o; [ | exact I ].
  rewrite run_no_read; [ reflexivity | discriminate ].
Qed.

(** X8.  A session opened without destination coordinates never gets a map:
    [mapReady] stays false, no map is created, no directions request and no
    one-shot read is made, nothing is rendered, and from the first commit
    on the error is the missing-destination message. *)
Theorem missing_destination_is_terminal o g t evs :
  let s := run host (init o None g t) evs in
  mapReady s = false /\ mapWork (log s) = [] /\
  rendered s = None /\ routeInfo s = None /\
  error s = match phase s with NotMounted => None | _ => Some missingDestination end.
Proof.
  cbv zeta. pose proof (run_nodest host _ evs (init_nodest o g t)) as [].
  repeat split; assumption.
Qed.

End PageFacts.

Section ButtonFacts.

Variable host : Host.
Variable numberToString : float -> string.
Variable encodeURIComponent : string -> string.

Lemma runScreen_page sc evs : page (runScreen host sc evs) = run host (page sc) evs.
Proof.
  revert sc. induction evs as [|e evs IH]; intros sc; [ reflexivity | ].
  change (runScreen host sc (e :: evs)) with (runScreen host (stepScreen host sc e) evs).
  now rewrite IH.
Qed.

Lemma runScreen_app sc evs more :
  runScreen host sc (evs ++ more) = runScreen host (runScreen host sc evs) more.
Proof. apply fold_left_app. Qed.

Lemma step_phase (s : State) e :
  phase (step host s e) =
  match e, phase s with
  | Commit, NotMounted => Mounted
  | Unmount, Mounted => Unmounted
  | _, ph => ph
  end.
Proof.
  destruct e.
  - cbn [step]. rewrite commit_phase. now destruct (phase s).
  - cbn. unfold unmount. destruct (phase s) eqn:Hp; auto.
  - assert (K : phase (step host s ToggleLive) = phase s) by (cbn; cases; auto).
    rewrite K. now destruct (phase s).
  - assert (K : phase (step host s ScriptLoad) = phase s) by (cbn; cases; auto).
    rewrite K. now destruct (phase s).
  - assert (K : phase (step host s ScriptError) = phase s) by (cbn; cases; auto).
    rewrite K. now destruct (phase s).
  - assert (K : phase (step host s IntervalTick) = phase s) by (cbn; cases; auto).
    rewrite K. now destruct (phase s).
  - assert (K : phase (step host s (OneShotResult r)) = phase s).
    { cbn. destruct (pendingOneShots s); auto. destruct (destination s); auto.
      apply (kl_phase _ _ (oneShotResolved_keeps_loader s n r l)). }
    rewrite K. now destruct (phase s).
  - assert (K : phase (step host s (WatchSuccess id pos now)) = phase s).
    { cbn. destruct (mem _ _); auto. apply (kl_phase _ _ (success_keeps_loader host s pos now)). }
    rewrite K. now destruct (phase s).
  - assert (K : phase (step host s (WatchFail id)) = phase s) by (cbn; cases; auto).
    rewrite K. now destruct (phase s).
  - assert (K : phase (step host s (RouteResult id result status)) = phase s).
    { cbn. destruct (mem _ _); auto.
      apply (kl_phase _ _ (routeCallback_keeps_loader s id result status)). }
    rewrite K. now destruct (phase s).
Qed.

Lemma stepScreen_holds p d sc e :
  isFix e = false -> holds p d sc -> holds p d (stepScreen host sc e).
Proof.
  intros He [H|(Hph & Ho & Hd & Hr)]; unfold holds, stepScreen; cbn [page rendering].
  - left. rewrite step_phase, H. now destruct e.
  - pose proof (step_leaves host (page sc) e) as K. rewrite He in K.
    pose proof (lv_origin _ _ _ _ _ K eq_refl) as Ko.
    pose proof (step_phase (page sc) e) as Kp. rewrite Hph in Kp.
    rewrite Kp, Ko, step_destination, Hph, Ho, Hd.
    destruct e; try discriminate; auto.
    right. unfold render. rewrite Ho, Hd. auto.
Qed.

Lemma runScreen_holds p d sc evs :
  forallb (fun e => negb (isFix e)) evs = true -> holds p d sc ->
  holds p d (runScreen host sc evs).
Proof.
  revert sc. induction evs as [|e evs IH]; intros sc He H; [ exact H | ].
  cbn in He. apply andb_true_iff in He. destruct He as [He1 He2].
  change (runScreen host sc (e :: evs)) with (runScreen host (stepScreen host sc e) evs).
  apply (IH _ He2), stepScreen_holds; [ now destruct (isFix e) | exact H ].
Qed.

Lemma run_unmounted (s : State) evs : phase s = Unmounted -> phase (run host s evs) = Unmounted.
Proof.
  revert s. induction evs as [|e evs IH]; intros s H; [ exact H | ].
  change (run host s (e :: evs)) with (run host (step host s e) evs).
  apply IH. rewrite step_phase, H. now destruct e.
Qed.

Lemma stepScreen_stale sc e :
  isCommit e = false -> isUnmount e = false ->
  rendering (stepScreen host sc e) = rendering sc.
Proof. now destruct e. Qed.

Lemma runScreen_stale sc evs :
  forallb (fun e => negb (isCommit e) && negb (isUnmount e)) evs = true ->
  rendering (runScreen host sc evs) = rendering sc.
Proof.
  revert sc. induction evs as [|e evs IH]; intros sc H; [ reflexivity | ].
  cbn in H. apply andb_true_iff in H. destruct H as [H1 H2].
  apply andb_true_iff in H1. destruct H1 as [Hc Hu].
  change (runScreen host sc (e :: evs)) with (runScreen host (stepScreen host sc e) evs).
  rewrite (IH _ H2). apply stepScreen_stale; [ now destruct (isCommit e) | now destruct (isUnmount e) ].
Qed.

(** X9.  "Open in Google Maps" runs the handler of the latest render.  Once
    the page has rendered after a position fix [p], and while it is on the
    screen and no further fix arrives, the button opens the directions from
    [p] to the destination of the query.  What arrives after that render,
    further fixes included, changes nothing until the next commit. *)
Theorem open_in_maps_uses_rendered_fix o d g t evs more p :
  let rendered := runScreen host (initScreen o (Some d) g t) (evs ++ [Commit]) in
  let sc := runScreen host rendered more in
  lastPositionRef (page rendered) = Some p ->
  forallb (fun e => negb (isFix e)) more = true ->
  phase (page sc) = Mounted ->
  clickOpenInGoogleMaps numberToString encodeURIComponent sc
    = Some [WindowOpen (mapsUrl numberToString encodeURIComponent p d)] /\
  forall later,
    forallb (fun e => negb (isCommit e) && negb (isUnmount e)) later = true ->
    clickOpenInGoogleMaps numberToString encodeURIComponent (runScreen host sc later)
    = Some [WindowOpen (mapsUrl numberToString encodeURIComponent p d)].
Proof.
  cbv zeta. intros Hp Hm Hph.
  set (sc0 := runScreen host (initScreen o (Some d) g t) evs).
  rewrite runScreen_app in *. fold sc0 in Hp, Hph |- *.
  set (s0 := run host (init o (Some d) g t) evs).
  assert (P0 : page sc0 = s0) by apply runScreen_page.
  assert (F : fixShown o (commit host s0)).
  { apply (step_fixShown host o s0 Commit), run_fixShown. reflexivity. }
  assert (Hd : destination s0 = Some d) by apply run_destination.
  pose proof (lv_origin _ _ _ _ _ (commit_leaves host s0) eq_refl) as Ko.
  unfold fixShown in F. cbn [runScreen fold_left stepScreen page] in Hp.
  rewrite P0 in Hp. cbn [step] in Hp. rewrite Hp, Ko in F.
  assert (H0 : holds p d (runScreen host sc0 [Commit])).
  { unfold holds. cbn [runScreen fold_left stepScreen page rendering step].
    rewrite P0, commit_phase, commit_destination, Ko, Hd, F. unfold render. rewrite F, Hd.
    destruct (phase s0); auto. }
  pose proof (runScreen_holds p d _ more Hm H0) as [H|(_ & _ & _ & Hr)];
    [ rewrite H in Hph; discriminate | ].
  split.
  - unfold clickOpenInGoogleMaps. now rewrite Hr.
  - intros later Hl. unfold clickOpenInGoogleMaps.
    now rewrite (runScreen_stale _ _ Hl), Hr.
Qed.

End ButtonFacts.

(** X10.  [handleCloseCase] sends nothing without a case id; with one it
    sends exactly one PATCH setting the status to completed, always resets
    [closingCase], and schedules the return to the dashboard exactly when
    the response is ok: any other answer gives the error toast. *)
Theorem handleCloseCase_outcomes caseId closing answer :
  let r := handleCloseCase caseId closing answer in
  match caseId with
  | EmptyString => r = (closing, [ButtonToastError "No case ID provided"])
  | _ =>
      fst r = false /\
      filter (fun a => match a with PatchStatus _ _ => true | _ => false end) (snd r) =
        [PatchStatus ("http://127.0.0.1:3000/ngo-cases/" ++ caseId)%string "completed"] /\
      (In (PushLater "/dashboard" 1000) (snd r) <-> answer = PatchResponse true) /\
      (In (ButtonToastError "Failed to close case. Please try again.") (snd r)
       <-> answer <> PatchResponse true)
  end.
Proof.
  destruct caseId as [|c rest]; [ reflexivity | ].
  destruct answer as [|[|]]; cbn; repeat split; try tauto; try congruence;
    try (intros [H|[H|[H|[]]]]; discriminate);
    try (intros [H|[H|[]]]; discriminate);
    intuition congruence.
Qed.

Lemma error_never_cleared_witness :
  error (run hostDouble failedRoute laterEvents) <> None /\
  rendered (run hostDouble failedRoute laterEvents) = Some resultA.
Proof.
  split; [ apply error_never_cleared; vm_compute; discriminate | vm_compute; reflexivity ].
Defined.

Lemma display_changes_only_on_result_witness :
  let evs := [WatchSuccess 0 ngo t1; Commit; WatchFail 0; Commit; Unmount] in
  rendered (run hostDouble shownRoute evs) = rendered shownRoute /\
  routeInfo (run hostDouble shownRoute evs) = routeInfo shownRoute.
Proof. apply display_changes_only_on_result. reflexivity. Defined.

Lemma open_in_maps_uses_rendered_fix_witness :
  let opened :=
    runScreen hostDouble (initScreen None (Some caseSite) true false)
      [Commit; ToggleLive; Commit; WatchSuccess 0 ngo t1] in
  let sc := runScreen hostDouble opened [Commit] in
  clickOpenInGoogleMaps (fun _ => "n") (fun x => x) opened
    = Some [ButtonToastError "Missing origin or destination coordinates"] /\
  clickOpenInGoogleMaps (fun _ => "n") (fun x => x) sc
    = Some [WindowOpen (mapsUrl (fun _ => "n") (fun x => x) ngo caseSite)] /\
  clickOpenInGoogleMaps (fun _ => "n") (fun x => x)
      (runScreen hostDouble sc [WatchSuccess 0 caseSite (t1 + 11000)])
    = Some [WindowOpen (mapsUrl (fun _ => "n") (fun x => x) ngo caseSite)].
Proof.
  cbv zeta. split; [ reflexivity | ].
  destruct (open_in_maps_uses_rendered_fix hostDouble (fun _ => "n") (fun x => x)
              None caseSite true false
              [Commit; ToggleLive; Commit; WatchSuccess 0 ngo t1] [] ngo
              eq_refl eq_refl eq_refl) as [H1 H2].
  split; [ exact H1 | exact (H2 [WatchSuccess 0 caseSite (t1 + 11000)] eq_refl) ].
Defined.

End TrackingPageFacts.


(** * More about the report page

    The rest of [handleSubmit], [toBase64], the coordinate pattern, and the
    page around the form: the image, the debounced suggestions and the
    detected location. *)

Module ReportPageFacts.
Import ReportPage.

Ltac break_match :=
  match goal with
  | |- context [match ?x with _ => _ end] => destruct x eqn:?
  end.

Lemma splitOn_without c s : hasChar c s = false -> splitOn c s = (s, []).
Proof.
  induction s as [|a s IH]; cbn; [ reflexivity | ].
  intros H. apply orb_false_iff in H. destruct H as [H1 H2].
  rewrite (IH H2), H1. reflexivity.
Qed.

Lemma splitOn_first c prefix rest :
  hasChar c prefix = false ->
  splitOn c (prefix ++ String c rest)%string =
  (prefix, fst (splitOn c rest) :: snd (splitOn c rest)).
Proof.
  induction prefix as [|a p IH]; cbn.
  - intros _. rewrite Ascii.eqb_refl. now destruct (splitOn c rest).
  - intros H. apply orb_false_iff in H. destruct H as [H1 H2].
    rewrite (IH H2), H1. reflexivity.
Qed.

(** X11.  [toBase64] gives the part of the data URL between its first and
    second comma: for a URL made of a prefix and a payload that hold no
    comma it is the payload; a result without any comma is given whole. *)
Theorem toBase64_strips_prefix prefix payload :
  hasChar "," prefix = false -> hasChar "," payload = false ->
  toBase64 {| readAsDataURL := Some (prefix ++ "," ++ payload)%string |} = Some payload /\
  toBase64 {| readAsDataURL := Some payload |} = Some payload.
Proof.
  intros Hp Hb. unfold toBase64. cbn [readAsDataURL]. split.
  - change (prefix ++ "," ++ payload)%string with (prefix ++ String "," payload)%string.
    rewrite (splitOn_first _ _ _ Hp), (splitOn_without _ _ Hb). reflexivity.
  - rewrite (splitOn_without _ _ Hb). reflexivity.
Qed.

Section SubmitFacts.

Variable GOOGLE_MAPS_API_KEY : bool.
Variable BACKEND_API : option string.
Variable coordMatch : string -> option (float * float).

Ltac branches :=
  unfold handleSubmit, guardsPass;
  repeat (match goal with
          | |- context [match coordMatch ?x with _ => _ end] =>
              destruct (coordMatch x) as [[? ?]|] eqn:?
          | |- context [if GOOGLE_MAPS_API_KEY then _ else _] =>
              destruct GOOGLE_MAPS_API_KEY eqn:?
          | |- context [match ?g with GeoFailed => _ | GeoAnswer _ => _ end] =>
              destruct g as [|[[? ?]|]]
          | |- context [match ?x with _ => _ end] => destruct x eqn:?
          end; cbn in *; try discriminate).

(** X12.  A report is marked submitted, and the return to the home page
    scheduled, only when the backend answered ok with a status other than
    invalid_image: then the answer is kept as the detection result and the
    submit flag is released.  In every other case [submitted] keeps its
    value. *)
Theorem submitted_only_when_accepted s geo backend :
  let r := handleSubmit GOOGLE_MAPS_API_KEY BACKEND_API coordMatch s geo backend in
  (In (PushLater "/" 5000) (snd r) ->
   submitted (fst r) = true /\ isSubmitting (fst r) = false /\
   exists api body status data,
     In (FetchBackend api body) (snd r) /\ backend = Response true status data /\
     data_status data <> Some "invalid_image" /\ detectionResult (fst r) = Some data) /\
  (In (PushLater "/" 5000) (snd r) \/ submitted (fst r) = submitted s).
Proof.
  cbv zeta. branches; cbn; split; auto;
    try (intros H; repeat (destruct H as [H|H]; try discriminate); try contradiction).
  all: try solve [ left; cbn; tauto ].
  all: match goal with Hk : negb ?ok = false |- _ => destruct ok; [ | discriminate ] end.
  all: split; [ reflexivity | split; [ reflexivity | ] ].
  all: eexists _, _, status, data; repeat split; [ eauto 12 | ].
  all: intros E; rewrite E in *; discriminate.
Qed.

(** X13.  Once the four checks pass, the submit flag and the analyzing
    banner are released exactly when the request to the backend was made,
    whatever its answer.  When the image cannot be read, or the backend
    address is not set or is empty, no request is made and both stay on. *)
Theorem submit_flags_released_iff_request_made s geo backend :
  guardsPass s = true ->
  let r := handleSubmit GOOGLE_MAPS_API_KEY BACKEND_API coordMatch s geo backend in
  isSubmitting (fst r) = negb (existsb isFetchBackend (snd r)) /\
  isAnalyzing (fst r) = negb (existsb isFetchBackend (snd r)) /\
  (existsb isFetchBackend (snd r) = false <->
   BACKEND_API = None \/ BACKEND_API = Some EmptyString \/
   exists file, imageFile s = Some file /\ toBase64 file = None).
Proof.
  cbv zeta. branches; intros _; repeat split; auto;
    try (intros; discriminate);
    try (right; right; eexists; split; [ reflexivity | assumption ]).
  all: try (intros [H|[H|(file & H1 & H2)]]; congruence).
Qed.

Lemma handleSubmit_sends s geo backend :
  let form := formData s in
  let acts := snd (handleSubmit GOOGLE_MAPS_API_KEY BACKEND_API coordMatch s geo backend) in
  (List.length (filter isFetchGeocode acts) <= 1)%nat /\
  (List.length (filter isFetchBackend acts) <= 1)%nat /\
  (forall address, In (FetchGeocode address) acts ->
     address = location form /\ coordMatch (location form) = None /\
     GOOGLE_MAPS_API_KEY = true) /\
  (forall api body, In (FetchBackend api body) acts ->
     BACKEND_API = Some api /\
     p_description body = description form /\ p_severity body = severity form /\
     contact_name body = contactName form /\ contact_phone body = contactPhone form /\
     p_location body = location form /\
     match coordMatch (location form) with
     | Some (la, lo) => latitude body = Some la /\ longitude body = Some lo
     | None => GOOGLE_MAPS_API_KEY = false -> latitude body = None /\ longitude body = None
     end).
Proof.
  cbv zeta. branches; repeat split; try lia; intros;
    repeat match goal with
           | H : _ \/ _ |- _ => destruct H
           | H : False |- _ => contradiction
           | H : FetchBackend _ _ = FetchBackend _ _ |- _ => injection H as <- <-
           | H : FetchGeocode _ = FetchGeocode _ |- _ => injection H as <-
           | H : _ = _ |- _ => discriminate H
           end; cbn; auto; try discriminate.
  all: congruence.
Qed.

(** A complete form whose location holds a coordinate pair is posted, with
    that pair, and without geocoding. *)
Lemma handleSubmit_posts s geo backend file imageBase64 api la lo :
  imageFile s = Some file -> toBase64 file = Some imageBase64 ->
  falsy (location (formData s)) = false ->
  falsy (contactPhone (formData s)) = false ->
  falsy (severity (formData s)) = false ->
  coordMatch (location (formData s)) = Some (la, lo) ->
  BACKEND_API = Some api -> falsy api = false ->
  let acts := snd (handleSubmit GOOGLE_MAPS_API_KEY BACKEND_API coordMatch s geo backend) in
  filter isFetchGeocode acts = [] /\
  filter isFetchBackend acts =
    [FetchBackend api
       {| image_base64 := imageBase64;
          p_description := description (formData s);
          p_severity := severity (formData s);
          contact_name := contactName (formData s);
          contact_phone := contactPhone (formData s);
          p_location := location (formData s);
          latitude := Some la;
          longitude := Some lo |}].
Proof.
  intros Hf Hb Hl Hp Hs Hm Ha Hn. cbv zeta. unfold handleSubmit.
  rewrite Hf, Hl, Hp, Hs. cbn [set_flags formData]. rewrite Hm, Hb, Ha.
  destruct api as [|c t]; [ discriminate | ].
  destruct backend as [|[|] status data]; cbn; [ auto | | auto ].
  destruct (data_status data) as [st|]; [ destruct (String.eqb st _) | ]; cbn; auto.
Qed.


(** X14.  A submit makes at most one geocoding request and at most one
    request to the backend.  It geocodes the location of the form, and only
    when that holds no coordinate pair and the key is configured.  The
    payload carries the fields of the form, and the coordinates written in
    the location when it holds a pair. *)
Theorem submit_requests s geo backend :
  let form := formData s in
  let acts := snd (handleSubmit GOOGLE_MAPS_API_KEY BACKEND_API coordMatch s geo backend) in
  (List.length (filter isFetchGeocode acts) <= 1)%nat /\
  (List.length (filter isFetchBackend acts) <= 1)%nat /\
  (forall address, In (FetchGeocode address) acts ->
     address = location form /\ coordMatch (location form) = None /\
     GOOGLE_MAPS_API_KEY = true) /\
  (forall api body, In (FetchBackend api body) acts ->
     BACKEND_API = Some api /\
     p_description body = description form /\ p_severity body = severity form /\
     contact_name body = contactName form /\ contact_phone body = contactPhone form /\
     p_location body = location form /\
     match coordMatch (location form) with
     | Some (la, lo) => latitude body = Some la /\ longitude body = Some lo
     | None => GOOGLE_MAPS_API_KEY = false -> latitude body = None /\ longitude body = None
     end).
Proof. apply handleSubmit_sends. Qed.

End SubmitFacts.

Lemma toBase64_strips_prefix_witness :
  toBase64 {| readAsDataURL := Some (pngUrlPrefix ++ "," ++ pngPayload)%string |}
    = Some pngPayload /\
  toBase64 {| readAsDataURL := Some pngPayload |} = Some pngPayload.
Proof. apply toBase64_strips_prefix; reflexivity. Defined.

Lemma submit_flags_released_iff_request_made_witness :
  let r := handleSubmit true (Some EmptyString) (fun _ => None) filled GeoFailed NetworkError in
  isSubmitting (fst r) = true /\ isAnalyzing (fst r) = true /\
  existsb isFetchBackend (snd r) = false.
Proof.
  cbv zeta.
  destruct (submit_flags_released_iff_request_made true (Some EmptyString)
              (fun _ => None) filled GeoFailed NetworkError eq_refl) as (H1 & H2 & H3).
  rewrite H1, H2. repeat split.
Defined.


Lemma app_assoc_s (a b c : string) : ((a ++ b) ++ c = a ++ (b ++ c))%string.
Proof. induction a; cbn; congruence. Qed.

Lemma length_app_s (a b : string) :
  String.length (a ++ b) = (String.length a + String.length b)%nat.
Proof. induction a; cbn; congruence. Qed.

Lemma substring_prefix (n rest : string) :
  substring 0 (String.length (n ++ rest) - String.length rest) (n ++ rest)%string = n.
Proof.
  rewrite length_app_s. replace (_ + _ - _)%nat with (String.length n) by lia.
  induction n as [|a n IH]; cbn.
  - now destruct rest.
  - now rewrite IH.
Qed.

Lemma star_digits ds rest caps (k : Cont) x fuel :
  allDigits ds = true -> digitStart rest = false -> k rest caps = Some x ->
  (String.length ds <= fuel)%nat ->
  starLoop (matchFrom Digit) fuel (ds ++ rest)%string caps k = Some x.
Proof.
  revert fuel. induction ds as [|a ds IH]; intros fuel Hd Hr Hk Hf; cbn.
  - destruct fuel; cbn; [ exact Hk | ].
    destruct rest as [|b rest]; [ exact Hk | ]. cbn in Hr. now rewrite Hr.
  - cbn in Hd. apply andb_true_iff in Hd. destruct Hd as [Ha Hd].
    destruct fuel; cbn in *; [ lia | ].
    rewrite Ha, Nat.leb_refl.
    rewrite IH by (auto; lia). reflexivity.
Qed.

Lemma plus_digits ds rest caps (k : Cont) x :
  digits ds = true -> digitStart rest = false -> k rest caps = Some x ->
  matchFrom (Plus Digit) (ds ++ rest)%string caps k = Some x.
Proof.
  unfold digits. intros Hd Hr Hk. apply andb_true_iff in Hd. destruct Hd as [Hn Hd].
  destruct ds as [|a ds]; [ discriminate | ]. cbn in Hd |- *.
  apply andb_true_iff in Hd. destruct Hd as [Ha Hd]. rewrite Ha.
  apply star_digits; auto. rewrite length_app_s. lia.
Qed.

Lemma digits_start ds rest : digits ds = true -> digitStart (ds ++ rest)%string = true.
Proof.
  unfold digits. destruct ds as [|a ds]; [ discriminate | ]. cbn.
  intros H. now apply andb_true_iff in H.
Qed.

Lemma matchFrom_Seq r1 r2 s caps k :
  matchFrom (Seq r1 r2) s caps k =
  matchFrom r1 s caps (fun s' caps' => matchFrom r2 s' caps' k).
Proof. reflexivity. Qed.

Lemma matchFrom_Chr c a rest caps k :
  matchFrom (Chr c) (String a rest) caps k = if Ascii.eqb a c then k rest caps else None.
Proof. reflexivity. Qed.

Lemma matchFrom_Opt r s caps k :
  matchFrom (Opt r) s caps k =
  match matchFrom r s caps k with Some x => Some x | None => k s caps end.
Proof. reflexivity. Qed.

Lemma matchFrom_Group n r s caps k :
  matchFrom (Group n r) s caps k =
  matchFrom r s caps
    (fun s' caps' => k s' ((n, substring 0 (String.length s - String.length s') s) :: caps')).
Proof. reflexivity. Qed.

Lemma matchFrom_Star r s caps k :
  matchFrom (Star r) s caps k = starLoop (matchFrom r) (String.length s) s caps k.
Proof. reflexivity. Qed.

Lemma digits_tail whole fraction rest caps (k : Cont) x :
  digits whole = true -> digits fraction = true -> digitStart rest = false ->
  k rest caps = Some x ->
  matchFrom (Seq (Plus Digit) (Seq (Chr ".") (Plus Digit)))
    (whole ++ String "." (fraction ++ rest))%string caps k = Some x.
Proof.
  intros Hw Hf Hr Hk. rewrite matchFrom_Seq.
  apply plus_digits; [ exact Hw | reflexivity | ].
  rewrite matchFrom_Seq, matchFrom_Chr. cbn [Ascii.eqb Bool.eqb].
  now apply plus_digits.
Qed.

Lemma number_matches n rest caps (k : Cont) x :
  Decimal n -> digitStart rest = false -> k rest caps = Some x ->
  matchFrom number (n ++ rest)%string caps k = Some x.
Proof.
  intros (negative & whole & fraction & -> & Hw & Hf) Hr Hk.
  pose proof (digits_tail whole fraction rest caps k x Hw Hf Hr Hk) as Hnum.
  unfold number. rewrite matchFrom_Seq, matchFrom_Opt, !app_assoc_s.
  change ("." ++ fraction ++ rest)%string with (String "." (fraction ++ rest)).
  destruct negative; cbn [append].
  - rewrite matchFrom_Chr. cbn [Ascii.eqb Bool.eqb]. now rewrite Hnum.
  - pose proof (digits_start whole (String "." (fraction ++ rest)) Hw) as Hs.
    destruct (whole ++ String "." (fraction ++ rest))%string as [|a t] eqn:E;
      [ discriminate | ].
    cbn in Hs. rewrite matchFrom_Chr.
    assert (Ha : Ascii.eqb a "-" = false).
    { destruct (Ascii.eqb_spec a "-"); [ subst; discriminate | reflexivity ]. }
    rewrite Ha. exact Hnum.
Qed.

Lemma group_matches i n rest caps (k : Cont) x :
  Decimal n -> digitStart rest = false -> k rest ((i, n) :: caps) = Some x ->
  matchFrom (Group i number) (n ++ rest)%string caps k = Some x.
Proof.
  intros Hn Hr Hk. rewrite matchFrom_Group.
  apply number_matches; auto. now rewrite substring_prefix.
Qed.

Lemma decimal_start n rest :
  Decimal n ->
  exists a t, (n ++ rest)%string = String a t /\ (a = "-"%char \/ isDigit a = true).
Proof.
  intros (negative & whole & fraction & -> & Hw & Hf).
  destruct negative; cbn.
  - eexists _, _. split; [ reflexivity | now left ].
  - pose proof (digits_start whole (("." ++ fraction) ++ rest) Hw) as Hs.
    rewrite <- app_assoc_s in Hs.
    destruct ((whole ++ "." ++ fraction) ++ rest)%string as [|a t] eqn:E;
      [ discriminate | ].
    exists a, t. split; [ exact E | now right ].
Qed.

Lemma spaceRest_number n rest : Decimal n -> spaceRest (n ++ rest) = None.
Proof.
  intros Hn. destruct (decimal_start n rest Hn) as (a & t & -> & Ha).
  assert (Hc : (code a = 45 \/ 48 <= code a <= 57)%N).
  { destruct Ha as [->|Ha]; [ now left | right ].
    unfold isDigit in Ha. apply andb_true_iff in Ha. destruct Ha as [H1 H2].
    apply N.leb_le in H1, H2. lia. }
  unfold spaceRest.
  repeat match goal with
         | |- context [(?x <=? ?y)%N] => destruct (N.leb_spec x y)
         | |- context [(?x =? ?y)%N] => destruct (N.eqb_spec x y)
         end; cbn; try lia; destruct t as [|b [|c t]]; reflexivity.
Qed.

Lemma star_space_stop fuel s caps (k : Cont) :
  spaceRest s = None -> starLoop (matchFrom Space) fuel s caps k = k s caps.
Proof.
  intros H. destruct fuel; cbn; [ reflexivity | ]. rewrite H. reflexivity.
Qed.

Lemma spaceRest_comma t : spaceRest (String "," t) = None.
Proof. destruct t as [|b [|c t]]; reflexivity. Qed.

(** Spaces before the second number: one space here. *)
Lemma star_space_number n rest caps (k : Cont) x :
  Decimal n -> k (n ++ rest)%string caps = Some x ->
  matchFrom (Star Space) (String " " (n ++ rest))%string caps k = Some x.
Proof.
  intros Hn Hk. rewrite matchFrom_Star.
  cbn [String.length starLoop]. 
  change (matchFrom Space (String " " (n ++ rest)) caps ?k')
    with (k' (n ++ rest)%string caps).
  cbn beta. cbn [String.length]. rewrite (proj2 (Nat.ltb_lt _ _) (Nat.lt_succ_diag_r _)).
  now rewrite star_space_stop, Hk by now apply spaceRest_number.
Qed.

Lemma app_empty_r (s : string) : (s ++ "")%string = s.
Proof. induction s; cbn; congruence. Qed.

Lemma coordPattern_matches n1 n2 :
  Decimal n1 -> Decimal n2 ->
  matchFrom coordPattern (n1 ++ ", " ++ n2)%string [] (fun _ caps => Some caps)
  = Some [(2%nat, n2); (1%nat, n1)].
Proof.
  intros H1 H2. unfold coordPattern. rewrite matchFrom_Seq.
  apply (group_matches 1 n1 (", " ++ n2) [] _ _ H1); [ reflexivity | ].
  rewrite matchFrom_Seq, matchFrom_Star.
  change (", " ++ n2)%string with (String "," (String " " n2)).
  rewrite star_space_stop by apply spaceRest_comma.
  rewrite matchFrom_Seq, matchFrom_Chr. cbn [Ascii.eqb Bool.eqb].
  rewrite matchFrom_Seq.
  rewrite <- (app_empty_r n2) at 1.
  apply star_space_number; [ exact H2 | ].
  apply group_matches; [ exact H2 | reflexivity | reflexivity ].
Qed.

(** The pattern finds the two numbers of a text made of a decimal number,
    a comma, a space and a decimal number. *)
Lemma coordGroups_pair n1 n2 :
  Decimal n1 -> Decimal n2 -> coordGroups (n1 ++ ", " ++ n2) = Some (n1, n2).
Proof.
  intros H1 H2. unfold coordGroups.
  assert (E : exec coordPattern (n1 ++ ", " ++ n2) = Some [(2%nat, n2); (1%nat, n1)]).
  { destruct (n1 ++ ", " ++ n2)%string eqn:Es; cbn [exec];
      rewrite <- Es, coordPattern_matches; auto. }
  rewrite E. reflexivity.
Qed.


Ltac cases := repeat (break_match; cbn in *; try discriminate).

Section FormFacts.

Variable geolocation : bool.
Variable toFixed6 : float -> string.
Variable parseFloat : string -> float.
Variable GOOGLE_MAPS_API_KEY : bool.
Variable BACKEND_API : option string.

Local Abbreviation handle :=
  (ReportPage.handle geolocation toFixed6 parseFloat GOOGLE_MAPS_API_KEY BACKEND_API).
Local Abbreviation step :=
  (ReportPage.step geolocation toFixed6 parseFloat GOOGLE_MAPS_API_KEY BACKEND_API).
Local Abbreviation run :=
  (ReportPage.run geolocation toFixed6 parseFloat GOOGLE_MAPS_API_KEY BACKEND_API).
(** *** What the effects and the submit handler leave alone *)

Lemma effects_keeps before after :
  let p := effects before after in
  fields p = fields after /\ pendingPosition p = pendingPosition after /\
  isGettingLocation p = isGettingLocation after /\
  imagePreview p = imagePreview after /\
  debouncedLocation p = debouncedLocation after.
Proof.
  unfold effects, debounceEffect, suggestEffect, getLocationSuggestions.
  cases; repeat split.
Qed.

Lemma fold_emit acts (q : Page) :
  let p := fold_left (fun q a => emit (Did a) q) acts q in
  fields p = fields q /\ ui p = ui q /\ timer p = timer q /\
  pendingSuggestions p = pendingSuggestions q /\ nextSuggestion p = nextSuggestion q /\
  pendingPosition p = pendingPosition q /\ log p = log q ++ map Did acts.
Proof.
  revert q. induction acts as [|a acts IH]; intros q; cbn.
  - now rewrite app_nil_r.
  - destruct (IH (emit (Did a) q)) as (H1 & H2 & H3 & H4 & H5 & H6 & H7).
    cbn in *. rewrite <- app_assoc in H7. repeat split; assumption.
Qed.

Lemma handleSubmit_keeps coordMatch0 s geo backend :
  let s' := fst (handleSubmit GOOGLE_MAPS_API_KEY BACKEND_API coordMatch0 s geo backend) in
  imageFile s' = imageFile s /\ formData s' = formData s.
Proof. unfold handleSubmit. cases; split; congruence. Qed.

(** *** The image *)

Lemma handle_imageFile (p : Page) e : imageFile p <> None -> imageFile (handle p e) <> None.
Proof.
  intros H. destruct e; cbn; unfold getLocation, positionFound, positionError,
    suggestionsAnswer, handleSuggestionClick; cases; auto; try discriminate.
  all: match goal with
       | E : handleSubmit _ _ _ _ _ _ = (?s, ?acts) |- _ =>
           destruct (fold_emit acts (upd_fields (fun _ => s) p)) as (K & _);
           rewrite K; cbn;
           destruct (handleSubmit_keeps (coordMatch parseFloat) (fields p) geo backend)
             as (K1 & _);
           rewrite E in K1; cbn in K1; congruence
       end.
Qed.

Lemma step_imageFile (p : Page) e : imageFile p <> None -> imageFile (step p e) <> None.
Proof.
  intros H. unfold ReportPage.step.
  destruct (effects_keeps p (handle p e)) as (K & _). rewrite K.
  now apply handle_imageFile.
Qed.

Lemma run_imageFile (p : Page) evs : imageFile p <> None -> imageFile (run p evs) <> None.
Proof.
  revert p. induction evs as [|e evs IH]; intros p H; [ exact H | ].
  change (imageFile (run (step p e) evs) <> None). apply IH, step_imageFile, H.
Qed.

(** *** The suggestions *)

Ltac submit_fields p geo backend :=
  match goal with
  | E : handleSubmit _ _ _ _ _ _ = (?s, ?acts) |- _ =>
      let K := fresh "K" in
      pose proof (fold_emit acts (upd_fields (fun _ => s) p)) as K;
      cbv zeta in K; cbn in K;
      let K1 := fresh "K" in
      pose proof (handleSubmit_keeps (coordMatch parseFloat) (fields p) geo backend) as K1;
      cbv zeta in K1; rewrite E in K1; cbn in K1
  end.

Lemma requests_map_Did acts : suggestionRequests (map Did acts) = [].
Proof. induction acts; cbn; auto. Qed.

(** A handler makes no autocomplete request, and only the timeout
    changes [debouncedLocation]. *)
Lemma handle_requests (p : Page) e :
  suggestionRequests (log (handle p e)) = suggestionRequests (log p) /\
  (isTimerFires e = false -> debouncedLocation (handle p e) = debouncedLocation p) /\
  (isTimerFires e = true ->
   location (formData (handle p e)) = location (formData p) /\
   forall captured, timer p = Some captured ->
     debouncedLocation (handle p e) = captured /\ timer (handle p e) = None).
Proof.
  destruct e; cbn; unfold getLocation, positionFound, positionError,
    suggestionsAnswer, handleSuggestionClick, suggestionRequests; cases;
    repeat split; try discriminate; auto;
    rewrite ?flat_map_app; cbn; rewrite ?app_nil_r; auto;
    try congruence.
  all: submit_fields p geo backend.
  - destruct K as (_ & _ & _ & _ & _ & _ & ->).
    fold (suggestionRequests (log p ++ map Did l)). unfold suggestionRequests.
    rewrite flat_map_app. fold (suggestionRequests (map Did l)).
    now rewrite requests_map_Did, app_nil_r.
  - destruct K as (_ & -> & _). reflexivity.
Qed.

(** What one step adds to the autocomplete requests. *)
Lemma step_requests (p : Page) e :
  exists extra,
    suggestionRequests (log (step p e)) = suggestionRequests (log p) ++ extra /\
    (List.length extra <= if isTimerFires e then 1 else 0)%nat /\
    Forall (fun input => (3 <= jsLength input)%nat) extra.
Proof.
  destruct (handle_requests p e) as (H1 & H2 & _).
  unfold ReportPage.step, effects.
  set (q := handle p e) in *.
  set (q1 := if String.eqb (location (formData q)) (location (formData p))
             then q else debounceEffect q).
  assert (E1 : suggestionRequests (log q1) = suggestionRequests (log q)).
  { subst q1. destruct (String.eqb _ _); reflexivity. }
  destruct (String.eqb (debouncedLocation q) (debouncedLocation p)) eqn:Ed.
  - exists []. rewrite app_nil_r, E1, H1. repeat split; [ destruct (isTimerFires e); cbn; lia | constructor ].
  - destruct (isTimerFires e) eqn:Et.
    2:{ rewrite (H2 eq_refl), String.eqb_refl in Ed. discriminate. }
    unfold suggestEffect, getLocationSuggestions.
    assert (Eq1 : debouncedLocation q1 = debouncedLocation q).
    { subst q1. destruct (String.eqb _ _); reflexivity. }
    destruct (Nat.leb_spec 3 (jsLength (debouncedLocation q1))) as [L|L].
    + destruct (Nat.ltb_spec (jsLength (debouncedLocation q1)) 3) as [L'|L']; [ lia | ].
      exists [debouncedLocation q1]. cbn.
      unfold suggestionRequests in *. rewrite flat_map_app. cbn.
      rewrite E1, H1. repeat split; [ cbn; lia | ]. constructor; [ exact L | constructor ].
    + exists []. cbn. rewrite app_nil_r, E1, H1. repeat split; [ cbn; lia | constructor ].
Qed.

Lemma handle_timer_eq (p : Page) e :
  timer (handle p e) = if isTimerFires e then None else timer p.
Proof.
  destruct e; cbn; unfold getLocation, positionFound, positionError,
    suggestionsAnswer, handleSuggestionClick; cases; auto; try discriminate.
  submit_fields p geo backend. destruct K as (_ & _ & -> & _). reflexivity.
Qed.

Lemma handle_timer (p : Page) e :
  String.eqb (location (formData (handle p e))) (location (formData p)) = true ->
  timerCurrent p -> timerCurrent (handle p e).
Proof.
  unfold timerCurrent. intros E H. apply String.eqb_eq in E.
  rewrite E, handle_timer_eq. now destruct (isTimerFires e).
Qed.

Lemma step_timer (p : Page) e : timerCurrent p -> timerCurrent (step p e).
Proof.
  intros H. unfold ReportPage.step, effects.
  pose proof (handle_timer p e) as Hh.
  set (q := handle p e) in *.
  set (q1 := if String.eqb (location (formData q)) (location (formData p))
             then q else debounceEffect q).
  assert (T1 : timerCurrent q1).
  { subst q1. destruct (String.eqb _ _); [ now apply Hh | ].
    unfold timerCurrent, debounceEffect. reflexivity. }
  clearbody q1.
  destruct (String.eqb (debouncedLocation q) (debouncedLocation p)); [ exact T1 | ].
  assert (K : timer (suggestEffect q1) = timer q1 /\ fields (suggestEffect q1) = fields q1).
  { unfold suggestEffect, getLocationSuggestions. cases; split; reflexivity. }
  destruct K as [K1 K2]. unfold timerCurrent in *. now rewrite K1, K2.
Qed.

(** *** The detected location *)

Lemma handle_pendingPosition (p : Page) e :
  besidesDetection e = true -> pendingPosition (handle p e) = pendingPosition p.
Proof.
  destruct e; try discriminate; intros _; cbn;
    unfold suggestionsAnswer, handleSuggestionClick; cases; auto.
  all: submit_fields p geo backend; destruct K as (_ & _ & _ & _ & _ & -> & _); reflexivity.
Qed.

Lemma step_pendingPosition (p : Page) e :
  besidesDetection e = true -> pendingPosition (step p e) = pendingPosition p.
Proof.
  intros H. unfold ReportPage.step.
  destruct (effects_keeps p (handle p e)) as (_ & K & _). rewrite K.
  now apply handle_pendingPosition.
Qed.

Lemma run_pendingPosition (p : Page) evs :
  forallb besidesDetection evs = true -> pendingPosition (run p evs) = pendingPosition p.
Proof.
  revert p. induction evs as [|e evs IH]; intros p H; [ reflexivity | ].
  cbn in H. apply andb_true_iff in H. destruct H as [H1 H2].
  change (pendingPosition (run (step p e) evs) = pendingPosition p).
  rewrite IH by assumption. now apply step_pendingPosition.
Qed.

(** X22.  The file chosen for the report is never dropped: once
    [imageFile] is set no event clears it.  "Change Image" removes the
    preview alone, so that a submit made before another file is chosen
    still sends the file chosen before. *)
Theorem chosen_image_is_never_dropped (p : Page) evs :
  imageFile p <> None ->
  imageFile (run p evs) <> None /\
  imagePreview (step p ChangeImage) = None /\
  imageFile (step p ChangeImage) = imageFile p.
Proof.
  intros H. split; [ now apply run_imageFile | ].
  unfold ReportPage.step.
  destruct (effects_keeps p (handle p ChangeImage)) as (K1 & _ & _ & K2 & _).
  rewrite K1, K2. split; reflexivity.
Qed.

Lemma run_requests (p : Page) evs :
  let q := run p evs in
  (List.length (suggestionRequests (log q)) <=
   List.length (suggestionRequests (log p)) + List.length (filter isTimerFires evs))%nat /\
  (Forall (fun input => (3 <= jsLength input)%nat) (suggestionRequests (log p)) ->
   Forall (fun input => (3 <= jsLength input)%nat) (suggestionRequests (log q))) /\
  (timerCurrent p -> timerCurrent q).
Proof.
  revert p. induction evs as [|e evs IH]; intros p; cbn -[ReportPage.step].
  - repeat split; auto. lia.
  - destruct (IH (step p e)) as (H1 & H2 & H3).
    destruct (step_requests p e) as (extra & E & L & F).
    change (fold_left step evs (step p e)) with (run (step p e) evs).
    rewrite E in *. rewrite length_app in H1.
    repeat split.
    + destruct (isTimerFires e); cbn; lia.
    + intros Hp. apply H2, Forall_app. split; assumption.
    + intros Hp. apply H3, step_timer, Hp.
Qed.

(** X23.  The suggestions are debounced: a session makes at most one
    autocomplete request for each timeout that fires, none for a text
    shorter than three UTF-16 code units, and the timeout that is pending
    always carries the text the location field holds. *)
Theorem suggestions_are_debounced evs :
  let p := run init evs in
  (List.length (suggestionRequests (log p)) <= List.length (filter isTimerFires evs))%nat /\
  Forall (fun input => (3 <= jsLength input)%nat) (suggestionRequests (log p)) /\
  match timer p with
  | Some captured => captured = location (formData p)
  | None => True
  end.
Proof.
  cbv zeta. destruct (run_requests init evs) as (H1 & H2 & H3).
  repeat split; [ exact H1 | apply H2; constructor | apply H3; reflexivity ].
Qed.

End FormFacts.

Section DetectionFacts.

Variable toFixed6 : float -> string.
Variable parseFloat : string -> float.
Variable GOOGLE_MAPS_API_KEY : bool.
Variable BACKEND_API : option string.

Local Abbreviation step :=
  (ReportPage.step true toFixed6 parseFloat GOOGLE_MAPS_API_KEY BACKEND_API).
Local Abbreviation run :=
  (ReportPage.run true toFixed6 parseFloat GOOGLE_MAPS_API_KEY BACKEND_API).

(** X24.  When geolocation is available, what is typed, selected or
    uploaded between the click on Detect Location and the answer of the
    position read is lost from the form: the answer stores the form as it
    was at the click, with the detected location, and releases the
    button. *)
Theorem detection_restores_other_fields (p : Page) edits la lo answer :
  isGettingLocation p = false -> pendingPosition p = [] ->
  forallb besidesDetection edits = true ->
  let p' := step (run (step p DetectLocation) edits) (PositionFound la lo answer) in
  formData p' = with_location (detectedText toFixed6 la lo answer) (formData p) /\
  isGettingLocation p' = false.
Proof.
  intros Hg Hp He. cbv zeta.
  set (p1 := step p DetectLocation).
  assert (E1 : pendingPosition p1 = [formData p]).
  { subst p1. unfold ReportPage.step.
    destruct (effects_keeps p (ReportPage.handle true toFixed6 parseFloat
                GOOGLE_MAPS_API_KEY BACKEND_API p DetectLocation)) as (_ & K & _).
    rewrite K. cbn. rewrite Hg. cbn. now rewrite Hp. }
  pose proof (run_pendingPosition true toFixed6 parseFloat GOOGLE_MAPS_API_KEY BACKEND_API
                p1 edits He) as E2.
  rewrite E1 in E2. set (p2 := run p1 edits) in *.
  unfold ReportPage.step.
  destruct (effects_keeps p2 (ReportPage.handle true toFixed6 parseFloat
              GOOGLE_MAPS_API_KEY BACKEND_API p2 (PositionFound la lo answer)))
    as (K1 & _ & K2 & _).
  change (formData (fields ?x)) with (formData x) in *.
  assert (K1' : forall a b : Page, fields a = fields b -> formData a = formData b)
    by (intros a b E; unfold formData at 1 2; now rewrite E).
  rewrite (K1' _ _ K1), K2. cbn. rewrite E2.
  unfold positionFound, detectedText. destruct answer as [|[a|]]; split; reflexivity.
Qed.

Lemma decimal_not_empty n rest : Decimal n -> falsy (n ++ rest) = false.
Proof.
  intros Hn. destruct (decimal_start n rest Hn) as (a & t & -> & _). reflexivity.
Qed.

(** X25.  A position detected without an address is sent as it was
    detected.  When [toFixed(6)] gives decimal numbers, the text
    [getLocation] stores matches the coordinate pattern of [handleSubmit]:
    a form that is complete otherwise (image that can be read, phone,
    severity, backend address) is posted once, without geocoding, with
    that text as its location and the two numbers of the text as its
    latitude and longitude. *)
Theorem detected_coordinates_are_sent captured la lo answer (p : Page) geo backend
    file imageBase64 api :
  Decimal (toFixed6 la) -> Decimal (toFixed6 lo) ->
  detectedText toFixed6 la lo answer = coordinateText toFixed6 la lo ->
  imageFile p = Some file -> toBase64 file = Some imageBase64 ->
  contactPhone captured <> EmptyString -> severity captured <> EmptyString ->
  BACKEND_API = Some api -> api <> EmptyString ->
  let p' := positionFound toFixed6 captured la lo answer p in
  let acts := snd (handleSubmit GOOGLE_MAPS_API_KEY BACKEND_API (coordMatch parseFloat)
                     (fields p') geo backend) in
  location (formData p') = coordinateText toFixed6 la lo /\
  filter isFetchGeocode acts = [] /\
  exists body,
    filter isFetchBackend acts = [FetchBackend api body] /\
    p_location body = coordinateText toFixed6 la lo /\
    latitude body = Some (parseFloat (toFixed6 la)) /\
    longitude body = Some (parseFloat (toFixed6 lo)).
Proof.
  intros Ha Ho Ht Hf Hb Hp Hs Hapi Hne. cbv zeta.
  set (s := fields (positionFound toFixed6 captured la lo answer p)).
  assert (E : formData s = with_location (coordinateText toFixed6 la lo) captured).
  { rewrite <- Ht. subst s. unfold positionFound, detectedText.
    destruct answer as [|[a|]]; reflexivity. }
  assert (F : imageFile s = Some file).
  { rewrite <- Hf. subst s. unfold positionFound. destruct answer as [|[a|]]; reflexivity. }
  assert (M : coordMatch parseFloat (coordinateText toFixed6 la lo)
              = Some (parseFloat (toFixed6 la), parseFloat (toFixed6 lo))).
  { unfold coordMatch, coordinateText. now rewrite coordGroups_pair. }
  change (formData (positionFound toFixed6 captured la lo answer p)) with (formData s).
  split; [ now rewrite E | ].
  destruct (handleSubmit_posts GOOGLE_MAPS_API_KEY BACKEND_API (coordMatch parseFloat)
              s geo backend file imageBase64 api
              (parseFloat (toFixed6 la)) (parseFloat (toFixed6 lo))) as [G B]; auto.
  - rewrite E. apply decimal_not_empty, Ha.
  - rewrite E. cbn. now destruct (contactPhone captured).
  - rewrite E. cbn. now destruct (severity captured).
  - rewrite E. exact M.
  - now destruct api.
  - split; [ exact G | ]. eexists. split; [ exact B | ]. rewrite E. repeat split.
Qed.

End DetectionFacts.

Lemma chosen_image_is_never_dropped_witness :
  let p := ReportPage.step true toFixedDouble parseFloatDouble true None
             init (ImageRead dogPhoto) in
  imageFile (ReportPage.run true toFixedDouble parseFloatDouble true None p
               [ChangeImage; LocationInput "MG Road"; TimerFires]) <> None /\
  imagePreview (ReportPage.step true toFixedDouble parseFloatDouble true None p ChangeImage)
    = None /\
  imageFile (ReportPage.step true toFixedDouble parseFloatDouble true None p ChangeImage)
    = imageFile p.
Proof. apply chosen_image_is_never_dropped. discriminate. Defined.

Lemma detection_restores_other_fields_witness :
  let step := ReportPage.step true toFixedDouble parseFloatDouble true None in
  let run := ReportPage.run true toFixedDouble parseFloatDouble true None in
  let edits := [DescriptionInput "Injured dog"; PhoneInput "+91 9278456790"] in
  let p' := step (run (step init DetectLocation) edits)
                 (PositionFound 12.96875%float 77.59375%float ReverseFailed) in
  formData p' =
    with_location (detectedText toFixedDouble 12.96875%float 77.59375%float ReverseFailed)
                  (formData init) /\
  isGettingLocation p' = false.
Proof.
  exact (detection_restores_other_fields toFixedDouble parseFloatDouble true None init
           [DescriptionInput "Injured dog"; PhoneInput "+91 9278456790"]
           12.96875%float 77.59375%float ReverseFailed eq_refl eq_refl eq_refl).
Defined.

Lemma decimal_examples : Decimal "12.968750" /\ Decimal "77.593750".
Proof.
  split; [ exists false, "12", "968750" | exists false, "77", "593750" ]; repeat split.
Qed.

Lemma detected_coordinates_are_sent_witness :
  let p := handleImageUpload dogPhoto init in
  let p' := positionFound toFixedDouble (formData filled) 12.96875%float 77.59375%float
              ReverseFailed p in
  let acts := snd (handleSubmit true (Some "http://127.0.0.1:3000")
                     (coordMatch parseFloatDouble) (fields p') GeoFailed NetworkError) in
  location (formData p') = "12.968750, 77.593750" /\
  filter isFetchGeocode acts = [] /\
  exists body,
    filter isFetchBackend acts = [FetchBackend "http://127.0.0.1:3000" body] /\
    p_location body = "12.968750, 77.593750" /\
    latitude body = Some 12.96875%float /\
    longitude body = Some 77.59375%float.
Proof.
  apply (detected_coordinates_are_sent toFixedDouble parseFloatDouble true
           (Some "http://127.0.0.1:3000")
           (formData filled) 12.96875%float 77.59375%float ReverseFailed
           (handleImageUpload dogPhoto init) GeoFailed NetworkError
           dogPhoto pngPayload "http://127.0.0.1:3000"
           (proj1 decimal_examples) (proj2 decimal_examples) eq_refl eq_refl eq_refl);
    try discriminate; reflexivity.
Defined.

End ReportPageFacts.


(** * The dashboard and its cards *)

Module DashboardFacts.
Import Dashboard.

Ltac break_match :=
  match goal with
  | |- context [match ?x with _ => _ end] => destruct x eqn:?
  end.

(** ** Lists and values *)

Lemma filter_and {A} (f g : A -> bool) l :
  filter f (filter g l) = filter (fun x => g x && f x) l.
Proof.
  induction l as [|x l IH]; cbn; [ reflexivity | ].
  destruct (g x); cbn; [ destruct (f x) | ]; now rewrite IH.
Qed.

Lemma filter_split {A} (f : A -> bool) l :
  List.length l =
  (List.length (filter f l) + List.length (filter (fun x => negb (f x)) l))%nat.
Proof.
  induction l as [|x l IH]; cbn; [ reflexivity | ].
  destruct (f x); cbn; lia.
Qed.

Lemma mapi_length {A B} (f : nat -> A -> B) k l : List.length (mapi f k l) = List.length l.
Proof. revert k. induction l; intros k; cbn; auto. Qed.

Lemma mapi_In {A B} (f : nat -> A -> B) k l y :
  In y (mapi f k l) -> exists i x, nth_error l i = Some x /\ y = f (k + i)%nat x.
Proof.
  revert k. induction l as [|x l IH]; intros k; cbn; [ intros []  | ].
  intros [H|H].
  - exists O, x. split; [ reflexivity | now rewrite Nat.add_0_r ].
  - destruct (IH _ H) as (i & x' & H1 & H2). exists (S i), x'.
    split; [ exact H1 | now rewrite Nat.add_succ_r ].
Qed.

Lemma filter_map_raw {A B} (f : A -> B) (p : A -> bool) (q : B -> bool) l :
  (forall x, In x l -> p x = q (f x)) -> map f (filter p l) = filter q (map f l).
Proof.
  induction l as [|x l IH]; cbn; [ reflexivity | ]. intros H.
  rewrite (H x (or_introl eq_refl)).
  destruct (q (f x)); cbn; rewrite IH; auto.
Qed.

Lemma orElse_not_empty x y : y <> EmptyString -> orElse x y <> EmptyString.
Proof. unfold orElse. destruct x as [[|a v]|]; cbn; auto; discriminate. Qed.

Lemma orElse_or x y z :
  truthy (or x y) = true -> orElse (or x y) z = orElse (or x y) EmptyString.
Proof.
  unfold or, orElse, truthy. destruct x as [[|a v]|], y as [[|b w]|]; cbn; auto; discriminate.
Qed.

Lemma append_not_empty a b c : (a ++ String c b)%string <> EmptyString.
Proof. destruct a; discriminate. Qed.

Section Facts.

Variable toLowerCase : string -> string.
Variable slice_0_60 : string -> string.
Variable numberToString : float -> string.
Variable encodeURIComponent : string -> string.
Variable randomId : nat -> string.
Variable BACKEND_API : string.
Variable S3_BUCKET : string.
Variable AWS_REGION : string.

Local Abbreviation toRescue :=
  (Dashboard.toRescue slice_0_60 numberToString encodeURIComponent randomId S3_BUCKET AWS_REGION).
Local Abbreviation filteredRescues :=
  (Dashboard.filteredRescues toLowerCase slice_0_60 numberToString encodeURIComponent
     randomId S3_BUCKET AWS_REGION).
Local Abbreviation closedStatus := (Dashboard.closedStatus toLowerCase).
Local Abbreviation shown := (Dashboard.shown toLowerCase).

(** X15.  The counters above the list count the cases by the status their
    card shows, a case without status counting as New: the New, In Progress
    and Resolved counters and the number of cases with any other status
    add up to the total. *)
Theorem stats_add_up s :
  let st := stats s in
  let rescues := mapi toRescue 0 (cases s) in
  let badge v := filter (fun r => String.eqb (RescueCard.status (card r)) v) rescues in
  let others :=
    filter (fun r => negb (String.eqb (RescueCard.status (card r)) "New"
                           || String.eqb (RescueCard.status (card r)) "In Progress"
                           || String.eqb (RescueCard.status (card r)) "Resolved")) rescues in
  new st = List.length (badge "New") /\
  inProgress st = List.length (badge "In Progress") /\
  resolved st = List.length (badge "Resolved") /\
  (new st + inProgress st + resolved st + List.length others = total st)%nat.
Proof.
  cbv zeta. unfold stats, countStatus. cbn.
  generalize 0%nat. induction (cases s) as [|c cs IH]; intros k; cbn; [ auto | ].
  destruct (IH (S k)) as (H1 & H2 & H3 & H4). clear IH.
  set (x := orElse (status c) "New").
  destruct (String.eqb x "New") eqn:A, (String.eqb x "In Progress") eqn:B,
           (String.eqb x "Resolved") eqn:C; cbn;
    rewrite ?String.eqb_eq in *;
    try (exfalso; congruence);
    repeat split; try congruence; lia.
Qed.

Local Abbreviation rescueOf draw :=
  (Dashboard.toRescue slice_0_60 numberToString encodeURIComponent draw S3_BUCKET AWS_REGION).

(** Whether a case is listed does not depend on the id drawn for it, when
    the search is empty or the case has a description or an id. *)
Lemma shown_draw s c draw draw' k k' :
  searchQuery s = EmptyString \/
  truthy (description c) || truthy (or (case_id c) (id c)) = true ->
  shown s (rescueOf draw k c) = shown s (rescueOf draw' k' c).
Proof.
  intros H. unfold Dashboard.shown. cbn.
  destruct H as [H|H].
  - rewrite H. reflexivity.
  - destruct (truthy (description c)); [ reflexivity | ]. cbn in H.
    now rewrite (orElse_or _ _ (draw k) H), (orElse_or _ _ (draw' k') H).
Qed.

Lemma mapi_raw draw k l : map _raw (mapi (rescueOf draw) k l) = l.
Proof. revert k. induction l as [|c l IH]; intros k; cbn; [ | rewrite IH ]; reflexivity. Qed.

Lemma mapi_In_raw draw k l r :
  In r (mapi (rescueOf draw) k l) -> exists i, r = rescueOf draw i (_raw r) /\ In (_raw r) l.
Proof.
  intros H. apply mapi_In in H. destruct H as (i & c & Hn & ->).
  exists (k + i)%nat. split; [ reflexivity | ]. cbn. eapply nth_error_In, Hn.
Qed.

(** The cases a tab lists, for the ids drawn in its render. *)
Lemma listed_cases draw s :
  (searchQuery s = EmptyString \/
   forall c, In c (cases s) ->
     truthy (description c) || truthy (or (case_id c) (id c)) = true) ->
  map _raw (Dashboard.filteredRescues toLowerCase slice_0_60 numberToString encodeURIComponent
              draw S3_BUCKET AWS_REGION s)
  = filter (fun c => shown s (rescueOf (fun _ => EmptyString) 0 c)) (cases s).
Proof.
  intros H. unfold Dashboard.filteredRescues.
  rewrite (filter_map_raw _raw _ (fun c => shown s (rescueOf (fun _ => EmptyString) 0 c))).
  - now rewrite mapi_raw.
  - intros r Hr. apply mapi_In_raw in Hr. destruct Hr as (i & E & Hin).
    rewrite E at 1. apply shown_draw. destruct H as [H|H]; [ now left | right; now apply H ].
Qed.

(** X16.  Each render draws its own ids for the cases without one.  When
    the search is empty, or every case has a description or an id, the
    tabs split the list whatever is drawn: the completed tab lists the
    cases of the all tab whose status is completed, resolved or closed in
    lower case, the ongoing tab the others, in the same order. *)
Theorem tabs_split_the_list (drawAll drawCompleted drawOngoing : nat -> string) s :
  let view draw t :=
    Dashboard.filteredRescues toLowerCase slice_0_60 numberToString encodeURIComponent
      draw S3_BUCKET AWS_REGION (setCaseType t s) in
  (searchQuery s = EmptyString \/
   forall c, In c (cases s) ->
     truthy (description c) || truthy (or (case_id c) (id c)) = true) ->
  map _raw (view drawCompleted completed)
    = map _raw (filter closedStatus (view drawAll all)) /\
  map _raw (view drawOngoing ongoing)
    = map _raw (filter (fun r => negb (closedStatus r)) (view drawAll all)) /\
  List.length (view drawAll all)
    = (List.length (view drawCompleted completed) + List.length (view drawOngoing ongoing))%nat.
Proof.
  cbv beta zeta. intros H.
  set (closed := fun c => closedStatus (rescueOf (fun _ => EmptyString) 0 c)).
  assert (R : forall r,
            In r (Dashboard.filteredRescues toLowerCase slice_0_60 numberToString
                    encodeURIComponent drawAll S3_BUCKET AWS_REGION (setCaseType all s)) ->
            closedStatus r = closed (_raw r)).
  { intros r Hr. unfold Dashboard.filteredRescues in Hr. apply filter_In in Hr.
    destruct Hr as [Hr _]. apply mapi_In_raw in Hr. destruct Hr as (i & E & _).
    now rewrite E at 1. }
  assert (C : map _raw (filter closedStatus
                (Dashboard.filteredRescues toLowerCase slice_0_60 numberToString
                   encodeURIComponent drawAll S3_BUCKET AWS_REGION (setCaseType all s)))
              = filter closed (map _raw
                (Dashboard.filteredRescues toLowerCase slice_0_60 numberToString
                   encodeURIComponent drawAll S3_BUCKET AWS_REGION (setCaseType all s)))).
  { apply filter_map_raw. exact R. }
  assert (O : map _raw (filter (fun r => negb (closedStatus r))
                (Dashboard.filteredRescues toLowerCase slice_0_60 numberToString
                   encodeURIComponent drawAll S3_BUCKET AWS_REGION (setCaseType all s)))
              = filter (fun c => negb (closed c)) (map _raw
                (Dashboard.filteredRescues toLowerCase slice_0_60 numberToString
                   encodeURIComponent drawAll S3_BUCKET AWS_REGION (setCaseType all s)))).
  { apply filter_map_raw. intros r Hr. now rewrite (R r Hr). }
  pose proof (listed_cases drawAll (setCaseType all s) H) as EA.
  pose proof (listed_cases drawCompleted (setCaseType completed s) H) as EC.
  pose proof (listed_cases drawOngoing (setCaseType ongoing s) H) as EO.
  cbn [cases setCaseType] in EA, EC, EO.
  assert (E1 : map _raw (Dashboard.filteredRescues toLowerCase slice_0_60 numberToString
                           encodeURIComponent drawCompleted S3_BUCKET AWS_REGION
                           (setCaseType completed s))
               = filter closed (map _raw (Dashboard.filteredRescues toLowerCase slice_0_60
                           numberToString encodeURIComponent drawAll S3_BUCKET AWS_REGION
                           (setCaseType all s)))).
  { rewrite EC, EA, filter_and. apply filter_ext. intros c. unfold Dashboard.shown, closed. cbn.
    destruct (closedStatus _); cbn; now rewrite ?andb_true_r, ?andb_false_r. }
  assert (E2 : map _raw (Dashboard.filteredRescues toLowerCase slice_0_60 numberToString
                           encodeURIComponent drawOngoing S3_BUCKET AWS_REGION
                           (setCaseType ongoing s))
               = filter (fun c => negb (closed c))
                   (map _raw (Dashboard.filteredRescues toLowerCase slice_0_60
                           numberToString encodeURIComponent drawAll S3_BUCKET AWS_REGION
                           (setCaseType all s)))).
  { rewrite EO, EA, filter_and. apply filter_ext. intros c. unfold Dashboard.shown, closed. cbn.
    destruct (closedStatus _); cbn; now rewrite ?andb_true_r, ?andb_false_r. }
  rewrite C, O. repeat split; [ exact E1 | exact E2 | ].
  rewrite <- (length_map _raw), <- (length_map _raw (Dashboard.filteredRescues _ _ _ _ drawCompleted _ _ _)),
    <- (length_map _raw (Dashboard.filteredRescues _ _ _ _ drawOngoing _ _ _)).
  rewrite E1, E2. apply filter_split.
Qed.

(** X17.  No card of the list has an empty status, severity, location,
    time or contact: a missing or empty field shows as New, Unknown,
    the coordinates or Unknown, recent and n/a. *)
Theorem cards_have_no_empty_field s r :
  In r (filteredRescues s) ->
  RescueCard.status (card r) <> EmptyString /\
  RescueCard.severity (card r) <> EmptyString /\
  RescueCard.location (card r) <> EmptyString /\
  RescueCard.reportedAt (card r) <> EmptyString /\
  RescueCard.contactInfo (card r) <> EmptyString.
Proof.
  unfold Dashboard.filteredRescues. intros H. apply filter_In in H. destruct H as [H _].
  apply mapi_In in H. destruct H as (i & c & _ & ->). cbn.
  repeat split; try (apply orElse_not_empty; discriminate).
  apply orElse_not_empty.
  destruct (_ && _); [ | discriminate ].
  destruct (latitude c), (longitude c); try discriminate.
  apply (append_not_empty _ (" " ++ numberToString f0) ","%char).
Qed.

Lemma filteredRescues_In s r :
  In r (filteredRescues s) ->
  exists k c, nth_error (cases s) k = Some c /\ r = toRescue k c /\ shown s r = true.
Proof.
  unfold Dashboard.filteredRescues. intros H. apply filter_In in H. destruct H as [H Hs].
  apply mapi_In in H. destruct H as (i & c & H1 & H2). exists i, c. auto.
Qed.

(** X18.  Which buttons a card of the list has depends on the tab: in the
    all tab Take Action alone, and only on a card whose status in lower
    case is none of resolved, in progress, completed and closed; in the
    ongoing tab Track alone, on every card, and every card shown there has
    an open status; in the completed tab no button, and every card shown
    there has a closed status. *)
Theorem card_buttons_by_tab s r :
  In r (filteredRescues s) ->
  let footer := RescueCard.footer toLowerCase (cardProps s r) in
  match caseType s with
  | all =>
      footer = if RescueCard.isActionable toLowerCase (card r)
               then Some {| RescueCard.takeAction := true; RescueCard.track := false |}
               else None
  | ongoing =>
      footer = Some {| RescueCard.takeAction := false; RescueCard.track := true |} /\
      closedStatus r = false
  | completed => footer = None /\ closedStatus r = true
  end.
Proof.
  intros H. destruct (filteredRescues_In s r H) as (k & c & _ & _ & Hs).
  unfold Dashboard.shown in Hs. unfold RescueCard.footer, cardProps. cbn.
  destruct (caseType s); cbn.
  - now destruct (RescueCard.isActionable _ _).
  - split; [ reflexivity | ]. now destruct (closedStatus r).
  - split; [ reflexivity | ]. now destruct (closedStatus r).
Qed.

Local Abbreviation handleTrack := (Dashboard.handleTrack numberToString encodeURIComponent).
Local Abbreviation trackingUrl := (Dashboard.trackingUrl numberToString encodeURIComponent).

Lemma card_id k c :
  truthy (or (case_id c) (id c)) = true ->
  or (case_id c) (id c) = Some (RescueCard.id (card (toRescue k c))).
Proof.
  cbn. unfold or, orElse, truthy.
  destruct (case_id c) as [[|a v]|], (id c) as [[|b w]|]; cbn; auto; discriminate.
Qed.

(** X19.  Track on a card of the list whose case has an id never answers
    "Case not found": it finds a case with that id, and opens the tracking
    page for it when the latitude and the longitude of that case are
    numbers other than 0 and NaN and the NGO coordinates are known;
    otherwise it only shows which of the two is not available. *)
Theorem track_from_card s r :
  In r (filteredRescues s) ->
  truthy (or (case_id (_raw r)) (id (_raw r))) = true ->
  exists c,
    In c (cases s) /\
    or (case_id c) (id c) = Some (RescueCard.id (card r)) /\
    handleTrack s (RescueCard.id (card r)) =
      if truthyNumber (latitude c) && truthyNumber (longitude c) then
        match latitude c, longitude c, ngoCoords s with
        | Some la, Some lo, Some ngo =>
            [RouterPush (trackingUrl (RescueCard.id (card r)) la lo ngo)]
        | _, _, _ => [ToastError "NGO location not available"]
        end
      else [ToastError "Case location not available"].
Proof.
  intros H Ht. destruct (filteredRescues_In s r H) as (k & c & Hk & -> & _).
  cbn [_raw Dashboard.toRescue] in Ht.
  pose proof (card_id k c Ht) as Hid.
  set (v := RescueCard.id (card (toRescue k c))) in *.
  unfold Dashboard.handleTrack, find.
  destruct (List.find _ (cases s)) as [c'|] eqn:Hf.
  - apply find_some in Hf. destruct Hf as [Hin Hp].
    exists c'. split; [ exact Hin | ].
    assert (E : or (case_id c') (id c') = Some v).
    { unfold same in Hp. destruct (or (case_id c') (id c')); [ | discriminate ].
      apply String.eqb_eq in Hp. now subst. }
    split; [ exact E | ].
    destruct (truthyNumber (latitude c')), (truthyNumber (longitude c')); reflexivity.
  - exfalso. pose proof (find_none _ _ Hf c (nth_error_In _ _ Hk)) as Hn.
    cbn beta in Hn. rewrite Hid in Hn. cbn in Hn. rewrite String.eqb_refl in Hn.
    discriminate.
Qed.

Local Abbreviation handleTakeAction :=
  (Dashboard.handleTakeAction encodeURIComponent BACKEND_API).

Ltac in_cases :=
  repeat match goal with
         | H : In _ (_ ++ _) |- _ => apply in_app_or in H
         | H : In _ (_ :: _) |- _ => destruct H
         | H : In _ [] |- _ => destruct H
         | H : _ \/ _ |- _ => destruct H
         | H : False |- _ => contradiction
         | H : Post _ _ = Post _ _ |- _ => injection H as <- <-
         | H : CallFetchNearbyCases _ = CallFetchNearbyCases _ |- _ => injection H as <-
         | H : CallFetchOngoingCases _ = CallFetchOngoingCases _ |- _ => injection H as <-
         | H : @eq Action _ _ |- _ => discriminate H
         end.

(** X20.  Take Action posts at most once, and only for an id some case of
    the list has and with the NGO email set: to that id's take-action
    address, with that email.  The list is reloaded only after an ok
    answer: the nearby cases in the all tab, the NGO's cases in the other
    tabs. *)
Theorem take_action_posts_once s id answer :
  let acts := handleTakeAction s id answer in
  (List.length (filter isPost acts) <= 1)%nat /\
  (forall url email, In (Post url email) acts ->
     url = (BACKEND_API ++ "/cases/" ++ encodeURIComponent id ++ "/take-action")%string /\
     ngoEmail s = Some email /\ email <> EmptyString /\
     exists c, In c (cases s) /\
               (or (case_id c) (Dashboard.id c) = Some id \/ Dashboard.id c = Some id)) /\
  (forall email, In (CallFetchNearbyCases email) acts ->
     caseType s = all /\ ngoEmail s = Some email /\
     exists status body, answer = PostResponse true status body) /\
  (forall email, In (CallFetchOngoingCases email) acts ->
     caseType s <> all /\ ngoEmail s = Some email /\
     exists status body, answer = PostResponse true status body).
Proof.
  cbv zeta. unfold Dashboard.handleTakeAction, find.
  destruct (List.find _ (cases s)) as [c|] eqn:Hf.
  2:{ cbn. repeat split; try lia; intros; in_cases. }
  apply find_some in Hf. destruct Hf as [Hin Hp].
  assert (Hc : exists c, In c (cases s) /\
                 (or (case_id c) (Dashboard.id c) = Some id \/ Dashboard.id c = Some id)).
  { exists c. split; [ exact Hin | ].
    apply orb_true_iff in Hp. unfold same in Hp.
    destruct Hp as [Hp|Hp]; [ left | right ];
      match type of Hp with match ?x with _ => _ end = _ => destruct x end;
      try discriminate; apply String.eqb_eq in Hp; now subst. }
  destruct (ngoEmail s) as [email|]; [ | cbn; repeat split; try lia; intros; in_cases ].
  destruct email as [|a email]; [ cbn; repeat split; try lia; intros; in_cases | ].
  cbn [falsy].
  destruct answer as [|[|] status body]; destruct (caseType s);
    cbn; repeat split; try lia; intros; in_cases;
    repeat split; try reflexivity; try discriminate; eauto.
Qed.

Local Abbreviation fetchNearbyCases :=
  (Dashboard.fetchNearbyCases encodeURIComponent BACKEND_API).
Local Abbreviation enrichBatch := (Dashboard.enrichBatch encodeURIComponent BACKEND_API).
Local Abbreviation batchLoop := (Dashboard.batchLoop encodeURIComponent BACKEND_API).

Lemma batchLoop_done presign data fuel i enriched acts batches :
  (List.length data - i < fuel)%nat ->
  exists bs,
    batchLoop fuel presign data i enriched acts batches =
      Some (enriched ++ fst (enrichBatch presign i (skipn i data)),
            acts ++ snd (enrichBatch presign i (skipn i data)),
            batches ++ bs) /\
    List.concat bs = skipn i data /\
    Forall (fun b => (1 <= List.length b <= batchSize)%nat) bs.
Proof.
  revert i enriched acts batches.
  induction fuel as [|fuel IH]; intros i enriched acts batches Hf; [ lia | ].
  cbn [Dashboard.batchLoop].
  destruct (Nat.ltb_spec i (List.length data)) as [Hi|Hi].
  - set (batch := firstn batchSize (skipn i data)).
    assert (Hskip : skipn i data = batch ++ skipn (i + batchSize) data).
    { subst batch. rewrite Nat.add_comm, <- skipn_skipn. symmetry. apply firstn_skipn. }
    assert (Hlen : (1 <= List.length batch <= batchSize)%nat).
    { subst batch. rewrite length_firstn, length_skipn. unfold batchSize. lia. }
    assert (Hidx : (i + List.length batch = i + batchSize \/
                    skipn (i + batchSize) data = [])%nat).
    { subst batch. rewrite length_firstn, length_skipn.
      destruct (Nat.le_gt_cases batchSize (List.length data - i)) as [L|L].
      - left. lia.
      - right. apply skipn_all2. lia. }
    destruct (enrichBatch presign i batch) as [results a] eqn:Hb.
    destruct (IH (i + batchSize)%nat (enriched ++ results) (acts ++ a) (batches ++ [batch]))
      as (bs & E & Hc & Hs); [ unfold batchSize; lia | ].
    exists (batch :: bs). rewrite E. repeat split.
    + rewrite Hskip.
      assert (Happ : forall l1 l2 k,
                 enrichBatch presign k (l1 ++ l2) =
                 (fst (enrichBatch presign k l1)
                    ++ fst (enrichBatch presign (k + List.length l1) l2),
                  snd (enrichBatch presign k l1)
                    ++ snd (enrichBatch presign (k + List.length l1) l2))).
      { induction l1 as [|x l1 IH1]; intros l2 k; cbn.
        - rewrite Nat.add_0_r. now destruct (enrichBatch presign k l2).
        - destruct (Dashboard.enrich _ _ _ x) as [x' ax].
          rewrite IH1. destruct (enrichBatch presign (S k) l1) as [r1 a1]. cbn.
          rewrite Nat.add_succ_r, <- app_assoc. reflexivity. }
      rewrite Happ, Hb. cbn [fst snd].
      destruct Hidx as [Hidx|Hidx].
      * rewrite Hidx, <- !app_assoc. reflexivity.
      * rewrite Hidx. cbn. rewrite ?app_nil_r, <- ?app_assoc. reflexivity.
    + cbn. now rewrite Hc.
    + constructor; assumption.
  - exists []. rewrite skipn_all2 by lia. cbn. rewrite !app_nil_r. repeat split. constructor.
Qed.

(** X21.  [fetchNearbyCases] always ends, with [loading] off.  A failed
    request, an answer that is not ok and an answer that is not an array
    each empty the list and show one error.  For an array it asks for the
    image addresses in batches of at most six cases that together are the
    array in its order, and the list it stores is the one it would get by
    handling the cases one after the other. *)
Theorem fetchNearbyCases_batches s email answer presign :
  exists s' acts batches,
    fetchNearbyCases s email answer presign = Some (s', acts, batches) /\
    loading s' = false /\
    match answer with
    | CasesArray data =>
        List.concat batches = data /\
        Forall (fun b => (1 <= List.length b <= 6)%nat) batches /\
        cases s' = fst (enrichBatch presign 0 data) /\
        acts = Fetch (BACKEND_API ++ "/cases-nearby?email=" ++ encodeURIComponent email)%string
               :: snd (enrichBatch presign 0 data)
    | _ =>
        cases s' = [] /\ batches = [] /\
        exists msg,
          acts = [Fetch (BACKEND_API ++ "/cases-nearby?email="
                         ++ encodeURIComponent email)%string; ToastError msg]
    end.
Proof.
  unfold Dashboard.fetchNearbyCases.
  destruct answer as [|status body| |data];
    try (do 3 eexists; repeat split; eexists; reflexivity).
  destruct (batchLoop_done presign data (S (List.length data)) 0 []
              [Fetch (BACKEND_API ++ "/cases-nearby?email=" ++ encodeURIComponent email)%string] [])
    as (bs & E & Hc & Hs); [ lia | ].
  rewrite E. do 3 eexists. repeat split; auto.
Qed.

End Facts.

Lemma dogRescue_shown :
  In dogRescue
     (filteredRescues lowerCaseDouble take60 numberDouble encodeDouble drawDouble
        "nivaran-animal-image" "ap-south-1" ongoingTab).
Proof. left. reflexivity. Qed.

Lemma tabs_split_the_list_witness :
  let view draw t :=
    filteredRescues lowerCaseDouble take60 numberDouble encodeDouble draw
      "nivaran-animal-image" "ap-south-1" (setCaseType t searchTab) in
  map _raw (view drawAgain completed)
    = map _raw (filter (closedStatus lowerCaseDouble) (view drawDouble all)) /\
  map _raw (view drawDouble ongoing)
    = map _raw (filter (fun r => negb (closedStatus lowerCaseDouble r)) (view drawDouble all)) /\
  List.length (view drawDouble all)
    = (List.length (view drawAgain completed) + List.length (view drawDouble ongoing))%nat.
Proof.
  apply (tabs_split_the_list lowerCaseDouble take60 numberDouble encodeDouble
           "nivaran-animal-image" "ap-south-1" drawDouble drawAgain drawDouble searchTab).
  right. intros c [<-|[<-|[]]]; reflexivity.
Defined.

Lemma cards_have_no_empty_field_witness :
  RescueCard.status (card dogRescue) <> EmptyString /\
  RescueCard.severity (card dogRescue) <> EmptyString /\
  RescueCard.location (card dogRescue) <> EmptyString /\
  RescueCard.reportedAt (card dogRescue) <> EmptyString /\
  RescueCard.contactInfo (card dogRescue) <> EmptyString.
Proof.
  eapply cards_have_no_empty_field. exact dogRescue_shown.
Defined.

Lemma card_buttons_by_tab_witness :
  RescueCard.footer lowerCaseDouble (cardProps ongoingTab dogRescue) =
    Some {| RescueCard.takeAction := false; RescueCard.track := true |} /\
  closedStatus lowerCaseDouble dogRescue = false.
Proof.
  exact (card_buttons_by_tab _ _ _ _ _ _ _ _ _ dogRescue_shown).
Defined.

Lemma track_from_card_witness :
  exists c,
    In c (cases ongoingTab) /\
    or (case_id c) (id c) = Some "c-17" /\
    handleTrack numberDouble encodeDouble ongoingTab "c-17" =
      if truthyNumber (latitude c) && truthyNumber (longitude c) then
        match latitude c, longitude c, ngoCoords ongoingTab with
        | Some la, Some lo, Some ngo =>
            [RouterPush (trackingUrl numberDouble encodeDouble "c-17" la lo ngo)]
        | _, _, _ => [ToastError "NGO location not available"]
        end
      else [ToastError "Case location not available"].
Proof.
  exact (track_from_card _ _ _ _ _ _ _ _ _ dogRescue_shown eq_refl).
Defined.

End DashboardFacts.
